(** * PanelTraining: overlay reconciliation and hover snapping

    A shallow embedding of the Leaflet glue code of the repository:
    - [syncGeojson] (the [sync_geojson] script), which reconciles the overlays
      sent from Python with the Leaflet layers on the map;
    - [setupHover] of [src/js/render.js]: [featureText], [onMouseMove] and its
      animation-frame callback, [_cellKeyFromPoint], [_rebuildHoverIndex];
    - [showHover] (the [show_hover] script) and [configureOverlays];
    - the [pointToLayer] and [style] callbacks that [syncGeojson] gives to
      [L.geoJSON], as the options objects they build.

    [render.js] holds two versions of the render script; the embedding
    follows the later one, whose candidates carry their feature and whose
    callback sets the tooltip and dispatches the [hover_layer] event.

    The JavaScript [state] object is a record that is passed explicitly; the
    Leaflet map, the layers control and the hover marker are modelled by the
    part of their state that the scripts read back.

    [configureOverlays] binds [overlayadd] and [overlayremove] to
    [sync_geojson], and the layers control fires [overlayremove] when a
    layer that it lists is taken off the map, also when [syncGeojson] itself
    does so: a pass can start a pass inside itself.  The embedding follows
    that: [state.map.removeLayer] takes the handler as a parameter, and
    [syncGeojson] answers the event by a whole pass. *)

From Stdlib Require Import ZArith Lia Bool.
From stdpp Require Import base tactics option list strings pretty gmap.

Local Open Scope string_scope.
Local Open Scope list_scope.

(** ** JavaScript numbers

    Pixel coordinates come from [map.latLngToContainerPoint], which rounds to
    whole pixels; a finite number is therefore an integer here, and the
    arithmetic of the scripts (differences, squares, sums, quotient by the cell
    size) is exact on such values.  The three non-finite doubles are kept,
    because the scripts test for them with [isFinite]. *)
Module Num.

Inductive num : Type :=
| Fin (z : Z)
| PInf
| NInf
| NaN.

#[export] Instance num_eq_dec : EqDecision num.
Proof. solve_decision. Defined.

Definition isFinite (a : num) : bool :=
  match a with Fin _ => true | _ => false end.

Definition inf_of_sign (positive : bool) : num :=
  if positive then PInf else NInf.

(** [true] for the numbers strictly above zero. *)
Definition is_pos (a : num) : bool :=
  match a with
  | Fin z => (0 <? z)%Z
  | PInf => true
  | NInf | NaN => false
  end.

Definition neg (a : num) : num :=
  match a with
  | Fin z => Fin (- z)
  | PInf => NInf
  | NInf => PInf
  | NaN => NaN
  end.

(** [a + b] *)
Definition add (a b : num) : num :=
  match a, b with
  | Fin x, Fin y => Fin (x + y)
  | NaN, _ | _, NaN => NaN
  | PInf, NInf | NInf, PInf => NaN
  | PInf, _ | _, PInf => PInf
  | NInf, _ | _, NInf => NInf
  end.

(** [a - b] *)
Definition sub (a b : num) : num := add a (neg b).

(** [a * b] *)
Definition mul (a b : num) : num :=
  match a, b with
  | Fin x, Fin y => Fin (x * y)
  | NaN, _ | _, NaN => NaN
  | Fin x, _ =>
      if (x =? 0)%Z then NaN else inf_of_sign (eqb (is_pos a) (is_pos b))
  | _, Fin y =>
      if (y =? 0)%Z then NaN else inf_of_sign (eqb (is_pos a) (is_pos b))
  | _, _ => inf_of_sign (eqb (is_pos a) (is_pos b))
  end.

(** [Math.floor(a / b)].  The quotient of two integers is not an integer, so
    the division and the rounding down are one operation of the model; on
    integers it is the floor division of [Z]. *)
Definition floor_div (a b : num) : num :=
  match a, b with
  | NaN, _ | _, NaN => NaN
  | Fin x, Fin y =>
      if (y =? 0)%Z
      then (if (x =? 0)%Z then NaN else inf_of_sign (0 <? x)%Z)
      else Fin (x / y)
  | Fin _, _ => Fin 0
  | _, Fin y => inf_of_sign (eqb (is_pos a) (0 <=? y)%Z)
  | _, _ => NaN
  end.

(** [a < b] *)
Definition lt (a b : num) : bool :=
  match a, b with
  | Fin x, Fin y => (x <? y)%Z
  | Fin _, PInf | NInf, Fin _ | NInf, PInf => true
  | _, _ => false
  end.

(** Conversion to a string, as done by [a + ':' + b]. *)
Definition toString (a : num) : string :=
  match a with
  | Fin z => pretty z
  | PInf => "Infinity"
  | NInf => "-Infinity"
  | NaN => "NaN"
  end.

(** The value of [Math.sqrt].  A square root of an integer is kept as its
    radicand: [Sqrt n] stands for the non-negative root of [n], with
    [0 <= n].  Roots are only ever compared, and the square root is strictly
    increasing, so that the comparisons are those of the radicands. *)
Inductive root : Type :=
| Sqrt (n : Z)
| RInf
| RNaN.

Definition sqrt (a : num) : root :=
  match a with
  | Fin z => if (z <? 0)%Z then RNaN else Sqrt z
  | PInf => RInf
  | NInf | NaN => RNaN
  end.

(** [r < s] for two square roots. *)
Definition root_lt (r s : root) : bool :=
  match r, s with
  | Sqrt a, Sqrt b => (a <? b)%Z
  | Sqrt _, RInf => true
  | _, _ => false
  end.

(** [r <= s] for two square roots. *)
Definition root_le (r s : root) : bool :=
  match r, s with
  | Sqrt a, Sqrt b => (a <=? b)%Z
  | Sqrt _, RInf | RInf, RInf => true
  | _, _ => false
  end.

(** [r <= t] for a square root [r] and a number [t]. *)
Definition root_le_num (r : root) (t : num) : bool :=
  match r, t with
  | Sqrt a, Fin t => (0 <=? t)%Z && (a <=? t * t)%Z
  | Sqrt _, PInf | RInf, PInf => true
  | _, _ => false
  end.

End Num.
Export Num.

(** ** JavaScript objects used as dictionaries

    An object is the list of its own properties in insertion order, which is
    the order of [Object.keys] and [Object.entries].  Assignment to an existing
    key keeps its place; the prototype chain is not modelled. *)
Module Obj.
Section obj.
Context {V : Type}.

(** [o[k]], with [None] for [undefined]. *)
Fixpoint get (k : string) (o : list (string * V)) : option V :=
  match o with
  | [] => None
  | (k', v) :: o' => if decide (k = k') then Some v else get k o'
  end.

(** [o[k] = v] *)
Fixpoint set (k : string) (v : V) (o : list (string * V)) : list (string * V) :=
  match o with
  | [] => [(k, v)]
  | (k', v') :: o' =>
      if decide (k = k') then (k, v) :: o' else (k', v') :: set k v o'
  end.

(** [delete o[k]] *)
Fixpoint delete (k : string) (o : list (string * V)) : list (string * V) :=
  match o with
  | [] => []
  | (k', v') :: o' =>
      if decide (k = k') then delete k o' else (k', v') :: delete k o'
  end.

(** [k in o] *)
Definition has (k : string) (o : list (string * V)) : bool :=
  match get k o with Some _ => true | None => false end.

(** [Object.keys(o)] *)
Definition keys (o : list (string * V)) : list string := map fst o.

(** [Object.entries(o)] *)
Definition entries (o : list (string * V)) : list (string * V) := o.

End obj.
End Obj.

(** ** The data of the widget *)
Section Types.

(** The values exchanged with Python and with Leaflet are opaque to the
    scripts: a GeoJSON document, a property value, a geographic position. *)
Context {GeoJson Value LatLng : Type}.

(** A GeoJSON feature, of which the scripts read [properties] only. *)
Record Feature : Type := {
  properties : option (list (string * Value))
}.

(** A layer inside the group built by [L.geoJSON].  Circle markers answer
    [getLatLng]; paths and nested groups have no such method. *)
Record Sublayer : Type := {
  getLatLng : option LatLng;
  sub_feature : option Feature
}.

(** A Leaflet layer group.  [layer_id] is the identity of the JavaScript
    object; [eachLayer] lists what [lyr.eachLayer] visits. *)
Record Layer : Type := {
  layer_id : nat;
  eachLayer : list Sublayer
}.

(** [{x, y}] in pixels, relative to the map container. *)
Record Point : Type := {
  pt_x : num;
  pt_y : num
}.

(** An element of the hover index: [{x, y, latlng, feature}]. *)
Record Candidate : Type := {
  cand_x : num;
  cand_y : num;
  cand_latlng : LatLng;
  cand_feature : option Feature
}.

(** The result of [_cellKeyFromPoint]: [{cx, cy, key}]. *)
Record Cell : Type := {
  cx : num;
  cy : num;
  key : string
}.

Record Bounds : Type := {
  minX : num;
  maxX : num;
  minY : num;
  maxY : num
}.

(** A Leaflet mouse event, of which the handler reads [latlng]. *)
Record MouseEvent : Type := {
  ev_latlng : LatLng
}.

(** What [featureText] returns: the [name] property as it is, or a string
    built by the function. *)
Inductive Label : Type :=
| LabelValue (v : Value)
| LabelText (s : string).

(** An entry of the merged view: [{geojson, hoverable}]. *)
Record Entry : Type := {
  geojson : GeoJson;
  hoverable : bool
}.

(** The parameters sent by Python that the scripts read. *)
Record Data : Type := {
  geojson_overlays : option (list (string * GeoJson));
  geojson_hover_overlays : option (list (string * GeoJson));
  show_hover : bool
}.

(** The Leaflet map: the layers attached to it, by identity, and the
    projection of the current viewport. *)
Record LMap : Type := {
  map_layers : list nat;
  latLngToContainerPoint : LatLng → Point
}.

(** The reusable hover marker with its tooltip. *)
Record HoverMarker : Type := {
  hover_id : nat;
  hover_latlng : LatLng;
  tooltip_content : Label;
  tooltip_open : bool
}.

(** Observable effects, recorded in the order in which they happen. *)
Inductive Effect : Type :=
| RebuiltHoverIndex
| CreatedLayer (name : string) (gj : GeoJson) (id : nat)
| DetachedLayer (id : nat)
| DispatchedHoverLayer (layer_data : option Feature).

(** The [state] object.  [next_id] allocates object identities and [trace]
    records the effects; both are bookkeeping of the model. *)
Record State : Type := {
  lmap : LMap;
  geojsonLayers : option (list (string * Layer));
  geojsonData : list (string * string);
  geojsonHoverable : list (string * bool);
  geojsonControl : list (nat * string);
  hover : HoverMarker;
  hoverThresholdPx : num;
  gridCell : num;
  hoverIndex : option (gmap string (list Candidate));
  hoverIndexBounds : option Bounds;
  _mmPending : bool;
  _mmLast : option MouseEvent;
  next_id : nat;
  trace : list Effect
}.

(** *** Field updates *)

Definition set_lmap (v : LMap) (st : State) : State :=
  {| lmap := v; geojsonLayers := geojsonLayers st;
     geojsonData := geojsonData st; geojsonHoverable := geojsonHoverable st;
     geojsonControl := geojsonControl st; hover := hover st;
     hoverThresholdPx := hoverThresholdPx st; gridCell := gridCell st;
     hoverIndex := hoverIndex st; hoverIndexBounds := hoverIndexBounds st;
     _mmPending := _mmPending st; _mmLast := _mmLast st;
     next_id := next_id st; trace := trace st |}.

Definition set_geojsonLayers (v : option (list (string * Layer)))
    (st : State) : State :=
  {| lmap := lmap st; geojsonLayers := v;
     geojsonData := geojsonData st; geojsonHoverable := geojsonHoverable st;
     geojsonControl := geojsonControl st; hover := hover st;
     hoverThresholdPx := hoverThresholdPx st; gridCell := gridCell st;
     hoverIndex := hoverIndex st; hoverIndexBounds := hoverIndexBounds st;
     _mmPending := _mmPending st; _mmLast := _mmLast st;
     next_id := next_id st; trace := trace st |}.

Definition set_geojsonData (v : list (string * string)) (st : State) : State :=
  {| lmap := lmap st; geojsonLayers := geojsonLayers st;
     geojsonData := v; geojsonHoverable := geojsonHoverable st;
     geojsonControl := geojsonControl st; hover := hover st;
     hoverThresholdPx := hoverThresholdPx st; gridCell := gridCell st;
     hoverIndex := hoverIndex st; hoverIndexBounds := hoverIndexBounds st;
     _mmPending := _mmPending st; _mmLast := _mmLast st;
     next_id := next_id st; trace := trace st |}.

Definition set_geojsonHoverable (v : list (string * bool))
    (st : State) : State :=
  {| lmap := lmap st; geojsonLayers := geojsonLayers st;
     geojsonData := geojsonData st; geojsonHoverable := v;
     geojsonControl := geojsonControl st; hover := hover st;
     hoverThresholdPx := hoverThresholdPx st; gridCell := gridCell st;
     hoverIndex := hoverIndex st; hoverIndexBounds := hoverIndexBounds st;
     _mmPending := _mmPending st; _mmLast := _mmLast st;
     next_id := next_id st; trace := trace st |}.

Definition set_geojsonControl (v : list (nat * string)) (st : State) : State :=
  {| lmap := lmap st; geojsonLayers := geojsonLayers st;
     geojsonData := geojsonData st; geojsonHoverable := geojsonHoverable st;
     geojsonControl := v; hover := hover st;
     hoverThresholdPx := hoverThresholdPx st; gridCell := gridCell st;
     hoverIndex := hoverIndex st; hoverIndexBounds := hoverIndexBounds st;
     _mmPending := _mmPending st; _mmLast := _mmLast st;
     next_id := next_id st; trace := trace st |}.

Definition set_hover (v : HoverMarker) (st : State) : State :=
  {| lmap := lmap st; geojsonLayers := geojsonLayers st;
     geojsonData := geojsonData st; geojsonHoverable := geojsonHoverable st;
     geojsonControl := geojsonControl st; hover := v;
     hoverThresholdPx := hoverThresholdPx st; gridCell := gridCell st;
     hoverIndex := hoverIndex st; hoverIndexBounds := hoverIndexBounds st;
     _mmPending := _mmPending st; _mmLast := _mmLast st;
     next_id := next_id st; trace := trace st |}.

Definition set_hoverIndex (v : option (gmap string (list Candidate)))
    (b : option Bounds) (st : State) : State :=
  {| lmap := lmap st; geojsonLayers := geojsonLayers st;
     geojsonData := geojsonData st; geojsonHoverable := geojsonHoverable st;
     geojsonControl := geojsonControl st; hover := hover st;
     hoverThresholdPx := hoverThresholdPx st; gridCell := gridCell st;
     hoverIndex := v; hoverIndexBounds := b;
     _mmPending := _mmPending st; _mmLast := _mmLast st;
     next_id := next_id st; trace := trace st |}.

Definition set_mmPending (v : bool) (st : State) : State :=
  {| lmap := lmap st; geojsonLayers := geojsonLayers st;
     geojsonData := geojsonData st; geojsonHoverable := geojsonHoverable st;
     geojsonControl := geojsonControl st; hover := hover st;
     hoverThresholdPx := hoverThresholdPx st; gridCell := gridCell st;
     hoverIndex := hoverIndex st; hoverIndexBounds := hoverIndexBounds st;
     _mmPending := v; _mmLast := _mmLast st;
     next_id := next_id st; trace := trace st |}.

Definition set_mmLast (v : option MouseEvent) (st : State) : State :=
  {| lmap := lmap st; geojsonLayers := geojsonLayers st;
     geojsonData := geojsonData st; geojsonHoverable := geojsonHoverable st;
     geojsonControl := geojsonControl st; hover := hover st;
     hoverThresholdPx := hoverThresholdPx st; gridCell := gridCell st;
     hoverIndex := hoverIndex st; hoverIndexBounds := hoverIndexBounds st;
     _mmPending := _mmPending st; _mmLast := v;
     next_id := next_id st; trace := trace st |}.

Definition set_next_id (v : nat) (st : State) : State :=
  {| lmap := lmap st; geojsonLayers := geojsonLayers st;
     geojsonData := geojsonData st; geojsonHoverable := geojsonHoverable st;
     geojsonControl := geojsonControl st; hover := hover st;
     hoverThresholdPx := hoverThresholdPx st; gridCell := gridCell st;
     hoverIndex := hoverIndex st; hoverIndexBounds := hoverIndexBounds st;
     _mmPending := _mmPending st; _mmLast := _mmLast st;
     next_id := v; trace := trace st |}.

(** Appends an effect to the trace. *)
Definition emit (e : Effect) (st : State) : State :=
  {| lmap := lmap st; geojsonLayers := geojsonLayers st;
     geojsonData := geojsonData st; geojsonHoverable := geojsonHoverable st;
     geojsonControl := geojsonControl st; hover := hover st;
     hoverThresholdPx := hoverThresholdPx st; gridCell := gridCell st;
     hoverIndex := hoverIndex st; hoverIndexBounds := hoverIndexBounds st;
     _mmPending := _mmPending st; _mmLast := _mmLast st;
     next_id := next_id st; trace := trace st ++ [e] |}.

End Types.

(** ** The host of the scripts

    What the JavaScript runtime and Leaflet provide: [JSON.stringify], the
    layers that [L.geoJSON] builds from a document with the [pointToLayer] and
    [style] callbacks of [syncGeojson], the conversions of a property value to
    a boolean (in a condition) and to a string (in a template literal), and
    the position [[0, 0]]. *)
Class Host (GeoJson Value LatLng : Type) : Type := {
  JSON_stringify : GeoJson → string;
  L_geoJSON : GeoJson → list (@Sublayer Value LatLng);
  ToBoolean : Value → bool;
  ToString : Value → string;
  origin : LatLng
}.

(** ** The scripts *)
Section Widget.
Context `{!Host GeoJson Value LatLng}.

Local Abbreviation Feature := (@Feature Value) (only parsing).
Local Abbreviation Sublayer := (@Sublayer Value LatLng) (only parsing).
Local Abbreviation Layer := (@Layer Value LatLng) (only parsing).
Local Abbreviation Candidate := (@Candidate Value LatLng) (only parsing).
Local Abbreviation MouseEvent := (@MouseEvent LatLng) (only parsing).
Local Abbreviation Label := (@Label Value) (only parsing).
Local Abbreviation Entry := (@Entry GeoJson) (only parsing).
Local Abbreviation Data := (@Data GeoJson) (only parsing).
Local Abbreviation LMap := (@LMap LatLng) (only parsing).
Local Abbreviation HoverMarker := (@HoverMarker Value LatLng) (only parsing).
Local Abbreviation Effect := (@Effect GeoJson Value) (only parsing).
Local Abbreviation State := (@State GeoJson Value LatLng) (only parsing).

(** *** The Leaflet objects the scripts call *)

(** [map.hasLayer(lyr)] *)
Definition hasLayer (m : LMap) (id : nat) : bool :=
  bool_decide (id ∈ map_layers m).

(** [map.addLayer(lyr)], also reached by [lyr.addTo(map)]. *)
Definition addLayer (m : LMap) (id : nat) : LMap :=
  if hasLayer m id then m
  else {| map_layers := map_layers m ++ [id];
          latLngToContainerPoint := latLngToContainerPoint m |}.

(** What [map.removeLayer(lyr)] does to the map; nothing happens for a layer
    that is not there. *)
Definition removeLayer (m : LMap) (id : nat) : LMap :=
  {| map_layers := filter (λ i, i ≠ id) (map_layers m);
     latLngToContainerPoint := latLngToContainerPoint m |}.

(** [control.addOverlay(lyr, name)] *)
Definition addOverlay (c : list (nat * string)) (id : nat) (name : string)
    : list (nat * string) :=
  c ++ [(id, name)].

(** [control.removeLayer(lyr)] *)
Definition control_removeLayer (c : list (nat * string)) (id : nat)
    : list (nat * string) :=
  filter (λ e, e.1 ≠ id) c.

(** [state.geojsonLayers] once it is known to be an object. *)
Definition layers (st : State) : list (string * Layer) :=
  default [] (geojsonLayers st).

(** ** The hover index: [setupHover] of [render.js] *)

(** [state._cellKeyFromPoint] *)
Definition _cellKeyFromPoint (st : State) (pt : Point) : Cell :=
  let cx := Num.floor_div (pt_x pt) (gridCell st) in
  let cy := Num.floor_div (pt_y pt) (gridCell st) in
  {| cx := cx; cy := cy; key := Num.toString cx +:+ ":" +:+ Num.toString cy |}.

(** The body of the callback given to [lyr.eachLayer] in
    [_rebuildHoverIndex]; the accumulator holds [idx] and the four bounds. *)
Definition index_sublayer (st : State)
    (acc : gmap string (list Candidate) * Bounds) (sub : Sublayer)
    : gmap string (list Candidate) * Bounds :=
  let '(idx, b) := acc in
  match getLatLng sub with
  | None => acc
  | Some ll =>
      let pt := latLngToContainerPoint (lmap st) ll in
      if negb (Num.isFinite (pt_x pt)) || negb (Num.isFinite (pt_y pt)) then acc
      else
        let cell := _cellKeyFromPoint st pt in
        let idx1 :=
          match idx !! key cell with
          | Some _ => idx
          | None => <[key cell := []]> idx
          end in
        let o := {| cand_x := pt_x pt; cand_y := pt_y pt;
                    cand_latlng := ll; cand_feature := sub_feature sub |} in
        let idx2 := <[key cell := default [] (idx1 !! key cell) ++ [o]]> idx1 in
        let b1 :=
          {| minX := if Num.lt (pt_x pt) (minX b) then pt_x pt else minX b;
             maxX := if Num.lt (maxX b) (pt_x pt) then pt_x pt else maxX b;
             minY := if Num.lt (pt_y pt) (minY b) then pt_y pt else minY b;
             maxY := if Num.lt (maxY b) (pt_y pt) then pt_y pt else maxY b |} in
        (idx2, b1)
  end.

(** One turn of the loop over [Object.entries(state.geojsonLayers)]. *)
Definition index_layer (st : State)
    (acc : gmap string (list Candidate) * Bounds)
    (e : string * Layer) : gmap string (list Candidate) * Bounds :=
  let '(nm, lyr) := e in
  match Obj.get nm (geojsonHoverable st) with
  | Some true =>
      if negb (hasLayer (lmap st) (layer_id lyr)) then acc
      else foldl (index_sublayer st) acc (eachLayer lyr)
  | _ => acc
  end.

(** The index and the bounds computed by [_rebuildHoverIndex]. *)
Definition build_index (st : State) : gmap string (list Candidate) * Bounds :=
  foldl (index_layer st)
    (∅, {| minX := PInf; maxX := NInf; minY := PInf; maxY := NInf |})
    (Obj.entries (layers st)).

(** [state._rebuildHoverIndex] *)
Definition _rebuildHoverIndex (st : State) : State :=
  let '(idx, b) := build_index st in
  emit RebuiltHoverIndex (set_hoverIndex (Some idx) (Some b) st).

(** [featureText] *)
Definition featureText (feature : option Feature) : Label :=
  match feature with
  | Some f =>
      match properties f with
      | Some props =>
          match Obj.get "name" props with
          | Some n =>
              if ToBoolean n then LabelValue n
              else LabelText
                (String.concat ", "
                   (map (λ '(k, v), k +:+ ": " +:+ ToString v)
                      (Obj.entries props)))
          | None =>
              LabelText
                (String.concat ", "
                   (map (λ '(k, v), k +:+ ": " +:+ ToString v)
                      (Obj.entries props)))
          end
      | None => LabelText ""
      end
  | None => LabelText ""
  end.

(** The distance computed in the innermost loop of the mouse-move callback:
    [Math.sqrt(dxp * dxp + dyp * dyp)]. *)
Definition distance (p : Point) (o : Candidate) : root :=
  let dxp := Num.sub (pt_x p) (cand_x o) in
  let dyp := Num.sub (pt_y p) (cand_y o) in
  Num.sqrt (Num.add (Num.mul dxp dxp) (Num.mul dyp dyp)).

(** The loop [for (const o of arr)]; the accumulator is [(best, bestDist)]. *)
Definition scan_candidates (p : Point) (acc : option Candidate * root)
    (arr : list Candidate) : option Candidate * root :=
  foldl (λ '(best, bestDist) o,
           let d := distance p o in
           if Num.root_lt d bestDist then (Some o, d) else (best, bestDist))
        acc arr.

(** The body of the loop over [dx], for a given [dy]. *)
Definition scan_cell (idx : gmap string (list Candidate)) (p : Point)
    (cell : Cell) (dy : Z) (acc : option Candidate * root) (dx : Z)
    : option Candidate * root :=
  let k := Num.toString (Num.add (cx cell) (Fin dx)) +:+ ":" +:+
           Num.toString (Num.add (cy cell) (Fin dy)) in
  match idx !! k with
  | None => acc
  | Some arr => scan_candidates p acc arr
  end.

(** The two nested loops over [dy] and [dx], from [best = null] and
    [bestDist = Infinity]. *)
Definition nearest (st : State) (idx : gmap string (list Candidate))
    (p : Point) : option Candidate * root :=
  let cell := _cellKeyFromPoint st p in
  foldl (λ acc dy, foldl (scan_cell idx p cell dy) acc [-1; 0; 1]%Z)
        (None, RInf) [-1; 0; 1]%Z.

(** The search of the mouse-move callback with its final test
    [best && bestDist <= state.hoverThresholdPx]: the candidate that the
    marker snaps to, if any. *)
Definition queryNearest (st : State) (idx : gmap string (list Candidate))
    (p : Point) : option Candidate :=
  match nearest st idx p with
  | (Some best, bestDist) =>
      if Num.root_le_num bestDist (hoverThresholdPx st) then Some best else None
  | (None, _) => None
  end.

(** [state.hover.setLatLng(ll)] followed by
    [state.hover.setTooltipContent(c)]. *)
Definition hover_snap (ll : LatLng) (c : Label) (h : HoverMarker)
    : HoverMarker :=
  {| hover_id := hover_id h; hover_latlng := ll;
     tooltip_content := c; tooltip_open := tooltip_open h |}.

(** [state.hover.openTooltip()] and [state.hover.closeTooltip()] *)
Definition hover_tooltip (open : bool) (h : HoverMarker) : HoverMarker :=
  {| hover_id := hover_id h; hover_latlng := hover_latlng h;
     tooltip_content := tooltip_content h; tooltip_open := open |}.

(** [if (state.map.hasLayer(state.hover)) state.map.removeLayer(state.hover)] *)
Definition hide_hover (st : State) : State :=
  if hasLayer (lmap st) (hover_id (hover st))
  then set_lmap (removeLayer (lmap st) (hover_id (hover st))) st
  else st.

(** The callback that [onMouseMove] gives to [requestAnimationFrame]: one
    processed pointer move.  [state.hoverIndex] is an object whenever the
    callback has been scheduled; without it the lookup throws and the
    callback ends there. *)
Definition onMouseMove_frame (st : State) : State :=
  let st := set_mmPending false st in
  match _mmLast st with
  | None => st
  | Some e =>
      match hoverIndex st with
      | None => st
      | Some idx =>
          let p := latLngToContainerPoint (lmap st) (ev_latlng e) in
          match queryNearest st idx p with
          | Some best =>
              let st :=
                set_hover
                  (hover_snap (cand_latlng best)
                     (featureText (cand_feature best)) (hover st)) st in
              let st :=
                if negb (hasLayer (lmap st) (hover_id (hover st)))
                then set_lmap (addLayer (lmap st) (hover_id (hover st))) st
                else st in
              let st := set_hover (hover_tooltip true (hover st)) st in
              emit (DispatchedHoverLayer (cand_feature best)) st
          | None =>
              let st := hide_hover st in
              set_hover (hover_tooltip false (hover st)) st
          end
      end
  end.

(** [state.onMouseMove].  Scheduling the callback is [_mmPending = true]:
    exactly one callback is outstanding while the flag is set. *)
Definition onMouseMove (data : Data) (ev : MouseEvent) (st : State) : State :=
  if negb (show_hover data) || negb (bool_decide (is_Some (hoverIndex st)))
  then st
  else
    let st := set_mmLast (Some ev) st in
    if _mmPending st then st else set_mmPending true st.

(** The [mouseout] handler. *)
Definition onMouseOut (st : State) : State :=
  let st := hide_hover st in
  set_hover (hover_tooltip false (hover st)) st.

(** The [show_hover] script. *)
Definition showHover (data : Data) (st : State) : State :=
  if negb (show_hover data) then hide_hover st else st.

(** The [zoomend] and [moveend] handlers, run by Leaflet once the viewport,
    and with it the projection, has changed. *)
Definition onViewportChange (project : LatLng → Point) (st : State) : State :=
  _rebuildHoverIndex
    (set_lmap {| map_layers := map_layers (lmap st);
                 latLngToContainerPoint := project |} st).

(** The state after [render]: [initializeMap] creates the map,
    [configureOverlays] the empty tables and the layers control, and
    [setupHover] the marker (the first object allocated), the threshold, the
    cell size and the empty hover bookkeeping. *)
Definition render (project : LatLng → Point) : State :=
  let hoverThresholdPx := Fin 25 in
  {| lmap := {| map_layers := []; latLngToContainerPoint := project |};
     geojsonLayers := Some [];
     geojsonData := [];
     geojsonHoverable := [];
     geojsonControl := [];
     hover := {| hover_id := 0; hover_latlng := origin;
                 tooltip_content := LabelText ""; tooltip_open := false |};
     hoverThresholdPx := hoverThresholdPx;
     gridCell := hoverThresholdPx;
     hoverIndex := None;
     hoverIndexBounds := None;
     _mmPending := false;
     _mmLast := None;
     next_id := 1;
     trace := [] |}.

(** ** The overlay reconciler: the [sync_geojson] script *)

(** The first block of [syncGeojson]: create the bookkeeping if
    [state.geojsonLayers] is missing. *)
Definition ensure_tables (st : State) : State :=
  match geojsonLayers st with
  | Some _ => st
  | None =>
      set_geojsonControl []
        (set_geojsonHoverable []
           (set_geojsonData [] (set_geojsonLayers (Some []) st)))
  end.

(** The merged view [desired], built by the two loops over the entries of
    the static and of the hover dictionaries. *)
Definition merge_desired (staticDict hoverDict : list (string * GeoJson))
    : list (string * Entry) :=
  let desired :=
    foldl (λ d '(k, v), Obj.set k {| geojson := v; hoverable := false |} d)
          [] (Obj.entries staticDict) in
  foldl (λ d '(k, v), Obj.set k {| geojson := v; hoverable := true |} d)
        desired (Obj.entries hoverDict).

(** [desired] for the parameters [data]; a missing dictionary is empty. *)
Definition desired_of (data : Data) : list (string * Entry) :=
  merge_desired (default [] (geojson_overlays data))
                (default [] (geojson_hover_overlays data)).

(** [state.map.removeLayer(lyr)] as the reconciler meets it.  Leaflet takes
    the layer off the map and, when the layer was on the map and is listed
    in the layers control, the control fires [overlayremove] on the map
    before the call returns; [configureOverlays] has bound that event to
    [sync_geojson], and [on_overlayremove] is what the handler does to the
    state.  A layer that is not on the map is left alone, without event. *)
Definition map_removeLayer (on_overlayremove : State → State) (lyr : Layer)
    (st : State) : State :=
  if hasLayer (lmap st) (layer_id lyr) then
    let listed := bool_decide (layer_id lyr ∈ (geojsonControl st).*1) in
    let st := set_lmap (removeLayer (lmap st) (layer_id lyr)) st in
    if listed then on_overlayremove st else st
  else st.

(** [state.geojsonControl.removeLayer(lyr)], with the record of the
    detachment. *)
Definition unlist (lyr : Layer) (st : State) : State :=
  let st :=
    set_geojsonControl
      (control_removeLayer (geojsonControl st) (layer_id lyr)) st in
  emit (DetachedLayer (layer_id lyr)) st.

(** The two [try] blocks that take a layer off the map and out of the
    layers control. *)
Definition detach (on_overlayremove : State → State) (lyr : Layer)
    (st : State) : State :=
  unlist lyr (map_removeLayer on_overlayremove lyr st).

(** The three [delete] statements of the removal loop. *)
Definition forget_overlay (name : string) (st : State) : State :=
  let st := set_geojsonLayers (Some (Obj.delete name (layers st))) st in
  let st := set_geojsonData (Obj.delete name (geojsonData st)) st in
  set_geojsonHoverable (Obj.delete name (geojsonHoverable st)) st.

(** The body of the removal loop for a name that is not desired.  The layer
    is read when the name is reached: a pass started in between may have
    deleted it, in which case the two calls throw and are caught. *)
Definition remove_overlay (on_overlayremove : State → State) (name : string)
    (st : State) : State :=
  let st :=
    match Obj.get name (layers st) with
    | Some lyr => detach on_overlayremove lyr st
    | None => st
    end in
  forget_overlay name st.

(** The loop [for (const name of Object.keys(state.geojsonLayers))], over
    the names that the table has when the loop starts. *)
Definition removal_pass (on_overlayremove : State → State)
    (desiredNames : gset string) (st : State) : State :=
  foldl (λ st name,
           if bool_decide (name ∈ desiredNames) then st
           else remove_overlay on_overlayremove name st)
        st (Obj.keys (layers st)).

(** [needsCreate] for one entry of [desired]. *)
Definition needsCreate (st : State) (name : string) (entry : Entry) : bool :=
  let serialized := JSON_stringify (geojson entry) in
  negb (Obj.has name (layers st))
  || negb (bool_decide (Obj.get name (geojsonData st) = Some serialized))
  || negb (bool_decide
             (Obj.get name (geojsonHoverable st) = Some (hoverable entry))).

(** The end of the body of the upsert loop: the layer is built by
    [L.geoJSON], put on the map, recorded in the three tables and listed in
    the layers control.  The layer goes on the map before the control lists
    it, so that the control fires no [overlayadd]. *)
Definition create_overlay (name : string) (entry : Entry) (st : State)
    : State :=
  let gj := geojson entry in
  let hoverable := hoverable entry in
  let serialized := JSON_stringify gj in
  let layer := {| layer_id := next_id st; eachLayer := L_geoJSON gj |} in
  let st := set_next_id (S (next_id st)) st in
  let st := emit (CreatedLayer name gj (layer_id layer)) st in
  let st := set_lmap (addLayer (lmap st) (layer_id layer)) st in
  let st := set_geojsonLayers (Some (Obj.set name layer (layers st))) st in
  let st := set_geojsonData (Obj.set name serialized (geojsonData st)) st in
  let st :=
    set_geojsonHoverable (Obj.set name hoverable (geojsonHoverable st)) st in
  set_geojsonControl (addOverlay (geojsonControl st) (layer_id layer) name) st.

(** The body of the loop over [Object.entries(desired)]; the accumulator
    carries [state] and the local [changedVisiblePoints].  An entry of
    [desired] always has its [geojson], so that [gj] is [entry.geojson]. *)
Definition upsert (on_overlayremove : State → State) (acc : State * bool)
    (e : string * Entry) : State * bool :=
  let '(st, changedVisiblePoints) := acc in
  let '(name, entry) := e in
  if negb (needsCreate st name entry) then (st, changedVisiblePoints)
  else
    let st :=
      match Obj.get name (layers st) with
      | Some old => detach on_overlayremove old st
      | None => st
      end in
    (create_overlay name entry st, true).

(** The body of [syncGeojson] up to its last statement, with
    [on_overlayremove] for the handler of the event that its own calls of
    [state.map.removeLayer] may fire.  The local [changedVisiblePoints] is
    never read. *)
Definition sync_loops (on_overlayremove : State → State) (data : Data)
    (st : State) : State :=
  let st := ensure_tables st in
  let desired := desired_of data in
  let desiredNames : gset string := list_to_set (Obj.keys desired) in
  let st := removal_pass on_overlayremove desiredNames st in
  let '(st, changedVisiblePoints) :=
    foldl (upsert on_overlayremove) (st, false) (Obj.entries desired) in
  st.

(** One run of the body of [syncGeojson]: the two loops, then the call of
    [state._rebuildHoverIndex], which no condition guards. *)
Definition sync_pass (on_overlayremove : State → State) (data : Data)
    (st : State) : State :=
  _rebuildHoverIndex (sync_loops on_overlayremove data st).

(** The handler bound to [overlayremove] is [() => self.sync_geojson()]: a
    pass with the same parameters, run to its end inside the pass that fired
    the event.  [sync_nested depth] is a pass that answers the event by a
    pass of depth one less; at depth [0] the event is left unanswered. *)
Fixpoint sync_nested (depth : nat) (data : Data) (st : State) : State :=
  match depth with
  | 0 => sync_pass (λ s, s) data st
  | S d => sync_pass (sync_nested d data) data st
  end.

(** [syncGeojson].  A pass starts a nested pass only by taking off the map a
    layer of the table, which stays off: the passes are never nested deeper
    than the table is long, so that depth [0] is not reached with the event
    fired (see [nesting_enough]). *)
Definition syncGeojson (data : Data) (st : State) : State :=
  sync_nested (length (layers st)) data st.

(** The user ticks or unticks an overlay in the layers control: Leaflet adds
    the layer to the map or removes it, then fires [overlayadd] or
    [overlayremove], which [configureOverlays] binds to [sync_geojson]. *)
Definition onOverlayToggle (data : Data) (id : nat) (st : State) : State :=
  let m :=
    if hasLayer (lmap st) id then removeLayer (lmap st) id
    else addLayer (lmap st) id in
  syncGeojson data (set_lmap m st).

(** ** The widget as a transition system *)

Inductive step : State → State → Prop :=
| step_sync data st :
    step st (syncGeojson data st)
| step_toggle data id st :
    id ∈ (geojsonControl st).*1 →
    step st (onOverlayToggle data id st)
| step_viewport project st :
    step st (onViewportChange project st)
| step_mousemove data ev st :
    step st (onMouseMove data ev st)
| step_frame st :
    _mmPending st = true →
    step st (onMouseMove_frame st)
| step_mouseout st :
    step st (onMouseOut st)
| step_show_hover data st :
    step st (showHover data st).

(** The states of a rendered widget. *)
Definition reachable (st : State) : Prop :=
  ∃ project, rtc step (render project) st.

(** ** Vocabulary of the specification *)

(** The set of names of a table. *)
Definition names {V : Type} (o : list (string * V)) : gset string :=
  list_to_set (Obj.keys o).

(** The names of the snapshot sent by Python, over its two groups. *)
Definition snapshot_names (data : Data) : gset string :=
  names (default [] (geojson_overlays data))
  ∪ names (default [] (geojson_hover_overlays data)).

(** The effects of one reconciliation pass from the state [st]. *)
Definition pass_effects (data : Data) (st : State) : list Effect :=
  drop (length (trace st)) (trace (syncGeojson data st)).

Definition is_rebuild (e : Effect) : bool :=
  match e with RebuiltHoverIndex => true | _ => false end.

(** An upsert creates a layer; a removal, like a replacement, detaches one. *)
Definition is_upsert_or_removal (e : Effect) : bool :=
  match e with CreatedLayer _ _ _ | DetachedLayer _ => true | _ => false end.

(** The number of index rebuilds among the effects [t]. *)
Definition rebuilds (t : list Effect) : nat :=
  length (filter (λ e, is_rebuild e = true) t).

(** [c] is one of the candidates held by the index. *)
Definition in_index (idx : gmap string (list Candidate)) (c : Candidate)
    : Prop :=
  ∃ k arr, idx !! k = Some arr ∧ c ∈ arr.

(** The pixel position stored in a candidate. *)
Definition cand_point (c : Candidate) : Point :=
  {| pt_x := cand_x c; pt_y := cand_y c |}.

(** The candidate that [_rebuildHoverIndex] stores for a sublayer, if any. *)
Definition candidate_of (st : State) (sub : Sublayer) : option Candidate :=
  match getLatLng sub with
  | None => None
  | Some ll =>
      let pt := latLngToContainerPoint (lmap st) ll in
      if Num.isFinite (pt_x pt) && Num.isFinite (pt_y pt)
      then Some {| cand_x := pt_x pt; cand_y := pt_y pt;
                   cand_latlng := ll; cand_feature := sub_feature sub |}
      else None
  end.

(** The fingerprint and eligibility tables have no name that the layer
    table lacks. *)
Definition tables_aligned (st : State) : Prop :=
  names (geojsonData st) ⊆ names (layers st) ∧
  names (geojsonHoverable st) ⊆ names (layers st).

(** Every candidate of the index has finite pixel coordinates and is filed
    under the key of its own cell. *)
Definition index_filed (st : State) (idx : gmap string (list Candidate))
    : Prop :=
  ∀ k arr c,
    idx !! k = Some arr → c ∈ arr →
    Num.isFinite (cand_x c) = true ∧ Num.isFinite (cand_y c) = true ∧
    key (_cellKeyFromPoint st (cand_point c)) = k.

(** The keys of the nine cells around the cell of [p], in the order in
    which the two loops of the mouse-move callback build them. *)
Definition neighbourhood (st : State) (p : Point) : list string :=
  let cell := _cellKeyFromPoint st p in
  flat_map
    (λ dy, map (λ dx, Num.toString (Num.add (cx cell) (Fin dx)) +:+ ":" +:+
                      Num.toString (Num.add (cy cell) (Fin dy)))
               [-1; 0; 1]%Z)
    [-1; 0; 1]%Z.

(** The candidates that the search for [p] looks at, in order. *)
Definition visited (st : State) (idx : gmap string (list Candidate))
    (p : Point) : list Candidate :=
  flat_map (λ k, default [] (idx !! k)) (neighbourhood st p).

(** The statement that a pass rebuilds the index exactly when it has
    upserted or removed an overlay, and not otherwise. *)
Definition rebuild_only_on_change : Prop :=
  ∀ data st,
    reachable st →
    rebuilds (pass_effects data st) =
    if existsb is_upsert_or_removal (pass_effects data st) then 1%nat
    else 0%nat.

End Widget.

Arguments layers {_ _ _} !st /.
Arguments set_lmap {_ _ _} v st /.
Arguments set_geojsonLayers {_ _ _} v st /.
Arguments set_geojsonData {_ _ _} v st /.
Arguments set_geojsonHoverable {_ _ _} v st /.
Arguments set_geojsonControl {_ _ _} v st /.
Arguments set_hover {_ _ _} v st /.
Arguments set_hoverIndex {_ _ _} v b st /.
Arguments set_mmPending {_ _ _} v st /.
Arguments set_mmLast {_ _ _} v st /.
Arguments set_next_id {_ _ _} v st /.
Arguments emit {_ _ _} e st /.

(** ** Vocabulary for the properties of the model *)
Section Vocabulary.
Context `{!Host GeoJson Value LatLng}.
Local Abbreviation State := (@State GeoJson Value LatLng) (only parsing).
Local Abbreviation Data := (@Data GeoJson) (only parsing).
Local Abbreviation Effect := (@Effect GeoJson Value) (only parsing).
Local Abbreviation Candidate := (@Candidate Value LatLng) (only parsing).

(** The bounds enclose the candidates of the index, and each of them is the
    coordinate of a candidate unless the index is empty. *)
Definition bounds_fit (idx : gmap string (list Candidate)) (b : Bounds)
    : Prop :=
  (∀ c, in_index idx c →
        Num.isFinite (cand_x c) = true ∧ Num.isFinite (cand_y c) = true ∧
        Num.lt (cand_x c) (minX b) = false ∧
        Num.lt (maxX b) (cand_x c) = false ∧
        Num.lt (cand_y c) (minY b) = false ∧
        Num.lt (maxY b) (cand_y c) = false) ∧
  (((∀ c, ¬ in_index idx c) ∧
    b = {| minX := PInf; maxX := NInf; minY := PInf; maxY := NInf |}) ∨
   (∃ c1 c2 c3 c4,
      in_index idx c1 ∧ in_index idx c2 ∧ in_index idx c3 ∧ in_index idx c4 ∧
      minX b = cand_x c1 ∧ maxX b = cand_x c2 ∧
      minY b = cand_y c3 ∧ maxY b = cand_y c4)).

(** Every object on the map is the hover marker or is listed in the layers
    control. *)
Definition no_orphans (st : State) : Prop :=
  ∀ id, id ∈ map_layers (lmap st) →
        id = hover_id (hover st) ∨ ∃ nm, (id, nm) ∈ geojsonControl st.

(** How the tables, the map and the layers control of a rendered widget fit
    together: the stored layers are distinct objects allocated before
    [next_id], each is listed in the control under its name, the map and the
    control hold allocated objects only, the hover marker is none of the
    stored layers, and the map shows nothing but the marker and listed
    layers. *)
Definition surface_ok (st : State) : Prop :=
  (∀ n lyr, Obj.get n (layers st) = Some lyr →
            (layer_id lyr < next_id st)%nat) ∧
  (∀ n1 l1 n2 l2,
     Obj.get n1 (layers st) = Some l1 → Obj.get n2 (layers st) = Some l2 →
     layer_id l1 = layer_id l2 → n1 = n2) ∧
  (∀ nm lyr, Obj.get nm (layers st) = Some lyr →
             (layer_id lyr, nm) ∈ geojsonControl st) ∧
  (∀ id, id ∈ map_layers (lmap st) → (id < next_id st)%nat) ∧
  (∀ id nm, (id, nm) ∈ geojsonControl st → (id < next_id st)%nat) ∧
  (hover_id (hover st) < next_id st)%nat ∧
  (∀ n lyr, Obj.get n (layers st) = Some lyr →
            layer_id lyr ≠ hover_id (hover st)) ∧
  no_orphans st.

(** *** What a pass does, seen from outside

    A pass may be interrupted by passes that it starts itself.  What follows
    describes a stretch of reconciliation work, from a state [s] to a later
    state [s'], in terms that hold of every step of a pass and of every
    nested pass, so that they hold of a whole pass by composition. *)

(** A name is stale when a pass has work to do for it: its overlay is to be
    created, or re-created because the content or the group differ, or it is
    in the layer table and no longer in the snapshot. *)
Definition stale (data : Data) (st : State) (n : string) : bool :=
  match Obj.get n (desired_of data) with
  | Some entry => needsCreate st n entry
  | None => Obj.has n (layers st)
  end.

(** No name is stale: the tables agree with the snapshot. *)
Definition reconciled (data : Data) (st : State) : Prop :=
  ∀ n, stale data st n = false.

(** The three table entries of a name are the same in two states. *)
Definition same_entries (s s' : State) (n : string) : Prop :=
  Obj.get n (layers s') = Obj.get n (layers s) ∧
  Obj.get n (geojsonData s') = Obj.get n (geojsonData s) ∧
  Obj.get n (geojsonHoverable s') = Obj.get n (geojsonHoverable s).

(** The effects recorded between a state and a later one. *)
Definition effects (s s' : State) : list Effect :=
  drop (length (trace s)) (trace s').

(** Between [s] and [s'] the overlay of [n] has been created for its entry
    of the snapshot, which asked for it. *)
Definition recreated (data : Data) (s s' : State) (n : string) : Prop :=
  ∃ entry id,
    Obj.get n (desired_of data) = Some entry ∧
    needsCreate s n entry = true ∧
    (next_id s ≤ id)%nat ∧ (id < next_id s')%nat ∧
    Obj.get n (layers s') =
      Some {| layer_id := id; eachLayer := L_geoJSON (geojson entry) |} ∧
    Obj.get n (geojsonData s') = Some (JSON_stringify (geojson entry)) ∧
    Obj.get n (geojsonHoverable s') = Some (hoverable entry) ∧
    ∃ id', CreatedLayer n (geojson entry) id' ∈ effects s s'.

(** Between [s] and [s'] the overlay of [n], which the snapshot no longer
    has, has been detached and its three entries deleted. *)
Definition removed (data : Data) (s s' : State) (n : string) : Prop :=
  Obj.get n (desired_of data) = None ∧
  (∃ lyr, Obj.get n (layers s) = Some lyr ∧
          DetachedLayer (layer_id lyr) ∈ effects s s') ∧
  Obj.get n (layers s') = None ∧
  Obj.get n (geojsonData s') = None ∧
  Obj.get n (geojsonHoverable s') = None.

(** A stretch of reconciliation work for the snapshot [data]. *)
Record pass_work (data : Data) (s s' : State) : Prop := {
  pw_gridCell : gridCell s' = gridCell s;
  pw_threshold : hoverThresholdPx s' = hoverThresholdPx s;
  pw_hover : hover s' = hover s;
  pw_pending : _mmPending s' = _mmPending s;
  pw_last : _mmLast s' = _mmLast s;
  pw_project :
    latLngToContainerPoint (lmap s') = latLngToContainerPoint (lmap s);
  pw_next_id : (next_id s ≤ next_id s')%nat;
  pw_tables : is_Some (geojsonLayers s) → is_Some (geojsonLayers s');
  pw_trace : trace s' = trace s ++ effects s s';
  (* a layer is created only for an entry of the snapshot that was stale *)
  pw_created :
    ∀ n gj id,
      CreatedLayer n gj id ∈ effects s s' →
      ∃ entry, Obj.get n (desired_of data) = Some entry ∧
               gj = geojson entry ∧ needsCreate s n entry = true ∧
               (next_id s ≤ id)%nat;
  (* every name is untouched, re-created or removed *)
  pw_entries :
    ∀ n, same_entries s s' n ∨ recreated data s s' n ∨ removed data s s' n;
  (* an object allocated before is neither put on the map nor listed *)
  pw_old :
    ∀ id, (id < next_id s)%nat →
          (id ∈ map_layers (lmap s') → id ∈ map_layers (lmap s)) ∧
          (∀ nm, (id, nm) ∈ geojsonControl s' → (id, nm) ∈ geojsonControl s);
  (* an object that is not the layer of a stale name stays where it is *)
  pw_kept :
    ∀ id, (id < next_id s)%nat →
          (∀ nm lyr, Obj.get nm (layers s) = Some lyr → layer_id lyr = id →
                     stale data s nm = false) →
          (id ∈ map_layers (lmap s) → id ∈ map_layers (lmap s')) ∧
          (∀ nm, (id, nm) ∈ geojsonControl s → (id, nm) ∈ geojsonControl s');
  (* the layer of a stale name that has been dealt with is off the map and
     out of the control *)
  pw_gone :
    ∀ nm lyr, Obj.get nm (layers s) = Some lyr →
              (layer_id lyr < next_id s)%nat → stale data s nm = true →
              same_entries s s' nm ∨
              ((layer_id lyr ∉ map_layers (lmap s')) ∧
               ∀ nm', (layer_id lyr, nm') ∉ geojsonControl s');
  (* the surface stays in order, and what has been created is on the map *)
  pw_surface : surface_ok s → surface_ok s';
  pw_shown :
    surface_ok s →
    ∀ n lyr, Obj.get n (layers s') = Some lyr →
             (next_id s ≤ layer_id lyr)%nat →
             layer_id lyr ∈ map_layers (lmap s')
}.

(** What the handler of [overlayremove] is to a pass: work of the same kind
    on the state it is given. *)
Definition handler_ok (data : Data) (h : State → State) : Prop :=
  ∀ s, is_Some (geojsonLayers s) → pass_work data s (h s).

(** The layer stored for a name is on the map. *)
Definition on_map (st : State) (n : string) : bool :=
  match Obj.get n (layers st) with
  | Some lyr => hasLayer (lmap st) (layer_id lyr)
  | None => false
  end.

(** The number of stale names whose layer is on the map: a bound on the
    depth to which the passes from a state get nested. *)
Definition nesting_bound (data : Data) (st : State) : nat :=
  size (filter (λ n, stale data st n = true ∧ on_map st n = true)
               (names (layers st))).

(** Two handlers that agree below the bound of the state in which a pass
    started are the same to the pass. *)
Definition agree_below (data : Data) (s : State) (h1 h2 : State → State)
    : Prop :=
  ∀ s', is_Some (geojsonLayers s') → surface_ok s' →
        (nesting_bound data s' < nesting_bound data s)%nat → h1 s' = h2 s'.

(** A handler that, below the bound of the state in which a pass started,
    rebuilds the index once and once more for every stale name whose layer
    is on the map, and leaves the tables reconciled. *)
Definition counts_rebuilds (data : Data) (s : State) (h : State → State)
    : Prop :=
  ∀ s', is_Some (geojsonLayers s') → surface_ok s' →
        (nesting_bound data s' < nesting_bound data s)%nat →
        rebuilds (effects s' (h s')) = S (nesting_bound data s') ∧
        reconciled data (h s').

(** The candidates of the overlays that are hover-eligible and on the map,
    in the order of the layer table and, within an overlay, of its
    sublayers. *)
Definition candidates (st : State) : list Candidate :=
  flat_map
    (λ '(nm, lyr),
       match Obj.get nm (geojsonHoverable st) with
       | Some true =>
           if hasLayer (lmap st) (layer_id lyr)
           then omap (candidate_of st) (eachLayer lyr)
           else []
       | _ => []
       end)
    (Obj.entries (layers st)).

(** The candidates of a list that fall in the cell of key [k], in order. *)
Definition in_cell (st : State) (k : string) (cs : list Candidate)
    : list Candidate :=
  filter (λ c, key (_cellKeyFromPoint st (cand_point c)) = k) cs.

(** An index holds under every key the candidates of [cs] of that cell, in
    order, and has no empty bucket. *)
Definition index_lists (st : State) (idx : gmap string (list Candidate))
    (cs : list Candidate) : Prop :=
  ∀ k, idx !! k =
       match in_cell st k cs with
       | [] => None
       | c :: b => Some (c :: b)
       end.

End Vocabulary.

(** The strings all of whose characters satisfy [P]. *)
Fixpoint all_chars (P : Ascii.ascii → bool) (s : string) : bool :=
  match s with
  | EmptyString => true
  | String c s' => P c && all_chars P s'
  end.

(** The characters of a decimal numeral: the digits and the sign. *)
Definition numeral_char (c : Ascii.ascii) : bool :=
  bool_decide (c ∈ String.list_ascii_of_string "0123456789-").

(** Any character but the separator of the two parts of a cell key. *)
Definition not_colon (c : Ascii.ascii) : bool :=
  negb (bool_decide (String c EmptyString = ":")).

(** ** The option callbacks that [syncGeojson] gives to [L.geoJSON] *)

(** The colour scale that [pointToLayer] asks of the [chroma] library. *)
Inductive Scale {Value : Type} : Type :=
| ScaleOfArray (cmap : Value)     (* [chroma.scale(cmap)] *)
| ScaleBrewer (key : string)      (* [chroma.scale(chroma.brewer[key])] *)
| ScaleFromBlack (hex : string)   (* [chroma.scale(['#000000', hex])] *)
| ScaleDefault.        (* [chroma.scale(['#4575b4', '#ffffbf', '#d73027'])] *)
Arguments Scale : clear implicits.

(** A value of an options object: a property value passed on as it is, a
    literal of the script, or the shared canvas renderer.  The number
    literal [ONum d n] is [d / 10 ^ n].  The constructors say which
    expression of the script has produced the value; a property value and a
    literal that are the same JavaScript value are different terms here, so
    that nothing is to be read into their being unequal. *)
Inductive OptVal {Value : Type} : Type :=
| FromData (v : Value)
| ONum (digits : Z) (places : nat)
| OStr (s : string)
| OBool (b : bool)
| CanvasRenderer.
Arguments OptVal : clear implicits.

(** What the callbacks ask of a property value and of [chroma]:
    [v === undefined], [Array.isArray(v)], the string that [v] is when
    [typeof v === 'string'], [key in chroma.brewer], [s.toLowerCase()],
    [chroma(s).hex()] with [None] when it throws, and
    [scale.domain([vmin, vmax])(v).hex()]. *)
Class Chroma (Value : Type) : Type := {
  isUndefined : Value → bool;
  isArray : Value → bool;
  asString : Value → option string;
  in_brewer : string → bool;
  toLowerCase : string → string;
  chroma_hex : string → option string;
  scale_hex : Scale Value → Value → Value → Value → string
}.

Section Styling.
Context `{!Host GeoJson Value LatLng} `{!Chroma Value}.
Local Abbreviation Feature := (@Feature Value) (only parsing).
Local Abbreviation OptVal := (OptVal Value) (only parsing).
Local Abbreviation Scale := (Scale Value) (only parsing).

(** [(x !== undefined) ? x : undefined]; a missing property reads as
    [undefined]. *)
Definition strict (x : option Value) : option Value :=
  match x with
  | Some v => if isUndefined v then None else Some v
  | None => None
  end.

(** [o[k]] when it is not [undefined]. *)
Definition defined (k : string) (o : list (string * Value)) : option Value :=
  strict (Obj.get k o).

(** [allowed] in the [style] callback. *)
Definition allowed : list string :=
  ["color"; "weight"; "opacity"; "fillColor"; "fillOpacity"; "dashArray";
   "lineCap"; "lineJoin"].

(** The body of the loop [for (const k of allowed)]. *)
Definition style_pick (p cp : list (string * Value))
    (s : list (string * OptVal)) (k : string) : list (string * OptVal) :=
  match defined k p with
  | Some v => Obj.set k (FromData v) s
  | None =>
      match defined k cp with
      | Some v => Obj.set k (FromData v) s
      | None => s
      end
  end.

(** The [style] callback, for the [collectionProps] of the document. *)
Definition style (collectionProps : list (string * Value))
    (feature : Feature) : list (string * OptVal) :=
  let p := default [] (properties feature) in
  let cp := collectionProps in
  let s := foldl (style_pick p cp) [] allowed in
  let s :=
    if (length (Obj.keys s) =? 0)%nat
    then Obj.set "fillOpacity" (ONum 2 1)
           (Obj.set "weight" (ONum 2 0) (Obj.set "color" (OStr "#3388ff") s))
    else s in
  Obj.set "renderer" CanvasRenderer s.

(** [Object.assign(target, source)] *)
Definition assign (target source : list (string * OptVal))
    : list (string * OptVal) :=
  foldl (λ t '(k, v), Obj.set k v t) target (Obj.entries source).

(** A dictionary of property values as an options object. *)
Definition from_data (o : list (string * Value)) : list (string * OptVal) :=
  map (λ '(k, v), (k, FromData v)) o.

(** The truth value of an option value. *)
Definition truthy (v : OptVal) : bool :=
  match v with
  | FromData v => ToBoolean v
  | ONum d _ => negb (d =? 0)%Z
  | OStr s => negb (String.eqb s "")
  | OBool b => b
  | CanvasRenderer => true
  end.

(** The truth value of a property read [o[k]]; a missing property is
    [undefined]. *)
Definition truthy_at (k : string) (o : list (string * OptVal)) : bool :=
  match Obj.get k o with Some v => truthy v | None => false end.

(** [baseOpts] in the [pointToLayer] callback. *)
Definition baseOpts : list (string * OptVal) :=
  [("radius", ONum 3 0); ("weight", ONum 0 0); ("interactive", OBool false);
   ("renderer", CanvasRenderer)].

(** [tryBrewer(key)], with [None] for [null]. *)
Definition tryBrewer (key : string) : option Scale :=
  if negb (String.eqb key "") && in_brewer key then Some (ScaleBrewer key)
  else None.

(** The scale chosen for a colour map [cmap]. *)
Definition scale_of (cmap : Value) : Scale :=
  if isArray cmap then ScaleOfArray cmap
  else
    match asString cmap with
    | Some s =>
        match tryBrewer s with
        | Some scale => scale
        | None =>
            match tryBrewer (toLowerCase s) with
            | Some scale => scale
            | None =>
                match chroma_hex s with
                | Some hex => ScaleFromBlack hex
                | None => ScaleDefault
                end
            end
        end
    | None => ScaleDefault
    end.

(** The colour computed when neither [color] nor [fillColor] is given. *)
Definition auto_color (collectionProps p : list (string * Value)) : string :=
  let v := defined "value" p in
  let vmin :=
    match defined "vmin" collectionProps with
    | Some x => Some x
    | None => Obj.get "vmin" p
    end in
  let vmax :=
    match defined "vmax" collectionProps with
    | Some x => Some x
    | None => Obj.get "vmax" p
    end in
  let cmap :=
    match defined "cmap" collectionProps with
    | Some x => Some x
    | None => Obj.get "cmap" p
    end in
  match strict v, strict vmin, strict vmax, strict cmap with
  | Some v, Some vmin, Some vmax, Some cmap =>
      scale_hex (scale_of cmap) vmin vmax v
  | _, _, _, _ => "#1f77b4"
  end.

(** The [pointToLayer] callback: the options of the circle marker that it
    returns. *)
Definition pointToLayer (collectionProps : list (string * Value))
    (feature : Feature) : list (string * OptVal) :=
  let p := default [] (properties feature) in
  let merged :=
    assign (assign (assign [] baseOpts) (from_data collectionProps))
           (from_data p) in
  let colorToUse :=
    if truthy_at "color" merged then Obj.get "color" merged
    else if truthy_at "fillColor" merged then Obj.get "fillColor" merged
    else None in
  let colorToUse :=
    match colorToUse with
    | Some c => c
    | None => OStr (auto_color collectionProps p)
    end in
  let opts := assign [] merged in
  let opts :=
    if negb (truthy_at "color" opts) then Obj.set "color" colorToUse opts
    else opts in
  let opts :=
    if negb (truthy_at "fillColor" opts)
    then Obj.set "fillColor" colorToUse opts
    else opts in
  opts.

(** *** Vocabulary for the callbacks *)

(** The value that the [style] callback takes for a key: the feature's when
    it is defined, else the collection's. *)
Definition style_source (collectionProps : list (string * Value))
    (feature : Feature) (k : string) : option Value :=
  match defined k (default [] (properties feature)) with
  | Some v => Some v
  | None => defined k collectionProps
  end.

(** The property that [pointToLayer] finds under a key: the feature's when
    the feature has the key, else the collection's. *)
Definition given (collectionProps : list (string * Value))
    (feature : Feature) (k : string) : option Value :=
  match Obj.get k (default [] (properties feature)) with
  | Some v => Some v
  | None => Obj.get k collectionProps
  end.

(** The property under a key when it is there and truthy. *)
Definition given_truthy (collectionProps : list (string * Value))
    (feature : Feature) (k : string) : option Value :=
  match given collectionProps feature k with
  | Some v => if ToBoolean v then Some v else None
  | None => None
  end.

End Styling.

(** ** A small host, for examples

    A document is a list of features; a feature has a position, or none when
    it is not a point, and a name.  Positions are already in pixels, except
    that a first coordinate above one million projects to [NaN]. *)

Definition demo_stringify (doc : list (option (Z * Z) * string)) : string :=
  String.concat ";"
    (map (λ '(pos, nm),
            nm +:+ "@" +:+
            match pos with
            | Some (a, b) => pretty a +:+ "," +:+ pretty b
            | None => "-"
            end) doc).

Definition demo_geoJSON (doc : list (option (Z * Z) * string))
    : list (@Sublayer string (Z * Z)) :=
  map (λ '(pos, nm),
         {| getLatLng := pos;
            sub_feature := Some {| properties := Some [("name", nm)] |} |})
      doc.

#[export] Instance demo_host
    : Host (list (option (Z * Z) * string)) string (Z * Z) :=
  {| JSON_stringify := demo_stringify;
     L_geoJSON := demo_geoJSON;
     ToBoolean := λ v, negb (String.eqb v "");
     ToString := λ v, v;
     origin := (0, 0)%Z |}.

Definition demo_project (ll : Z * Z) : Point :=
  {| pt_x := if (1000000 <? ll.1)%Z then NaN else Fin ll.1;
     pt_y := Fin ll.2 |}.

(** The overlay [A] of two points, hover-eligible, and a static overlay [B]
    with a point and an outline. *)
Definition demo_A : list (option (Z * Z) * string) :=
  [(Some (0, 0), "p0"); (Some (0, 1), "p1")]%Z.

Definition demo_B : list (option (Z * Z) * string) :=
  [(Some (500, 500), "b"); (None, "outline")]%Z.

Definition demo_data_AB : @Data (list (option (Z * Z) * string)) :=
  {| geojson_overlays := Some [("B", demo_B)];
     geojson_hover_overlays := Some [("A", demo_A)];
     show_hover := true |}.

(** The same snapshot without [B]. *)
Definition demo_data_A : @Data (list (option (Z * Z) * string)) :=
  {| geojson_overlays := None;
     geojson_hover_overlays := Some [("A", demo_A)];
     show_hover := true |}.

(** A snapshot with the name [A] in both groups, with different contents. *)
Definition demo_data_both : @Data (list (option (Z * Z) * string)) :=
  {| geojson_overlays := Some [("A", demo_B)];
     geojson_hover_overlays := Some [("A", demo_A)];
     show_hover := true |}.

Definition demo_st0 : @State (list (option (Z * Z) * string)) string (Z * Z) :=
  render demo_project.

(** The widget after a first pass with [A] and [B]. *)
Definition demo_st1 : @State (list (option (Z * Z) * string)) string (Z * Z) :=
  syncGeojson demo_data_AB demo_st0.

Definition demo_idx : gmap string (list (@Candidate string (Z * Z))) :=
  default ∅ (hoverIndex demo_st1).

(** The candidate of the point [[0, 0]] of [A]. *)
Definition demo_c0 : @Candidate string (Z * Z) :=
  {| cand_x := Fin 0; cand_y := Fin 0; cand_latlng := (0, 0)%Z;
     cand_feature := Some {| properties := Some [("name", "p0")] |} |}.

Definition demo_ev (ll : Z * Z) : @MouseEvent (Z * Z) := {| ev_latlng := ll |}.

(** A hover-eligible overlay whose first point projects to [NaN] and whose
    second feature is not a point. *)
Definition demo_data_C : @Data (list (option (Z * Z) * string)) :=
  {| geojson_overlays := None;
     geojson_hover_overlays :=
       Some [("C", [(Some (2000000, 5), "far"); (None, "outline");
                    (Some (7, 7), "near")]%Z)];
     show_hover := true |}.

(** What the examples take for [chroma]: no value is [undefined] or an
    array, every value is a string, [blues] is the one palette and [red]
    the one colour name. *)
Definition demo_lower_char (c : Ascii.ascii) : Ascii.ascii :=
  let n := Ascii.N_of_ascii c in
  if (65 <=? n)%N && (n <=? 90)%N then Ascii.ascii_of_N (n + 32) else c.

Fixpoint demo_toLowerCase (s : string) : string :=
  match s with
  | EmptyString => EmptyString
  | String c s' => String (demo_lower_char c) (demo_toLowerCase s')
  end.

#[export] Instance demo_chroma : Chroma string :=
  {| isUndefined := λ _, false;
     isArray := λ _, false;
     asString := Some;
     in_brewer := λ key, bool_decide (key = "blues");
     toLowerCase := demo_toLowerCase;
     chroma_hex := λ s, if bool_decide (s = "red") then Some "#ff0000" else None;
     scale_hex := λ _ _ _ _, "#6baed6" |}.

(** The properties of a collection and a feature of it, whose colour is the
    empty string. *)
Definition demo_cp : list (string * string) :=
  [("color", "red"); ("weight", "5")].

Definition demo_feature : @Feature string :=
  {| properties := Some [("color", ""); ("renderer", "svg")] |}.

(** The snapshot [demo_data_AB] with hovering turned off. *)
Definition demo_data_off : @Data (list (option (Z * Z) * string)) :=
  {| geojson_overlays := Some [("B", demo_B)];
     geojson_hover_overlays := Some [("A", demo_A)];
     show_hover := false |}.

(** The snapshot [demo_data_AB] with another content for [A]. *)
Definition demo_data_A_new : @Data (list (option (Z * Z) * string)) :=
  {| geojson_overlays := Some [("B", demo_B)];
     geojson_hover_overlays := Some [("A", [(Some (5, 5), "q")]%Z)];
     show_hover := true |}.

(** A hover-eligible overlay of three points of one cell; the last two are
    at the same distance from [(3, 3)], and the first is farther. *)
Definition demo_data_tie : @Data (list (option (Z * Z) * string)) :=
  {| geojson_overlays := None;
     geojson_hover_overlays :=
       Some [("T", [(Some (0, 0), "t0"); (Some (0, 2), "t1");
                    (Some (0, 4), "t2")]%Z)];
     show_hover := true |}.

Definition demo_st_tie
    : @State (list (option (Z * Z) * string)) string (Z * Z) :=
  syncGeojson demo_data_tie demo_st0.

(** The candidate of the point [[0, y]] named [nm]. *)
Definition demo_cand (y : Z) (nm : string) : @Candidate string (Z * Z) :=
  {| cand_x := Fin 0; cand_y := Fin y; cand_latlng := (0, y)%Z;
     cand_feature := Some {| properties := Some [("name", nm)] |} |}.

(** The layers that the first pass has created for [B] and for [A]. *)
Definition demo_layer_B : @Layer string (Z * Z) :=
  {| layer_id := 1; eachLayer := demo_geoJSON demo_B |}.

Definition demo_layer_A : @Layer string (Z * Z) :=
  {| layer_id := 2; eachLayer := demo_geoJSON demo_A |}.

(** The widget [demo_st1] after the user has unticked [A] in the control. *)
Definition demo_st_hidden
    : @State (list (option (Z * Z) * string)) string (Z * Z) :=
  onOverlayToggle demo_data_AB 2 demo_st1.

(** The widget [demo_st1] after a pass that replaces [A], whose layer is on
    the map. *)
Definition demo_st_replaced
    : @State (list (option (Z * Z) * string)) string (Z * Z) :=
  syncGeojson demo_data_A_new demo_st1.

(** The widget [demo_st1] after a pointer move. *)
Definition demo_st_moved
    : @State (list (option (Z * Z) * string)) string (Z * Z) :=
  onMouseMove demo_data_AB (demo_ev (3, 4)%Z) demo_st1.

Definition demo_idx_tie : gmap string (list (@Candidate string (Z * Z))) :=
  default ∅ (hoverIndex demo_st_tie).


(** * Properties *)

(** ** Dictionaries *)
Section ObjFacts.
Context {V : Type}.
Implicit Types (o : list (string * V)) (k : string) (v : V).

Lemma obj_get_set_eq k v o : Obj.get k (Obj.set k v o) = Some v.
Proof.
  induction o as [|[k' v'] o IH]; simpl.
  - by rewrite decide_True.
  - destruct (decide (k = k')); simpl.
    + by rewrite decide_True.
    + by rewrite decide_False.
Qed.

Lemma obj_get_set_ne k k' v o :
  k ≠ k' → Obj.get k' (Obj.set k v o) = Obj.get k' o.
Proof.
  intros Hne. induction o as [|[k1 v1] o IH]; simpl.
  - rewrite decide_False; [done | congruence].
  - destruct (decide (k = k1)) as [->|]; simpl.
    + rewrite !decide_False; [done | congruence | congruence].
    + destruct (decide (k' = k1)); [done | apply IH].
Qed.

Lemma obj_get_delete_eq k o : Obj.get k (Obj.delete k o) = None.
Proof.
  induction o as [|[k' v'] o IH]; simpl; [done |].
  destruct (decide (k = k')); simpl; [done |].
  by rewrite decide_False.
Qed.

Lemma obj_get_delete_ne k k' o :
  k ≠ k' → Obj.get k' (Obj.delete k o) = Obj.get k' o.
Proof.
  intros Hne. induction o as [|[k1 v1] o IH]; simpl; [done |].
  destruct (decide (k = k1)) as [->|]; simpl.
  - rewrite decide_False; [done | congruence].
  - destruct (decide (k' = k1)); [done | apply IH].
Qed.

Lemma obj_get_Some_elem k v o : Obj.get k o = Some v → (k, v) ∈ o.
Proof.
  induction o as [|[k' v'] o IH]; simpl; [done |].
  destruct (decide (k = k')) as [->|]; intros Hg.
  - injection Hg as ->. apply list_elem_of_here.
  - apply list_elem_of_further, IH, Hg.
Qed.

Lemma obj_get_None_keys k o : Obj.get k o = None ↔ k ∉ Obj.keys o.
Proof.
  unfold Obj.keys. induction o as [|[k' v'] o IH]; simpl.
  - split; [intros _; apply not_elem_of_nil | done].
  - rewrite not_elem_of_cons. destruct (decide (k = k')) as [->|Hne].
    + split; [done | intros [? _]; done].
    + rewrite IH. tauto.
Qed.

Lemma obj_get_is_Some_keys k o : is_Some (Obj.get k o) ↔ k ∈ Obj.keys o.
Proof.
  rewrite <- not_eq_None_Some, obj_get_None_keys.
  destruct (decide (k ∈ Obj.keys o)); tauto.
Qed.

Lemma obj_has_keys k o : Obj.has k o = true ↔ k ∈ Obj.keys o.
Proof.
  rewrite <- obj_get_is_Some_keys. unfold Obj.has.
  destruct (Obj.get k o); split; try done; intros [? ?]; done.
Qed.

Lemma obj_keys_set k v o n :
  n ∈ Obj.keys (Obj.set k v o) ↔ n = k ∨ n ∈ Obj.keys o.
Proof.
  rewrite <- !obj_get_is_Some_keys. destruct (decide (k = n)) as [->|Hne].
  - rewrite obj_get_set_eq. split; [by left | by eauto].
  - rewrite obj_get_set_ne by done. split; [by right | intros [->|]; done].
Qed.

Lemma obj_keys_delete k o n :
  n ∈ Obj.keys (Obj.delete k o) ↔ n ≠ k ∧ n ∈ Obj.keys o.
Proof.
  rewrite <- !obj_get_is_Some_keys. destruct (decide (k = n)) as [->|Hne].
  - rewrite obj_get_delete_eq. split; [intros [? ?]; done | intros [? _]; done].
  - rewrite obj_get_delete_ne by done. split; [by split | by intros [_ ?]].
Qed.

Lemma obj_get_NoDup k v o :
  NoDup (Obj.keys o) → (k, v) ∈ o → Obj.get k o = Some v.
Proof.
  unfold Obj.keys. induction o as [|[k' v'] o IH]; simpl.
  - intros _ Hin. by apply elem_of_nil in Hin.
  - intros Hnd Hin. apply NoDup_cons in Hnd as [Hk Hnd].
    apply elem_of_cons in Hin as [Heq|Hin].
    + injection Heq as -> ->. by rewrite decide_True.
    + destruct (decide (k = k')) as [->|]; [| by apply IH].
      exfalso. apply Hk. apply list_elem_of_fmap. by exists (k', v).
Qed.

Lemma obj_keys_set_NoDup k v o :
  NoDup (Obj.keys o) → NoDup (Obj.keys (Obj.set k v o)).
Proof.
  unfold Obj.keys. induction o as [|[k' v'] o IH]; simpl.
  - intros _. apply NoDup_singleton.
  - intros Hnd. apply NoDup_cons in Hnd as [Hk Hnd].
    destruct (decide (k = k')) as [->|Hne]; simpl.
    + by apply NoDup_cons.
    + apply NoDup_cons. split; [| by apply IH].
      intros Hin. apply Hk.
      change (k' ∈ Obj.keys (Obj.set k v o)) in Hin.
      apply obj_keys_set in Hin as [->|Hin]; done.
Qed.
Lemma obj_get_app (k : string) (o1 o2 : list (string * V)) :
  Obj.get k (o1 ++ o2) =
  match Obj.get k o1 with Some v => Some v | None => Obj.get k o2 end.
Proof.
  induction o1 as [|[k' v'] o1 IH]; simpl; [done |].
  by destruct (decide (k = k')).
Qed.

Lemma obj_keys_reverse (k : string) (o : list (string * V)) :
  k ∈ Obj.keys (reverse o) ↔ k ∈ Obj.keys o.
Proof. unfold Obj.keys. by rewrite fmap_reverse, elem_of_reverse. Qed.
End ObjFacts.

(** ** The merged view *)
Section MergeFacts.
Context {A V : Type}.

(** A loop of assignments [d[k] = f v] over the entries of a dictionary
    leaves, for each key, the value of its last entry. *)
Lemma assign_all_get (f : A → V) (l : list (string * A)) d0 name :
  Obj.get name (foldl (λ d '(k, v), Obj.set k (f v) d) d0 l) =
  match Obj.get name (reverse l) with
  | Some v => Some (f v)
  | None => Obj.get name d0
  end.
Proof.
  revert d0.
  induction l as [|[k v] l IH]; intros d0; cbn [foldl]; [done |].
  rewrite IH, reverse_cons, obj_get_app.
  destruct (Obj.get name (reverse l)); [done |]. simpl.
  destruct (decide (name = k)) as [->|Hne].
  - apply obj_get_set_eq.
  - by apply obj_get_set_ne.
Qed.

Lemma assign_all_NoDup (f : A → V) (l : list (string * A)) d0 :
  NoDup (Obj.keys d0) →
  NoDup (Obj.keys (foldl (λ d '(k, v), Obj.set k (f v) d) d0 l)).
Proof.
  revert d0.
  induction l as [|[k v] l IH]; intros d0 Hnd; simpl; [done |].
  by apply IH, obj_keys_set_NoDup.
Qed.
End MergeFacts.

Section MergeFacts2.
Context {GeoJson : Type}.
Implicit Types (staticDict hoverDict : list (string * GeoJson)).

Lemma merge_desired_get staticDict hoverDict name :
  Obj.get name (merge_desired staticDict hoverDict) =
  match Obj.get name (reverse hoverDict) with
  | Some v => Some {| geojson := v; hoverable := true |}
  | None =>
      match Obj.get name (reverse staticDict) with
      | Some v => Some {| geojson := v; hoverable := false |}
      | None => None
      end
  end.
Proof.
  unfold merge_desired, Obj.entries.
  rewrite (assign_all_get (λ v, {| geojson := v; hoverable := true |})).
  by rewrite (assign_all_get (λ v, {| geojson := v; hoverable := false |})).
Qed.

Lemma merge_desired_NoDup staticDict hoverDict :
  NoDup (Obj.keys (merge_desired staticDict hoverDict)).
Proof.
  unfold merge_desired, Obj.entries.
  apply (assign_all_NoDup (λ v, {| geojson := v; hoverable := true |})).
  apply (assign_all_NoDup (λ v, {| geojson := v; hoverable := false |})).
  apply NoDup_nil_2.
Qed.

Lemma merge_desired_keys staticDict hoverDict name :
  name ∈ Obj.keys (merge_desired staticDict hoverDict) ↔
  name ∈ Obj.keys staticDict ∨ name ∈ Obj.keys hoverDict.
Proof.
  rewrite <- (obj_keys_reverse name staticDict).
  rewrite <- (obj_keys_reverse name hoverDict).
  rewrite <- !obj_get_is_Some_keys, merge_desired_get.
  destruct (Obj.get name (reverse hoverDict)),
    (Obj.get name (reverse staticDict)); split; intros Hs; eauto;
    try (destruct Hs as [[? ?]|[? ?]]; done); destruct Hs; done.
Qed.

Lemma merge_desired_hover staticDict hoverDict name :
  name ∈ Obj.keys hoverDict →
  ∃ v, (name, v) ∈ hoverDict ∧
       Obj.get name (merge_desired staticDict hoverDict) =
       Some {| geojson := v; hoverable := true |}.
Proof.
  intros Hin. apply obj_keys_reverse, obj_get_is_Some_keys in Hin as [v Hv].
  exists v. split.
  - apply elem_of_reverse. by apply obj_get_Some_elem.
  - by rewrite merge_desired_get, Hv.
Qed.
End MergeFacts2.


(** ** Numbers and distances *)
Section NumFacts.

Lemma floor_div_near (t a b : Z) :
  (0 < t)%Z → (Z.abs (a - b) ≤ t)%Z →
  ∃ d, d ∈ [-1; 0; 1]%Z ∧ (b / t = a / t + d)%Z.
Proof.
  intros Ht Hab.
  pose proof (Z.div_mod a t ltac:(lia)) as Ha.
  pose proof (Z.div_mod b t ltac:(lia)) as Hb.
  pose proof (Z.mod_pos_bound a t Ht) as Hra.
  pose proof (Z.mod_pos_bound b t Ht) as Hrb.
  assert (-1 ≤ b / t - a / t ≤ 1)%Z as Hd by nia.
  exists (b / t - a / t)%Z. split; [| lia].
  assert (b / t - a / t = -1 ∨ b / t - a / t = 0 ∨ b / t - a / t = 1)%Z
    as [-> | [-> | ->]] by lia.
  - apply list_elem_of_here.
  - apply list_elem_of_further, list_elem_of_here.
  - do 2 apply list_elem_of_further. apply list_elem_of_here.
Qed.

Lemma sum_squares_bound (t u v : Z) :
  (0 ≤ t)%Z → (u * u + v * v ≤ t * t)%Z → (Z.abs u ≤ t ∧ Z.abs v ≤ t)%Z.
Proof. intros Ht H. split; nia. Qed.

Lemma root_lt_irrefl (r : root) : Num.root_lt r r = false.
Proof. destruct r; simpl; [apply Z.ltb_irrefl | done | done]. Qed.

Lemma root_lt_trans (r s u : root) :
  Num.root_lt r s = true → Num.root_lt s u = true → Num.root_lt r u = true.
Proof.
  destruct r, s, u; simpl; try done.
  rewrite !Z.ltb_lt. lia.
Qed.

End NumFacts.

Section DistanceFacts.
Context {Value LatLng : Type}.
Local Abbreviation Candidate := (@Candidate Value LatLng) (only parsing).
Implicit Types (p : Point) (c o : Candidate).

(** On finite coordinates the distance is the root of the sum of squares. *)
Lemma distance_finite p c a b a' b' :
  pt_x p = Fin a → pt_y p = Fin b → cand_x c = Fin a' → cand_y c = Fin b' →
  distance p c = Sqrt ((a - a') * (a - a') + (b - b') * (b - b')).
Proof.
  intros Hx Hy Hx' Hy'. unfold distance. rewrite Hx, Hy, Hx', Hy'. simpl.
  replace (a + - a')%Z with (a - a')%Z by lia.
  replace (b + - b')%Z with (b - b')%Z by lia.
  destruct (Z.ltb_spec ((a - a') * (a - a') + (b - b') * (b - b')) 0);
    [| done].
  pose proof (Z.square_nonneg (a - a')).
  pose proof (Z.square_nonneg (b - b')). lia.
Qed.

(** A distance within a finite threshold is a distance between two finite
    points. *)
Lemma distance_within p c t :
  Num.root_le_num (distance p c) (Fin t) = true →
  ∃ a b a' b',
    pt_x p = Fin a ∧ pt_y p = Fin b ∧ cand_x c = Fin a' ∧ cand_y c = Fin b' ∧
    (0 ≤ t)%Z ∧
    ((a - a') * (a - a') + (b - b') * (b - b') ≤ t * t)%Z.
Proof.
  intros Hle.
  destruct (pt_x p) as [a| | |] eqn:Hx, (pt_y p) as [b| | |] eqn:Hy,
    (cand_x c) as [a'| | |] eqn:Hx', (cand_y c) as [b'| | |] eqn:Hy';
    try (unfold distance in Hle; rewrite Hx, Hy, Hx', Hy' in Hle;
         simpl in Hle;
         repeat match type of Hle with
                | context [match ?z with _ => _ end] => destruct z
                end; simpl in Hle; discriminate).
  rewrite (distance_finite p c a b a' b') in Hle by done.
  simpl in Hle. apply andb_true_iff in Hle as [H0 Hs].
  apply Z.leb_le in H0, Hs. eauto 10.
Qed.

End DistanceFacts.

(** ** The hover index *)
Section IndexFacts.
Context `{!Host GeoJson Value LatLng}.
Local Abbreviation State := (@State GeoJson Value LatLng) (only parsing).
Local Abbreviation Candidate := (@Candidate Value LatLng) (only parsing).
Local Abbreviation Sublayer := (@Sublayer Value LatLng) (only parsing).
Local Abbreviation Layer := (@Layer Value LatLng) (only parsing).
Implicit Types (st : State) (p : Point) (c o : Candidate)
  (idx : gmap string (list Candidate)).

(** *** Cells *)

Lemma cell_near st p c t :
  gridCell st = Fin t →
  Num.root_le_num (distance p c) (Fin t) = true →
  ∃ dx dy,
    dx ∈ [-1; 0; 1]%Z ∧ dy ∈ [-1; 0; 1]%Z ∧
    cx (_cellKeyFromPoint st (cand_point c)) =
      Num.add (cx (_cellKeyFromPoint st p)) (Fin dx) ∧
    cy (_cellKeyFromPoint st (cand_point c)) =
      Num.add (cy (_cellKeyFromPoint st p)) (Fin dy).
Proof.
  intros Hg Hle.
  apply distance_within in Hle
    as (a & b & a' & b' & Hx & Hy & Hx' & Hy' & Ht & Hs).
  unfold _cellKeyFromPoint, cand_point. simpl.
  rewrite Hg, Hx, Hy, Hx', Hy'.
  destruct (sum_squares_bound t (a - a') (b - b') Ht Hs) as [Ha Hb].
  destruct (decide (t = 0%Z)) as [->|Hne].
  - assert (a' = a) as -> by lia. assert (b' = b) as -> by lia.
    exists 0%Z, 0%Z.
    split; [apply list_elem_of_further, list_elem_of_here |].
    split; [apply list_elem_of_further, list_elem_of_here |].
    simpl. split.
    + destruct (a =? 0)%Z; [done |]. by destruct (0 <? a)%Z.
    + destruct (b =? 0)%Z; [done |]. by destruct (0 <? b)%Z.
  - destruct (floor_div_near t a a' ltac:(lia) Ha) as (dx & Hdx & Hqx).
    destruct (floor_div_near t b b' ltac:(lia) Hb) as (dy & Hdy & Hqy).
    exists dx, dy. split; [done |]. split; [done |].
    simpl. destruct (Z.eqb_spec t 0) as [|_]; [done |].
    simpl. by rewrite Hqx, Hqy.
Qed.

(** *** The rebuilt index *)

Lemma in_index_push idx k o c :
  let idx1 := match idx !! k with
              | Some _ => idx
              | None => <[k := []]> idx
              end in
  in_index (<[k := default [] (idx1 !! k) ++ [o]]> idx1) c ↔
  in_index idx c ∨ c = o.
Proof.
  cbn zeta. unfold in_index. split.
  - intros (k' & arr & Hl & Hin).
    destruct (decide (k = k')) as [<-|Hne].
    + rewrite lookup_insert_eq in Hl. injection Hl as <-.
      apply elem_of_app in Hin as [Hin|Hin].
      * left. destruct (idx !! k) as [arr|] eqn:Hk.
        -- rewrite Hk in Hin. eauto.
        -- rewrite lookup_insert_eq in Hin. by apply elem_of_nil in Hin.
      * right. by apply list_elem_of_singleton in Hin.
    + rewrite lookup_insert_ne in Hl by done. left.
      destruct (idx !! k) eqn:Hk; [by eauto |].
      rewrite lookup_insert_ne in Hl by done. eauto.
  - intros [(k' & arr & Hl & Hin)| ->].
    + destruct (decide (k = k')) as [<-|Hne].
      * eexists k, _. rewrite lookup_insert_eq. split; [done |].
        apply elem_of_app. left. by rewrite Hl, Hl.
      * exists k', arr. rewrite lookup_insert_ne by done. split; [| done].
        destruct (idx !! k); [done |]. by rewrite lookup_insert_ne.
    + eexists k, _. rewrite lookup_insert_eq. split; [done |].
      apply elem_of_app. right. apply list_elem_of_here.
Qed.

Lemma index_sublayer_spec st idx b sub c :
  in_index (index_sublayer st (idx, b) sub).1 c ↔
  in_index idx c ∨ candidate_of st sub = Some c.
Proof.
  unfold index_sublayer, candidate_of.
  destruct (getLatLng sub) as [ll|]; simpl; [| split; [by left |]].
  2: { intros [?|?]; done. }
  destruct (Num.isFinite (pt_x (latLngToContainerPoint (lmap st) ll))),
    (Num.isFinite (pt_y (latLngToContainerPoint (lmap st) ll))); simpl.
  2-4: split; [by left | intros [?|?]; done].
  rewrite in_index_push. split.
  - intros [? | ->]; eauto.
  - intros [?|Heq]; [by left |]. right. by injection Heq as <-.
Qed.

Lemma in_bucket_push idx k o k' arr c :
  let idx1 := match idx !! k with
              | Some _ => idx
              | None => <[k := []]> idx
              end in
  <[k := default [] (idx1 !! k) ++ [o]]> idx1 !! k' = Some arr → c ∈ arr →
  (∃ arr0, idx !! k' = Some arr0 ∧ c ∈ arr0) ∨ (k' = k ∧ c = o).
Proof.
  cbn zeta. intros Hl Hin. destruct (decide (k = k')) as [<-|Hne].
  - rewrite lookup_insert_eq in Hl. injection Hl as <-.
    apply elem_of_app in Hin as [Hin|Hin].
    + left. destruct (idx !! k) as [arr|] eqn:Hk.
      * rewrite Hk in Hin. eauto.
      * rewrite lookup_insert_eq in Hin. by apply elem_of_nil in Hin.
    + right. by apply list_elem_of_singleton in Hin.
  - rewrite lookup_insert_ne in Hl by done. left.
    destruct (idx !! k) eqn:Hk; [by eauto |].
    rewrite lookup_insert_ne in Hl by done. eauto.
Qed.

Lemma index_sublayer_filed st idx b sub :
  index_filed st idx → index_filed st (index_sublayer st (idx, b) sub).1.
Proof.
  intros Hf k arr c. unfold index_sublayer.
  destruct (getLatLng sub) as [ll|]; simpl; [| apply Hf].
  destruct (Num.isFinite (pt_x (latLngToContainerPoint (lmap st) ll)))
    eqn:Hfx; simpl; [| apply Hf].
  destruct (Num.isFinite (pt_y (latLngToContainerPoint (lmap st) ll)))
    eqn:Hfy; simpl; [| apply Hf].
  intros Hl Hin.
  destruct (in_bucket_push _ _ _ _ _ _ Hl Hin)
    as [(arr0 & Hl0 & Hin0)|[-> ->]].
  - by apply (Hf k arr0).
  - simpl. split; [done |]. split; [done |].
    unfold cand_point. simpl.
    by destruct (latLngToContainerPoint (lmap st) ll).
Qed.
End IndexFacts.
Section QueryFacts.
Context `{!Host GeoJson Value LatLng}.
Local Abbreviation State := (@State GeoJson Value LatLng) (only parsing).
Local Abbreviation Candidate := (@Candidate Value LatLng) (only parsing).
Local Abbreviation Sublayer := (@Sublayer Value LatLng) (only parsing).
Local Abbreviation Layer := (@Layer Value LatLng) (only parsing).
Implicit Types (st : State) (p : Point) (c o : Candidate)
  (idx : gmap string (list Candidate)).

Lemma index_sublayers_spec st (subs : list Sublayer) idx b c :
  in_index (foldl (index_sublayer st) (idx, b) subs).1 c ↔
  in_index idx c ∨ ∃ sub, sub ∈ subs ∧ candidate_of st sub = Some c.
Proof.
  revert idx b. induction subs as [|sub subs IH]; intros idx b; cbn [foldl].
  - split; [by left |]. intros [?|(sub & Hin & _)]; [done |].
    by apply elem_of_nil in Hin.
  - pose proof (index_sublayer_spec st idx b sub c) as Hs.
    destruct (index_sublayer st (idx, b) sub) as [idx' b'].
    rewrite IH, Hs. simpl. split.
    + intros [[?|?]|(s & Hin & Hc)]; [by left | |].
      * right. exists sub. split; [apply list_elem_of_here | done].
      * right. exists s. split; [by apply list_elem_of_further | done].
    + intros [?|(s & Hin & Hc)]; [by left; left |].
      apply elem_of_cons in Hin as [->|Hin]; [by left; right |].
      right. eauto.
Qed.

Lemma index_sublayers_filed st (subs : list Sublayer) idx b :
  index_filed st idx →
  index_filed st (foldl (index_sublayer st) (idx, b) subs).1.
Proof.
  revert idx b. induction subs as [|sub subs IH]; intros idx b Hf;
    cbn [foldl]; [done |].
  pose proof (index_sublayer_filed st idx b sub Hf) as Hs.
  destruct (index_sublayer st (idx, b) sub) as [idx' b']. by apply IH.
Qed.

Lemma index_layer_spec st idx b nm (lyr : Layer) c :
  in_index (index_layer st (idx, b) (nm, lyr)).1 c ↔
  in_index idx c ∨
  (Obj.get nm (geojsonHoverable st) = Some true ∧
   hasLayer (lmap st) (layer_id lyr) = true ∧
   ∃ sub, sub ∈ eachLayer lyr ∧ candidate_of st sub = Some c).
Proof.
  unfold index_layer.
  destruct (Obj.get nm (geojsonHoverable st)) as [[|]|]; simpl.
  2,3: split; [by left | intros [?|[? _]]; done].
  destruct (hasLayer (lmap st) (layer_id lyr)); simpl.
  - rewrite index_sublayers_spec. split; intros [?|?]; eauto.
    right. tauto.
  - split; [by left | intros [?|(_ & ? & _)]; done].
Qed.

Lemma index_layer_filed st idx b (e : string * Layer) :
  index_filed st idx → index_filed st (index_layer st (idx, b) e).1.
Proof.
  intros Hf. destruct e as [nm lyr]. unfold index_layer.
  destruct (Obj.get nm (geojsonHoverable st)) as [[|]|]; simpl; try done.
  destruct (hasLayer (lmap st) (layer_id lyr)); simpl; [| done].
  by apply index_sublayers_filed.
Qed.

(** The candidates of a rebuilt index are those of the points, with a finite
    pixel position, of the hoverable layers that are on the map. *)
Lemma build_index_spec st c :
  in_index (build_index st).1 c ↔
  ∃ nm lyr sub,
    (nm, lyr) ∈ Obj.entries (layers st) ∧
    Obj.get nm (geojsonHoverable st) = Some true ∧
    hasLayer (lmap st) (layer_id lyr) = true ∧
    sub ∈ eachLayer lyr ∧ candidate_of st sub = Some c.
Proof.
  unfold build_index.
  generalize ({| minX := PInf; maxX := NInf; minY := PInf; maxY := NInf |}).
  assert (∀ (es : list (string * Layer)) idx b,
            in_index (foldl (index_layer st) (idx, b) es).1 c ↔
            in_index idx c ∨
            ∃ nm lyr sub,
              (nm, lyr) ∈ es ∧
              Obj.get nm (geojsonHoverable st) = Some true ∧
              hasLayer (lmap st) (layer_id lyr) = true ∧
              sub ∈ eachLayer lyr ∧ candidate_of st sub = Some c) as Hgen.
  { induction es as [|[nm lyr] es IH]; intros idx b; cbn [foldl].
    - split; [by left |]. intros [?|(nm & lyr & sub & Hin & _)]; [done |].
      by apply elem_of_nil in Hin.
    - pose proof (index_layer_spec st idx b nm lyr c) as Hs.
      destruct (index_layer st (idx, b) (nm, lyr)) as [idx' b'].
      rewrite IH, Hs. simpl. split.
      + intros [[?|(Hh & Hm & sub & Hin & Hc)]
               |(nm' & lyr' & sub & Hin & Hrest)]; [by left | |].
        * right. exists nm, lyr, sub.
          split; [apply list_elem_of_here | done].
        * right. exists nm', lyr', sub.
          split; [by apply list_elem_of_further | done].
      + intros [?|(nm' & lyr' & sub & Hin & Hh & Hm & Hs' & Hc)];
          [by left; left |].
        apply elem_of_cons in Hin as [[= -> ->]|Hin].
        * left. right. eauto.
        * right. exists nm', lyr', sub. done. }
  intros b. rewrite Hgen. split; [| by right].
  intros [(k & arr & Hl & _)|?]; [| done].
  by rewrite lookup_empty in Hl.
Qed.

Lemma build_index_filed st : index_filed st (build_index st).1.
Proof.
  unfold build_index.
  generalize ({| minX := PInf; maxX := NInf; minY := PInf; maxY := NInf |}).
  assert (index_filed st ∅) as H0.
  { intros k arr c Hl. by rewrite lookup_empty in Hl. }
  revert H0. generalize (∅ : gmap string (list Candidate)).
  generalize (Obj.entries (layers st)).
  induction l as [|e es IH]; intros idx Hf b; cbn [foldl]; [done |].
  pose proof (index_layer_filed st idx b e Hf) as Hs.
  destruct (index_layer st (idx, b) e) as [idx' b']. by apply IH.
Qed.

(** *** The search *)

Lemma scan_cell_bucket idx p (cell : Cell) dy acc dx :
  scan_cell idx p cell dy acc dx =
  scan_candidates p acc
    (default []
       (idx !! (Num.toString (Num.add (cx cell) (Fin dx)) +:+ ":" +:+
                Num.toString (Num.add (cy cell) (Fin dy))))).
Proof. unfold scan_cell. by destruct (idx !! _). Qed.

Lemma scan_candidates_app p acc (l1 l2 : list Candidate) :
  scan_candidates p acc (l1 ++ l2) =
  scan_candidates p (scan_candidates p acc l1) l2.
Proof. unfold scan_candidates. apply foldl_app. Qed.

Lemma nearest_visited st idx p :
  nearest st idx p = scan_candidates p (None, RInf) (visited st idx p).
Proof.
  unfold nearest, visited, neighbourhood. cbn [foldl flat_map map app].
  rewrite !scan_cell_bucket, !scan_candidates_app. reflexivity.
Qed.

(** The loop over candidates keeps the first candidate of least distance
    among those seen. *)
Lemma scan_candidates_spec p (seen arr : list Candidate) acc :
  (match acc.1 with
   | None => acc.2 = RInf
   | Some b => b ∈ seen ∧ acc.2 = distance p b
   end ∧
   ∀ c, c ∈ seen → Num.root_lt (distance p c) acc.2 = false) →
  let acc' := scan_candidates p acc arr in
  match acc'.1 with
  | None => acc'.2 = RInf
  | Some b => b ∈ seen ++ arr ∧ acc'.2 = distance p b
  end ∧
  ∀ c, c ∈ seen ++ arr → Num.root_lt (distance p c) acc'.2 = false.
Proof.
  revert seen acc. induction arr as [|o arr IH]; intros seen acc Hacc.
  { cbn zeta. unfold scan_candidates. cbn [foldl]. by rewrite app_nil_r. }
  cbn zeta. change (o :: arr) with ([o] ++ arr).
  rewrite scan_candidates_app, app_assoc. apply IH. clear IH.
  destruct acc as [best bestDist]. destruct Hacc as [Hb Hall].
  unfold scan_candidates. cbn [foldl]. simpl in *.
  destruct (Num.root_lt (distance p o) bestDist) eqn:Hlt; simpl.
  - split.
    + split; [| done]. apply elem_of_app. right. apply list_elem_of_here.
    + intros c Hc. apply elem_of_app in Hc as [Hc|Hc].
      * destruct (Num.root_lt (distance p c) (distance p o)) eqn:Hco;
          [| done].
        rewrite <- (Hall c Hc). symmetry.
        by apply (root_lt_trans _ (distance p o)).
      * apply list_elem_of_singleton in Hc as ->. apply root_lt_irrefl.
  - split.
    + destruct best as [b|]; [| done]. destruct Hb as [Hb ->].
      split; [| done]. apply elem_of_app. by left.
    + intros c Hc. apply elem_of_app in Hc as [Hc|Hc]; [by apply Hall |].
      by apply list_elem_of_singleton in Hc as ->.
Qed.

Lemma nearest_spec st idx p :
  match (nearest st idx p).1 with
  | None => (nearest st idx p).2 = RInf
  | Some b => b ∈ visited st idx p ∧ (nearest st idx p).2 = distance p b
  end ∧
  ∀ c, c ∈ visited st idx p →
       Num.root_lt (distance p c) (nearest st idx p).2 = false.
Proof.
  rewrite nearest_visited.
  apply (scan_candidates_spec p [] (visited st idx p) (None, RInf)).
  split; [done |]. intros c Hc. by apply elem_of_nil in Hc.
Qed.

Lemma visited_in_index st idx p c : c ∈ visited st idx p → in_index idx c.
Proof.
  unfold visited. intros Hc. apply list_elem_of_In, in_flat_map in Hc
    as (k & _ & Hc). apply list_elem_of_In in Hc.
  destruct (idx !! k) as [arr|] eqn:Hk; [| by apply elem_of_nil in Hc].
  by exists k, arr.
Qed.

(** With a cell as large as the threshold, the search looks at every
    candidate of the index that is within the threshold. *)
Lemma within_visited st idx p c t :
  gridCell st = Fin t → index_filed st idx → in_index idx c →
  Num.root_le_num (distance p c) (Fin t) = true →
  c ∈ visited st idx p.
Proof.
  intros Hg Hf (k & arr & Hl & Hin) Hle.
  destruct (Hf k arr c Hl Hin) as (_ & _ & Hk).
  destruct (cell_near st p c t Hg Hle) as (dx & dy & Hdx & Hdy & Hcx & Hcy).
  unfold visited. apply list_elem_of_In, in_flat_map.
  exists k. split; [| apply list_elem_of_In; by rewrite Hl].
  apply list_elem_of_In. unfold neighbourhood.
  apply list_elem_of_In, in_flat_map. exists dy.
  split; [by apply list_elem_of_In |].
  apply list_elem_of_In, list_elem_of_fmap. exists dx. split; [| done].
  rewrite <- Hk. unfold _cellKeyFromPoint at 1. cbn [key].
  unfold _cellKeyFromPoint in Hcx, Hcy. cbn [cx cy] in Hcx, Hcy.
  by rewrite Hcx, Hcy.
Qed.

(** The search is correct on an index in which every candidate is filed
    under its cell, when the cell size is the (finite) threshold. *)
Lemma queryNearest_filed st idx p t :
  gridCell st = Fin t → hoverThresholdPx st = Fin t → index_filed st idx →
  match queryNearest st idx p with
  | Some b =>
      in_index idx b ∧
      Num.root_le_num (distance p b) (hoverThresholdPx st) = true ∧
      ∀ c, in_index idx c →
           Num.root_le (distance p b) (distance p c) = true
  | None =>
      ∀ c, in_index idx c →
           Num.root_le_num (distance p c) (hoverThresholdPx st) = false
  end.
Proof.
  intros Hg Ht Hf. unfold queryNearest.
  destruct (nearest_spec st idx p) as [Hbest Hall].
  destruct (nearest st idx p) as [[b|] d]; simpl in *.
  - destruct Hbest as [Hb ->]. rewrite Ht.
    destruct (Num.root_le_num (distance p b) (Fin t)) eqn:Hle.
    + split; [by eapply visited_in_index |]. split; [done |].
      intros c Hc.
      apply distance_within in Hle
        as (a & a2 & a' & a2' & Hx & Hy & Hx' & Hy' & H0 & Hs).
      destruct Hc as (k & arr & Hl & Hin).
      destruct (Hf k arr c Hl Hin) as (Hfx & Hfy & _).
      destruct (cand_x c) as [u| | |] eqn:Hu; try done.
      destruct (cand_y c) as [v| | |] eqn:Hv; try done.
      rewrite (distance_finite p b a a2 a' a2') by done.
      rewrite (distance_finite p c a a2 u v) by done. simpl.
      apply Z.leb_le.
      destruct (Num.root_le_num (distance p c) (Fin t)) eqn:Hc.
      * assert (c ∈ visited st idx p) as Hv'.
        { apply (within_visited st idx p c t); try done. by exists k, arr. }
        specialize (Hall c Hv').
        rewrite (distance_finite p b a a2 a' a2') in Hall by done.
        rewrite (distance_finite p c a a2 u v) in Hall by done.
        simpl in Hall. apply Z.ltb_ge in Hall. lia.
      * rewrite (distance_finite p c a a2 u v) in Hc by done.
        simpl in Hc. apply andb_false_iff in Hc as [Hc|Hc].
        -- apply Z.leb_gt in Hc. lia.
        -- apply Z.leb_gt in Hc. lia.
    + intros c Hc.
      destruct (Num.root_le_num (distance p c) (Fin t)) eqn:Hcle; [| done].
      exfalso.
      assert (c ∈ visited st idx p) as Hv
        by by apply (within_visited st idx p c t).
      specialize (Hall c Hv).
      apply distance_within in Hcle
        as (a & a2 & u & v & Hx & Hy & Hu & Hv' & H0 & Hs).
      destruct (visited_in_index _ _ _ _ Hb) as (k & arr & Hl & Hin).
      destruct (Hf k arr b Hl Hin) as (Hfx & Hfy & _).
      destruct (cand_x b) as [a'| | |] eqn:Hbx; try done.
      destruct (cand_y b) as [a2'| | |] eqn:Hby; try done.
      rewrite (distance_finite p b a a2 a' a2') in Hall, Hle by done.
      rewrite (distance_finite p c a a2 u v) in Hall by done.
      simpl in Hall, Hle. apply Z.ltb_ge in Hall.
      apply andb_false_iff in Hle as [Hle|Hle]; apply Z.leb_gt in Hle; lia.
  - intros c Hc. rewrite Ht. subst d.
    destruct (Num.root_le_num (distance p c) (Fin t)) eqn:Hcle; [| done].
    exfalso.
    assert (c ∈ visited st idx p) as Hv
      by by apply (within_visited st idx p c t).
    specialize (Hall c Hv).
    apply distance_within in Hcle
      as (a & a2 & u & v & Hx & Hy & Hu & Hv' & H0 & Hs).
    rewrite (distance_finite p c a a2 u v) in Hall by done.
    done.
Qed.
End QueryFacts.


(** ** The reconciler *)

(** *** The Leaflet objects *)
Section LeafletFacts.
Context {LatLng : Type}.
Implicit Types (m : @LMap LatLng) (id j : nat) (c : list (nat * string)).

Lemma hasLayer_true m id : hasLayer m id = true ↔ id ∈ map_layers m.
Proof. unfold hasLayer. apply bool_decide_eq_true. Qed.

Lemma hasLayer_false m id : hasLayer m id = false ↔ id ∉ map_layers m.
Proof. unfold hasLayer. apply bool_decide_eq_false. Qed.

Lemma elem_of_addLayer m j id :
  id ∈ map_layers (addLayer m j) ↔ id ∈ map_layers m ∨ id = j.
Proof.
  unfold addLayer. destruct (hasLayer m j) eqn:Hh; simpl.
  - apply hasLayer_true in Hh. split; [by left | intros [?| ->]; done].
  - rewrite elem_of_app, list_elem_of_singleton. done.
Qed.

Lemma elem_of_removeLayer m j id :
  id ∈ map_layers (removeLayer m j) ↔ id ∈ map_layers m ∧ id ≠ j.
Proof. unfold removeLayer. simpl. rewrite list_elem_of_filter. tauto. Qed.

Lemma addLayer_project m j :
  latLngToContainerPoint (addLayer m j) = latLngToContainerPoint m.
Proof. unfold addLayer. by destruct (hasLayer m j). Qed.

Lemma elem_of_control_removeLayer c j id nm :
  (id, nm) ∈ control_removeLayer c j ↔ (id, nm) ∈ c ∧ id ≠ j.
Proof. unfold control_removeLayer. rewrite list_elem_of_filter. simpl. tauto. Qed.

Lemma elem_of_addOverlay c j k id nm :
  (id, nm) ∈ addOverlay c j k ↔ (id, nm) ∈ c ∨ (id = j ∧ nm = k).
Proof.
  unfold addOverlay. rewrite elem_of_app, list_elem_of_singleton.
  split; intros [?|Heq]; auto; right.
  - by injection Heq.
  - destruct Heq as [-> ->]. done.
Qed.

Lemma listed_elem c id : id ∈ c.*1 ↔ ∃ nm, (id, nm) ∈ c.
Proof.
  rewrite list_elem_of_fmap. split.
  - intros ([i nm] & -> & Hin). by exists nm.
  - intros [nm Hin]. by exists (id, nm).
Qed.
End LeafletFacts.

(** *** Names, entries and effects *)
Section EntryFacts.
Context `{!Host GeoJson Value LatLng}.
Local Abbreviation State := (@State GeoJson Value LatLng) (only parsing).
Local Abbreviation Entry := (@Entry GeoJson) (only parsing).
Local Abbreviation Data := (@Data GeoJson) (only parsing).
Local Abbreviation Layer := (@Layer Value LatLng) (only parsing).
Local Abbreviation Effect := (@Effect GeoJson Value) (only parsing).
Implicit Types (st s r : State) (name n k : string) (entry e : Entry)
  (data : Data) (lyr old : Layer) (id : nat).

Lemma elem_of_names {V} (o : list (string * V)) n :
  n ∈ names o ↔ n ∈ Obj.keys o.
Proof. unfold names. apply elem_of_list_to_set. Qed.

Lemma elem_of_names_get {V} (o : list (string * V)) n :
  n ∈ names o ↔ is_Some (Obj.get n o).
Proof. by rewrite elem_of_names, obj_get_is_Some_keys. Qed.

Lemma desired_names data : names (desired_of data) = snapshot_names data.
Proof.
  apply set_eq. intros n. unfold snapshot_names, desired_of.
  rewrite elem_of_union, !elem_of_names. apply merge_desired_keys.
Qed.

Lemma desired_NoDup data : NoDup (Obj.keys (desired_of data)).
Proof. apply merge_desired_NoDup. Qed.

Lemma desired_elem data n entry :
  (n, entry) ∈ desired_of data ↔ Obj.get n (desired_of data) = Some entry.
Proof.
  split.
  - apply obj_get_NoDup, desired_NoDup.
  - apply obj_get_Some_elem.
Qed.

Lemma needsCreate_false st name entry :
  needsCreate st name entry = false ↔
  name ∈ Obj.keys (layers st) ∧
  Obj.get name (geojsonData st) = Some (JSON_stringify (geojson entry)) ∧
  Obj.get name (geojsonHoverable st) = Some (hoverable entry).
Proof.
  unfold needsCreate. rewrite !orb_false_iff, !negb_false_iff.
  rewrite !bool_decide_eq_true, obj_has_keys. tauto.
Qed.

Lemma needsCreate_ext st st' name entry :
  Obj.get name (layers st) = Obj.get name (layers st') →
  Obj.get name (geojsonData st) = Obj.get name (geojsonData st') →
  Obj.get name (geojsonHoverable st) = Obj.get name (geojsonHoverable st') →
  needsCreate st name entry = needsCreate st' name entry.
Proof.
  unfold needsCreate, Obj.has. by intros -> -> ->.
Qed.

Lemma same_entries_refl s n : same_entries s s n.
Proof. done. Qed.

Lemma same_entries_trans s s1 s2 n :
  same_entries s s1 n → same_entries s1 s2 n → same_entries s s2 n.
Proof.
  intros (H1 & H2 & H3) (H4 & H5 & H6). unfold same_entries.
  by rewrite H4, H5, H6.
Qed.

Lemma same_entries_needsCreate s s' n entry :
  same_entries s s' n → needsCreate s' n entry = needsCreate s n entry.
Proof. intros (H1 & H2 & H3). by apply needsCreate_ext. Qed.

Lemma same_entries_stale data s s' n :
  same_entries s s' n → stale data s' n = stale data s n.
Proof.
  intros Hs. unfold stale. destruct (Obj.get n (desired_of data)).
  - by apply same_entries_needsCreate.
  - destruct Hs as (H1 & _). unfold Obj.has. by rewrite H1.
Qed.

Lemma stale_desired data s n entry :
  Obj.get n (desired_of data) = Some entry →
  stale data s n = needsCreate s n entry.
Proof. unfold stale. by intros ->. Qed.

Lemma stale_undesired data s n :
  Obj.get n (desired_of data) = None →
  stale data s n = Obj.has n (layers s).
Proof. unfold stale. by intros ->. Qed.

Lemma recreated_fresh data s s' n entry :
  recreated data s s' n → Obj.get n (desired_of data) = Some entry →
  needsCreate s' n entry = false.
Proof.
  intros (e & id & He & _ & _ & _ & Hl & Hd & Hh & _) Hg.
  assert (e = entry) as -> by congruence.
  apply needsCreate_false. split; [| done].
  apply obj_get_is_Some_keys. by rewrite Hl.
Qed.

Lemma recreated_not_stale data s s' n :
  recreated data s s' n → stale data s' n = false.
Proof.
  intros Hr. pose proof Hr as (e & id & He & _).
  rewrite (stale_desired _ _ _ e He). by apply (recreated_fresh data s).
Qed.

Lemma removed_not_stale data s s' n :
  removed data s s' n → stale data s' n = false.
Proof.
  intros (Hd & _ & Hl & _). rewrite stale_undesired by done.
  unfold Obj.has. by rewrite Hl.
Qed.

(** The effects *)

Lemma effects_refl s : effects s s = [].
Proof. unfold effects. apply drop_all. Qed.

Lemma effects_app_trace s s' l : trace s' = trace s ++ l → effects s s' = l.
Proof. intros Ht. unfold effects. by rewrite Ht, drop_app_length. Qed.

Lemma effects_trans s s1 s2 :
  trace s1 = trace s ++ effects s s1 →
  trace s2 = trace s1 ++ effects s1 s2 →
  effects s s2 = effects s s1 ++ effects s1 s2.
Proof.
  intros H1 H2. apply effects_app_trace. rewrite H2. rewrite H1 at 1.
  by rewrite <- app_assoc.
Qed.
End EntryFacts.

(** *** Work of a pass: the algebra *)
Section PassWork.
Context `{!Host GeoJson Value LatLng}.
Local Abbreviation State := (@State GeoJson Value LatLng) (only parsing).
Local Abbreviation Entry := (@Entry GeoJson) (only parsing).
Local Abbreviation Data := (@Data GeoJson) (only parsing).
Local Abbreviation Layer := (@Layer Value LatLng) (only parsing).
Local Abbreviation Effect := (@Effect GeoJson Value) (only parsing).
Implicit Types (st s r : State) (name n k nm : string) (entry e : Entry)
  (data : Data) (lyr old : Layer) (id : nat).

(** A name is untouched, re-created or removed. *)
Local Abbreviation entry_work data s s' n :=
  (same_entries s s' n ∨ recreated data s s' n ∨ removed data s s' n).

Lemma entry_work_trans data s s1 s2 n :
  (next_id s ≤ next_id s1)%nat → (next_id s1 ≤ next_id s2)%nat →
  effects s s2 = effects s s1 ++ effects s1 s2 →
  entry_work data s s1 n → entry_work data s1 s2 n → entry_work data s s2 n.
Proof.
  intros Hn1 Hn2 Heff H1 H2.
  destruct H1 as [Hs1|[Hr1|Hd1]], H2 as [Hs2|[Hr2|Hd2]].
  - left. by apply (same_entries_trans s s1 s2).
  - right. left.
    destruct Hr2 as (e & id & He & Hnc & Hle & Hlt & Hl & Hd & Hh & id' & Hin).
    exists e, id. rewrite <- (same_entries_needsCreate s s1 n e Hs1).
    repeat split; try done; [lia |].
    exists id'. rewrite Heff. apply elem_of_app. by right.
  - right. right.
    destruct Hd2 as (Hu & (lyr & Hg & Hin) & Hl & Hd & Hh).
    split; [done |]. split; [| done].
    exists lyr. destruct Hs1 as (Hs1 & _). rewrite <- Hs1. split; [done |].
    rewrite Heff. apply elem_of_app. by right.
  - right. left.
    destruct Hr1 as (e & id & He & Hnc & Hle & Hlt & Hl & Hd & Hh & id' & Hin).
    destruct Hs2 as (Hl2 & Hd2 & Hh2).
    exists e, id. rewrite Hl2, Hd2, Hh2.
    repeat split; try done; [lia |].
    exists id'. rewrite Heff. apply elem_of_app. by left.
  - right. left.
    destruct Hr1 as (e & id & He & Hnc & Hle & Hlt & _ & _ & _ & id' & Hin).
    destruct Hr2 as (e2 & id2 & He2 & Hnc2 & Hle2 & Hlt2 & Hl & Hd & Hh & _).
    assert (e2 = e) as -> by congruence.
    exists e, id2. repeat split; try done; [lia |].
    exists id'. rewrite Heff. apply elem_of_app. by left.
  - destruct Hr1 as (e & id & He & _). destruct Hd2 as (Hu & _). congruence.
  - right. right.
    destruct Hd1 as (Hu & (lyr & Hg & Hin) & Hl & Hd & Hh).
    destruct Hs2 as (Hl2 & Hd2 & Hh2). rewrite <- Hl2, <- Hd2, <- Hh2 in *.
    split; [done |]. split; [| done].
    exists lyr. split; [done |]. rewrite Heff. apply elem_of_app. by left.
  - destruct Hr2 as (e & id & He & _). destruct Hd1 as (Hu & _). congruence.
  - destruct Hd1 as (_ & _ & Hl & _). destruct Hd2 as (_ & (lyr & Hg & _) & _).
    congruence.
Qed.

(** A name that is not stale is untouched by a pass, and stays so. *)
Lemma pass_work_settled data s s' n :
  pass_work data s s' → stale data s n = false → same_entries s s' n.
Proof.
  intros W Hst. destruct (pw_entries _ _ _ W n) as [?|[Hr|Hd]]; [done | |].
  - destruct Hr as (e & id & He & Hnc & _).
    rewrite (stale_desired _ _ _ e He) in Hst. congruence.
  - destruct Hd as (Hu & (lyr & Hg & _) & _).
    rewrite (stale_undesired _ _ _ Hu) in Hst. unfold Obj.has in Hst.
    by rewrite Hg in Hst.
Qed.

Lemma pass_work_fresh data s s' n :
  pass_work data s s' → stale data s n = false → stale data s' n = false.
Proof.
  intros W Hst. rewrite (same_entries_stale data s s' n); [done |].
  by apply (pass_work_settled data).
Qed.

(** A stale name that is still stale has not been touched. *)
Lemma pass_work_pending data s s' n :
  pass_work data s s' → stale data s' n = true → same_entries s s' n.
Proof.
  intros W Hst. destruct (pw_entries _ _ _ W n) as [?|[Hr|Hd]]; [done | |].
  - apply recreated_not_stale in Hr. congruence.
  - apply removed_not_stale in Hd. congruence.
Qed.

Lemma pass_work_effects data s s1 s2 :
  pass_work data s s1 → pass_work data s1 s2 →
  effects s s2 = effects s s1 ++ effects s1 s2.
Proof. intros W1 W2. apply effects_trans; by eapply pw_trace. Qed.

(** The layer of a name in a later state was stored before under the same
    name, or has been allocated since. *)
Lemma pass_work_stored data s s' n lyr :
  pass_work data s s' → Obj.get n (layers s') = Some lyr →
  (Obj.get n (layers s) = Some lyr ∧ same_entries s s' n) ∨
  ((next_id s ≤ layer_id lyr)%nat ∧ recreated data s s' n).
Proof.
  intros W Hg. destruct (pw_entries _ _ _ W n) as [Hs|[Hr|Hd]].
  - left. split; [| done]. destruct Hs as (Hs & _). by rewrite <- Hs.
  - right. split; [| done].
    destruct Hr as (e & id & _ & _ & Hle & _ & Hl & _).
    rewrite Hl in Hg. by injection Hg as <-.
  - destruct Hd as (_ & _ & Hl & _). congruence.
Qed.

Lemma pass_work_refl data s : pass_work data s s.
Proof.
  split; try done.
  - by rewrite effects_refl, app_nil_r.
  - intros n gj id Hin. rewrite effects_refl in Hin. by apply elem_of_nil in Hin.
  - intros n. left. apply same_entries_refl.
  - intros nm lyr _ _ _. left. apply same_entries_refl.
  - intros (Hid & _) n lyr Hg Hle. apply Hid in Hg. lia.
Qed.

Lemma pass_work_trans data s s1 s2 :
  pass_work data s s1 → pass_work data s1 s2 → pass_work data s s2.
Proof.
  intros W1 W2.
  pose proof (pass_work_effects data s s1 s2 W1 W2) as Heff.
  pose proof (pw_next_id _ _ _ W1) as Hn1.
  pose proof (pw_next_id _ _ _ W2) as Hn2.
  split.
  - by rewrite (pw_gridCell _ _ _ W2), (pw_gridCell _ _ _ W1).
  - by rewrite (pw_threshold _ _ _ W2), (pw_threshold _ _ _ W1).
  - by rewrite (pw_hover _ _ _ W2), (pw_hover _ _ _ W1).
  - by rewrite (pw_pending _ _ _ W2), (pw_pending _ _ _ W1).
  - by rewrite (pw_last _ _ _ W2), (pw_last _ _ _ W1).
  - by rewrite (pw_project _ _ _ W2), (pw_project _ _ _ W1).
  - lia.
  - intros Hs. by apply (pw_tables _ _ _ W2), (pw_tables _ _ _ W1).
  - rewrite Heff, (pw_trace _ _ _ W2). rewrite (pw_trace _ _ _ W1) at 1.
    by rewrite <- app_assoc.
  - intros n gj id Hin. rewrite Heff in Hin.
    apply elem_of_app in Hin as [Hin|Hin].
    + by apply (pw_created _ _ _ W1).
    + destruct (pw_created _ _ _ W2 n gj id Hin) as (e & He & -> & Hnc & Hle).
      exists e. repeat split; try done; [| lia].
      rewrite <- (same_entries_needsCreate s s1 n e); [done |].
      apply (pass_work_pending data); [done |].
      by rewrite (stale_desired _ _ _ e He).
  - intros n. apply (entry_work_trans data s s1 s2 n); try done.
    + apply (pw_entries _ _ _ W1).
    + apply (pw_entries _ _ _ W2).
  - intros id Hid.
    destruct (pw_old _ _ _ W1 id Hid) as [Hm1 Hc1].
    destruct (pw_old _ _ _ W2 id ltac:(lia)) as [Hm2 Hc2].
    split; [by intros ?%Hm2%Hm1 |]. intros nm Hin. by apply Hc1, Hc2.
  - intros id Hid Hall.
    destruct (pw_kept _ _ _ W1 id Hid Hall) as [Hm1 Hc1].
    destruct (pw_kept _ _ _ W2 id ltac:(lia)) as [Hm2 Hc2].
    { intros nm lyr Hg Heq.
      destruct (pass_work_stored data s s1 nm lyr W1 Hg) as [[Hg0 Hs]|[Hle _]];
        [| lia].
      rewrite (same_entries_stale data s s1 nm Hs). by apply (Hall nm lyr). }
    split; [by intros ?%Hm1%Hm2 |]. intros nm Hin. by apply Hc2, Hc1.
  - intros nm lyr Hg Hid Hst.
    assert (∀ s', pass_work data s1 s' →
              (layer_id lyr ∉ map_layers (lmap s1)) ∧
              (∀ nm', (layer_id lyr, nm') ∉ geojsonControl s1) →
              (layer_id lyr ∉ map_layers (lmap s')) ∧
              (∀ nm', (layer_id lyr, nm') ∉ geojsonControl s')) as Hgone.
    { intros s' W' [Hm Hc].
      destruct (pw_old _ _ _ W' (layer_id lyr) ltac:(lia)) as [Hm' Hc'].
      split; [by intros ?%Hm' |]. intros nm' Hin. by apply (Hc nm'), Hc'. }
    destruct (pw_gone _ _ _ W1 nm lyr Hg Hid Hst) as [Hs|Hg1].
    2: { right. by apply Hgone. }
    assert (Obj.get nm (layers s1) = Some lyr) as Hg1.
    { destruct Hs as (Hs & _). by rewrite Hs. }
    destruct (pw_gone _ _ _ W2 nm lyr Hg1 ltac:(lia)) as [Hs2|Hg2].
    + by rewrite (same_entries_stale data s s1 nm Hs).
    + left. by apply (same_entries_trans s s1 s2).
    + by right.
  - intros Hs. by apply (pw_surface _ _ _ W2), (pw_surface _ _ _ W1).
  - intros Hs n lyr Hg Hle.
    pose proof (pw_surface _ _ _ W1 Hs) as Hs1.
    destruct (decide (next_id s1 ≤ layer_id lyr)%nat) as [Hle1|Hlt].
    { by apply (pw_shown _ _ _ W2 Hs1 n lyr). }
    destruct (pass_work_stored data s1 s2 n lyr W2 Hg) as [[Hg1 Hs12]|[? _]];
      [| lia].
    apply (pw_kept _ _ _ W2 (layer_id lyr)); [lia | |].
    + intros nm lyr' Hg' Heq.
      destruct Hs1 as (_ & Hinj & _).
      assert (nm = n) as -> by by apply (Hinj nm lyr' n lyr).
      destruct (pass_work_stored data s s1 n lyr W1 Hg1) as [[Hg0 _]|[_ Hr]].
      * destruct Hs as (Hlt0 & _). apply Hlt0 in Hg0. lia.
      * by apply recreated_not_stale in Hr.
    + by apply (pw_shown _ _ _ W1 Hs n lyr).
Qed.
End PassWork.

(** *** The steps of a pass *)
Section PassSteps.
Context `{!Host GeoJson Value LatLng}.
Local Abbreviation State := (@State GeoJson Value LatLng) (only parsing).
Local Abbreviation Entry := (@Entry GeoJson) (only parsing).
Local Abbreviation Data := (@Data GeoJson) (only parsing).
Local Abbreviation Layer := (@Layer Value LatLng) (only parsing).
Local Abbreviation Effect := (@Effect GeoJson Value) (only parsing).
Implicit Types (st s r : State) (name n k nm : string) (entry e : Entry)
  (data : Data) (lyr old : Layer) (id : nat) (h : State → State).

Lemma ensure_tables_Some st :
  is_Some (geojsonLayers st) → ensure_tables st = st.
Proof. unfold ensure_tables. by intros [? ->]. Qed.

Lemma ensure_tables_is_Some st : is_Some (geojsonLayers (ensure_tables st)).
Proof. unfold ensure_tables. destruct (geojsonLayers st) eqn:E; simpl; eauto. Qed.

Lemma ensure_tables_idem st : ensure_tables (ensure_tables st) = ensure_tables st.
Proof. apply ensure_tables_Some, ensure_tables_is_Some. Qed.

Lemma layers_Some st :
  is_Some (geojsonLayers st) → geojsonLayers st = Some (layers st).
Proof. unfold layers. by intros [? ->]. Qed.

Lemma obj_delete_absent {V} k (o : list (string * V)) :
  Obj.get k o = None → Obj.delete k o = o.
Proof.
  induction o as [|[k' v] o IH]; simpl; [done |].
  destruct (decide (k = k')); [done |]. intros Hg. by rewrite IH.
Qed.

Lemma forget_overlay_absent n r :
  is_Some (geojsonLayers r) →
  Obj.get n (layers r) = None → Obj.get n (geojsonData r) = None →
  Obj.get n (geojsonHoverable r) = None →
  forget_overlay n r = r.
Proof.
  intros [l Hs] Hl Hd Hh. unfold forget_overlay. destruct r; simpl in *.
  subst. simpl in Hl. change (default [] (Some l)) with l.
  by rewrite (obj_delete_absent _ _ Hl), (obj_delete_absent _ _ Hd),
    (obj_delete_absent _ _ Hh).
Qed.

Lemma rebuild_eq st :
  _rebuildHoverIndex st =
  emit RebuiltHoverIndex
    (set_hoverIndex (Some (build_index st).1) (Some (build_index st).2) st).
Proof. unfold _rebuildHoverIndex. by destruct (build_index st). Qed.

Lemma stale_undesired_true data s n lyr :
  Obj.get n (desired_of data) = None → Obj.get n (layers s) = Some lyr →
  stale data s n = true.
Proof.
  intros Hu Hg. rewrite (stale_undesired _ _ _ Hu). unfold Obj.has.
  by rewrite Hg.
Qed.

(** The surface stays in order when the map loses objects. *)
Lemma surface_ok_shrink s s' :
  layers s' = layers s → geojsonControl s' = geojsonControl s →
  next_id s' = next_id s → hover s' = hover s →
  (∀ id, id ∈ map_layers (lmap s') → id ∈ map_layers (lmap s)) →
  surface_ok s → surface_ok s'.
Proof.
  intros Hl Hc Hn Hh Hm (H1 & H2 & H3 & H4 & H5 & H6 & H7 & H8).
  unfold surface_ok, no_orphans. rewrite Hl, Hc, Hn, Hh.
  repeat split; try done.
  - intros id Hin. by apply H4, Hm.
  - intros id Hin. by apply H8, Hm.
Qed.

(** Work that leaves the tables and the control alone, and takes off the
    map nothing but layers of stale names. *)
Lemma pass_work_still data s s' (l : list Effect) :
  gridCell s' = gridCell s → hoverThresholdPx s' = hoverThresholdPx s →
  hover s' = hover s → _mmPending s' = _mmPending s →
  _mmLast s' = _mmLast s →
  latLngToContainerPoint (lmap s') = latLngToContainerPoint (lmap s) →
  next_id s' = next_id s → geojsonLayers s' = geojsonLayers s →
  geojsonData s' = geojsonData s →
  geojsonHoverable s' = geojsonHoverable s →
  geojsonControl s' = geojsonControl s →
  trace s' = trace s ++ l → (∀ n gj id, CreatedLayer n gj id ∉ l) →
  (∀ id, id ∈ map_layers (lmap s') → id ∈ map_layers (lmap s)) →
  (∀ id, id ∈ map_layers (lmap s) → id ∉ map_layers (lmap s') →
         ∃ nm lyr, Obj.get nm (layers s) = Some lyr ∧ layer_id lyr = id ∧
                   stale data s nm = true) →
  pass_work data s s'.
Proof.
  intros Hg Ht Hh Hp Hla Hpr Hn Hl Hd Hho Hc Htr Hnc Hm Hoff.
  assert (layers s' = layers s) as Hly by (unfold layers; by rewrite Hl).
  assert (effects s s' = l) as Heff by by apply effects_app_trace.
  assert (∀ n, same_entries s s' n) as Hsame.
  { intros n. unfold same_entries. by rewrite Hly, Hd, Hho. }
  split; try done.
  - lia.
  - by rewrite Hl.
  - by rewrite Heff.
  - intros n gj id Hin. rewrite Heff in Hin. by apply Hnc in Hin.
  - intros n. by left.
  - intros id _. rewrite Hc. split; [apply Hm | done].
  - intros id _ Hall. rewrite Hc. split; [| done].
    intros Hin. destruct (decide (id ∈ map_layers (lmap s'))) as [|Hni];
      [done |].
    destruct (Hoff id Hin Hni) as (nm & lyr & Hgl & Heq & Hst).
    rewrite (Hall nm lyr Hgl Heq) in Hst. done.
  - intros nm lyr _ _ _. by left.
  - by apply surface_ok_shrink.
  - intros (Hid & _) n lyr Hgl Hle. rewrite Hly in Hgl. apply Hid in Hgl. lia.
Qed.

Lemma rebuild_work data s : pass_work data s (_rebuildHoverIndex s).
Proof.
  rewrite rebuild_eq.
  apply (pass_work_still data s _ [RebuiltHoverIndex]); try done.
  intros n gj id Hin. by apply list_elem_of_singleton in Hin.
Qed.

Lemma rebuild_reconciled data s :
  reconciled data s → reconciled data (_rebuildHoverIndex s).
Proof.
  intros Hr n. by apply (pass_work_fresh data s), Hr; [apply rebuild_work].
Qed.

(** [state.map.removeLayer] *)
Lemma map_removeLayer_work data h r n lyr :
  handler_ok data h → is_Some (geojsonLayers r) →
  Obj.get n (layers r) = Some lyr → stale data r n = true →
  pass_work data r (map_removeLayer h lyr r).
Proof.
  intros Hh Hs Hg Hst. unfold map_removeLayer.
  destruct (hasLayer (lmap r) (layer_id lyr)) eqn:Hon;
    [| apply pass_work_refl].
  set (r0 := set_lmap (removeLayer (lmap r) (layer_id lyr)) r).
  assert (pass_work data r r0) as W0.
  { apply (pass_work_still data r r0 []); try done.
    - by rewrite app_nil_r.
    - intros ? ? ? Hin. by apply elem_of_nil in Hin.
    - intros id Hin. by apply elem_of_removeLayer in Hin as [? _].
    - intros id Hin Hni. exists n, lyr. split; [done |]. split; [| done].
      destruct (decide (layer_id lyr = id)) as [|Hne]; [done |].
      exfalso. apply Hni. apply elem_of_removeLayer. split; [done |].
      by intros ->. }
  destruct (bool_decide _); [| done].
  apply (pass_work_trans data r r0); [done |]. by apply Hh.
Qed.

Lemma map_removeLayer_off data h r lyr :
  handler_ok data h → is_Some (geojsonLayers r) →
  (layer_id lyr < next_id r)%nat →
  layer_id lyr ∉ map_layers (lmap (map_removeLayer h lyr r)).
Proof.
  intros Hh Hs Hid. unfold map_removeLayer.
  destruct (hasLayer (lmap r) (layer_id lyr)) eqn:Hon.
  2: { by apply hasLayer_false. }
  set (r0 := set_lmap (removeLayer (lmap r) (layer_id lyr)) r).
  assert (layer_id lyr ∉ map_layers (lmap r0)) as Hoff.
  { intros Hin. by apply elem_of_removeLayer in Hin as [_ ?]. }
  destruct (bool_decide _); [| done].
  intros Hin. apply Hoff.
  by apply (pw_old _ _ _ (Hh r0 Hs) (layer_id lyr) Hid).
Qed.
End PassSteps.

(** *** The end of the two loop bodies *)
Section PassTails.
Context `{!Host GeoJson Value LatLng}.
Local Abbreviation State := (@State GeoJson Value LatLng) (only parsing).
Local Abbreviation Entry := (@Entry GeoJson) (only parsing).
Local Abbreviation Data := (@Data GeoJson) (only parsing).
Local Abbreviation Layer := (@Layer Value LatLng) (only parsing).
Local Abbreviation Effect := (@Effect GeoJson Value) (only parsing).
Implicit Types (st s r : State) (name n k nm : string) (entry e : Entry)
  (data : Data) (lyr old : Layer) (id : nat) (h : State → State).

(** The removal loop, after [state.map.removeLayer]: the layer leaves the
    control and the three entries are deleted.  [s] is the state in which
    the pass started and [r] the state after the call. *)
Lemma finish_remove data s r n lyr :
  pass_work data s r →
  Obj.get n (desired_of data) = None →
  Obj.get n (layers s) = Some lyr →
  ((layer_id lyr < next_id s)%nat → layer_id lyr ∉ map_layers (lmap r)) →
  pass_work data s (forget_overlay n (unlist lyr r)).
Proof.
  intros W Hu Hg Hoff.
  set (r' := forget_overlay n (unlist lyr r)).
  assert (layers r' = Obj.delete n (layers r)) as Hl by done.
  assert (geojsonData r' = Obj.delete n (geojsonData r)) as Hd by done.
  assert (geojsonHoverable r' = Obj.delete n (geojsonHoverable r)) as Hh
    by done.
  assert (geojsonControl r' =
          control_removeLayer (geojsonControl r) (layer_id lyr)) as Hc by done.
  assert (lmap r' = lmap r) as Hm by done.
  assert (next_id r' = next_id r) as Hn by done.
  assert (hover r' = hover r) as Hho by done.
  assert (trace r' = trace r ++ [DetachedLayer (layer_id lyr)]) as Ht by done.
  assert (is_Some (geojsonLayers r')) as Hs' by (simpl; eauto).
  assert (gridCell r' = gridCell r) as E1 by done.
  assert (hoverThresholdPx r' = hoverThresholdPx r) as E2 by done.
  assert (_mmPending r' = _mmPending r) as E3 by done.
  assert (_mmLast r' = _mmLast r) as E4 by done.
  clearbody r'.
  assert (effects s r' = effects s r ++ [DetachedLayer (layer_id lyr)])
    as Heff.
  { apply effects_app_trace. rewrite Ht, (pw_trace _ _ _ W) at 1.
    by rewrite <- app_assoc. }
  pose proof (pw_next_id _ _ _ W) as Hle.
  assert (stale data s n = true) as Hst
    by by apply (stale_undesired_true data s n lyr).
  split.
  - by rewrite E1, (pw_gridCell _ _ _ W).
  - by rewrite E2, (pw_threshold _ _ _ W).
  - by rewrite Hho, (pw_hover _ _ _ W).
  - by rewrite E3, (pw_pending _ _ _ W).
  - by rewrite E4, (pw_last _ _ _ W).
  - by rewrite Hm, (pw_project _ _ _ W).
  - lia.
  - done.
  - rewrite Heff, Ht. rewrite (pw_trace _ _ _ W) at 1. by rewrite <- app_assoc.
  - intros m gj id Hin. rewrite Heff in Hin.
    apply elem_of_app in Hin as [Hin|Hin].
    + by apply (pw_created _ _ _ W).
    + by apply list_elem_of_singleton in Hin.
  - intros m. destruct (decide (m = n)) as [->|Hne].
    + right. right. unfold removed. rewrite Hl, Hd, Hh, !obj_get_delete_eq.
      split; [done |]. split; [| done]. exists lyr. split; [done |].
      rewrite Heff. apply elem_of_app. right. apply list_elem_of_here.
    + assert (same_entries r r' m) as Hsame.
      { unfold same_entries.
        by rewrite Hl, Hd, Hh, !(obj_get_delete_ne n m) by done. }
      destruct (pw_entries _ _ _ W m) as [Hs|[Hr|Hrm]].
      * left. by apply (same_entries_trans s r r').
      * right. left.
        destruct Hr as (e & id & He & Hnc & Hle1 & Hlt & Hl1 & Hd1 & Hh1
                        & id' & Hin).
        destruct Hsame as (Hs1 & Hs2 & Hs3).
        exists e, id. rewrite Hs1, Hs2, Hs3, Hn.
        repeat split; try done.
        exists id'. rewrite Heff. apply elem_of_app. by left.
      * right. right.
        destruct Hrm as (Hu1 & (l1 & Hg1 & Hin) & Hl1 & Hd1 & Hh1).
        destruct Hsame as (Hs1 & Hs2 & Hs3). unfold removed.
        rewrite Hs1, Hs2, Hs3. split; [done |]. split; [| done].
        exists l1. split; [done |]. rewrite Heff. apply elem_of_app. by left.
  - intros id Hid. destruct (pw_old _ _ _ W id Hid) as [Hm1 Hc1].
    rewrite Hm, Hc. split; [done |].
    intros nm Hin. apply elem_of_control_removeLayer in Hin as [Hin _].
    by apply Hc1.
  - intros id Hid Hall. destruct (pw_kept _ _ _ W id Hid Hall) as [Hm1 Hc1].
    rewrite Hm, Hc. split; [done |].
    intros nm Hin. apply elem_of_control_removeLayer. split; [by apply Hc1 |].
    intros ->. rewrite (Hall n lyr Hg eq_refl) in Hst. done.
  - intros nm l0 Hg0 Hid Hst0.
    destruct (pw_gone _ _ _ W nm l0 Hg0 Hid Hst0) as [Hs|[Hgm Hgc]].
    + destruct (decide (nm = n)) as [->|Hne].
      * right. assert (l0 = lyr) as -> by congruence.
        rewrite Hm, Hc. split; [by apply Hoff |].
        intros nm' Hin. by apply elem_of_control_removeLayer in Hin as [_ ?].
      * left. apply (same_entries_trans s r r'); [done |].
        unfold same_entries.
        by rewrite Hl, Hd, Hh, !(obj_get_delete_ne n nm) by done.
    + right. rewrite Hm, Hc. split; [done |].
      intros nm' Hin. apply elem_of_control_removeLayer in Hin as [Hin _].
      by apply (Hgc nm').
  - intros Hsf. pose proof (pw_surface _ _ _ W Hsf) as Hsr.
    pose proof Hsf as (S1 & S2 & _).
    destruct Hsr as (R1 & R2 & R3 & R4 & R5 & R6 & R7 & R8).
    assert (∀ m l, Obj.get m (layers r') = Some l →
              m ≠ n ∧ Obj.get m (layers r) = Some l) as Hsub.
    { intros m l. rewrite Hl. destruct (decide (m = n)) as [->|Hne].
      - by rewrite obj_get_delete_eq.
      - by rewrite (obj_get_delete_ne n m) by done. }
    unfold surface_ok. rewrite Hn, Hho, Hc.
    split; [| split; [| split; [| split; [| split; [| split; [| split]]]]]].
    + intros m l [_ Hgl]%Hsub. by apply (R1 m).
    + intros n1 l1 n2 l2 [_ Hg1]%Hsub [_ Hg2]%Hsub. by apply R2.
    + intros m l [Hne Hgl]%Hsub. apply elem_of_control_removeLayer.
      split; [by apply R3 |]. intros Heq.
      destruct (pass_work_stored data s r m l W Hgl) as [[Hg0 _]|[Hle0 _]].
      * apply Hne. by apply (S2 m l n lyr).
      * apply S1 in Hg. lia.
    + rewrite Hm. apply R4.
    + intros id nm Hin. apply elem_of_control_removeLayer in Hin as [Hin _].
      by apply (R5 id nm).
    + done.
    + intros m l [_ Hgl]%Hsub. by apply (R7 m).
    + intros id Hin. rewrite Hm in Hin. rewrite Hho.
      destruct (R8 id Hin) as [?|[nm Hnm]]; [by left |]. right. exists nm.
      rewrite Hc. apply elem_of_control_removeLayer. split; [done |].
      intros ->. apply Hoff; [| done]. by apply (S1 n).
  - intros Hsf m l Hgl Hle0. rewrite Hm.
    apply (pw_shown _ _ _ W Hsf m l); [| done].
    rewrite Hl in Hgl. destruct (decide (m = n)) as [->|Hne].
    + by rewrite obj_get_delete_eq in Hgl.
    + by rewrite (obj_get_delete_ne n m) in Hgl by done.
Qed.

(** What is left of a layer that the upsert loop replaces: nothing if the
    name had no layer. *)
Lemma unlist_old_control (old : option Layer) r id nm :
  (id, nm) ∈ geojsonControl (from_option (λ lyr, unlist lyr r) r old) ↔
  (id, nm) ∈ geojsonControl r ∧ ∀ lyr, old = Some lyr → id ≠ layer_id lyr.
Proof.
  destruct old as [lyr|]; simpl.
  - rewrite elem_of_control_removeLayer. split.
    + intros [? ?]. split; [done |]. by intros ? [= <-].
    + intros [? Hne]. split; [done |]. by apply Hne.
  - split; [| by intros [? _]]. intros ?. split; [done |]. by intros ? [=].
Qed.

(** The upsert loop, after [state.map.removeLayer] if the name had a layer:
    the former layer leaves the control, the new one is created, shown,
    recorded and listed. *)
Lemma finish_upsert data s r n entry :
  pass_work data s r →
  Obj.get n (desired_of data) = Some entry →
  needsCreate s n entry = true →
  (∀ lyr, Obj.get n (layers s) = Some lyr → (layer_id lyr < next_id s)%nat →
          layer_id lyr ∉ map_layers (lmap r)) →
  pass_work data s
    (create_overlay n entry
       (from_option (λ lyr, unlist lyr r) r (Obj.get n (layers s)))).
Proof.
  intros W He Hnc Hoff.
  set (old := Obj.get n (layers s)).
  set (r0 := from_option (λ lyr, unlist lyr r) r old).
  set (new := {| layer_id := next_id r;
                 eachLayer := L_geoJSON (geojson entry) |} : Layer).
  set (det := match old with
              | Some lyr => [DetachedLayer (layer_id lyr)]
              | None => []
              end : list Effect).
  assert (layers r0 = layers r ∧ geojsonData r0 = geojsonData r ∧
          geojsonHoverable r0 = geojsonHoverable r ∧ lmap r0 = lmap r ∧
          next_id r0 = next_id r ∧ hover r0 = hover r ∧
          trace r0 = trace r ++ det ∧ gridCell r0 = gridCell r ∧
          hoverThresholdPx r0 = hoverThresholdPx r ∧
          _mmPending r0 = _mmPending r ∧ _mmLast r0 = _mmLast r)
    as (Hl0 & Hd0 & Hh0 & Hm0 & Hn0 & Hho0 & Ht0 & F1 & F2 & F3 & F4).
  { subst r0 det. destruct old; simpl; [done |]. by rewrite app_nil_r. }
  pose proof (unlist_old_control old r) as Hc0. fold r0 in Hc0.
  set (r' := create_overlay n entry r0).
  assert (layers r' = Obj.set n new (layers r)) as Hl.
  { subst r' new. unfold create_overlay. simpl. by rewrite <- Hl0, Hn0. }
  assert (geojsonData r' =
          Obj.set n (JSON_stringify (geojson entry)) (geojsonData r)) as Hd.
  { subst r'. unfold create_overlay. simpl. by rewrite Hd0. }
  assert (geojsonHoverable r' =
          Obj.set n (hoverable entry) (geojsonHoverable r)) as Hh.
  { subst r'. unfold create_overlay. simpl. by rewrite Hh0. }
  assert (geojsonControl r' = addOverlay (geojsonControl r0) (next_id r) n)
    as Hc.
  { subst r'. unfold create_overlay. simpl. by rewrite Hn0. }
  assert (lmap r' = addLayer (lmap r) (next_id r)) as Hm.
  { subst r'. unfold create_overlay. simpl. by rewrite Hm0, Hn0. }
  assert (next_id r' = S (next_id r)) as Hn.
  { subst r'. unfold create_overlay. simpl. by rewrite Hn0. }
  assert (hover r' = hover r) as Hho by (by rewrite <- Hho0).
  assert (trace r' =
          trace r ++ det ++ [CreatedLayer n (geojson entry) (next_id r)])
    as Ht.
  { subst r'. unfold create_overlay. simpl. by rewrite Ht0, Hn0, <- app_assoc. }
  assert (is_Some (geojsonLayers r')) as Hs' by (simpl; eauto).
  assert (gridCell r' = gridCell r) as E1 by (by rewrite <- F1).
  assert (hoverThresholdPx r' = hoverThresholdPx r) as E2
    by (by rewrite <- F2).
  assert (_mmPending r' = _mmPending r) as E3 by (by rewrite <- F3).
  assert (_mmLast r' = _mmLast r) as E4 by (by rewrite <- F4).
  clearbody r'. clear Hl0 Hd0 Hh0 Hm0 Hn0 Hho0 Ht0 F1 F2 F3 F4.
  clearbody r0.
  assert (∀ x, x ∈ det → ∃ id, x = DetachedLayer id) as Hdet.
  { subst det. intros x Hin. destruct old.
    - apply list_elem_of_singleton in Hin. by eexists.
    - by apply elem_of_nil in Hin. }
  clearbody det.
  assert (effects s r' =
          effects s r ++ det ++ [CreatedLayer n (geojson entry) (next_id r)])
    as Heff.
  { apply effects_app_trace. rewrite Ht. rewrite (pw_trace _ _ _ W) at 1.
    by rewrite <- app_assoc. }
  pose proof (pw_next_id _ _ _ W) as Hle.
  assert (stale data s n = true) as Hst by by rewrite (stale_desired _ _ _ entry).
  assert (∀ id nm, (id, nm) ∈ geojsonControl r' ↔
            ((id, nm) ∈ geojsonControl r ∧
             ∀ lyr, old = Some lyr → id ≠ layer_id lyr) ∨
            (id = next_id r ∧ nm = n)) as Hctl.
  { intros id nm. by rewrite Hc, elem_of_addOverlay, Hc0. }
  assert (∀ id, id ∈ map_layers (lmap r') ↔
            id ∈ map_layers (lmap r) ∨ id = next_id r) as Hmap.
  { intros id. by rewrite Hm, elem_of_addLayer. }
  assert (latLngToContainerPoint (lmap r') =
          latLngToContainerPoint (lmap r)) as Hpr
    by (by rewrite Hm, addLayer_project).
  clear Hc Hc0 Hm.
  assert (∀ m, m ≠ n → same_entries r r' m) as Hsame.
  { intros m Hne. unfold same_entries.
    by rewrite Hl, Hd, Hh, !(obj_get_set_ne n m) by done. }
  split.
  - by rewrite E1, (pw_gridCell _ _ _ W).
  - by rewrite E2, (pw_threshold _ _ _ W).
  - by rewrite Hho, (pw_hover _ _ _ W).
  - by rewrite E3, (pw_pending _ _ _ W).
  - by rewrite E4, (pw_last _ _ _ W).
  - by rewrite Hpr, (pw_project _ _ _ W).
  - lia.
  - done.
  - rewrite Heff, Ht. rewrite (pw_trace _ _ _ W) at 1. by rewrite <- app_assoc.
  - intros m gj id Hin. rewrite Heff in Hin.
    apply elem_of_app in Hin as [Hin|Hin].
    { by apply (pw_created _ _ _ W). }
    apply elem_of_app in Hin as [Hin|Hin].
    { by destruct (Hdet _ Hin). }
    apply list_elem_of_singleton in Hin. injection Hin as -> -> ->.
    by exists entry.
  - intros m. destruct (decide (m = n)) as [->|Hne].
    + right. left. exists entry, (next_id r).
      rewrite Hl, Hd, Hh, Hn, !obj_get_set_eq.
      repeat split; try done; [lia |].
      exists (next_id r). rewrite Heff, !elem_of_app. right. right.
      apply list_elem_of_here.
    + specialize (Hsame m Hne).
      destruct (pw_entries _ _ _ W m) as [Hs|[Hr|Hrm]].
      * left. by apply (same_entries_trans s r r').
      * right. left.
        destruct Hr as (e & id & He1 & Hnc1 & Hle1 & Hlt & Hl1 & Hd1 & Hh1
                        & id' & Hin).
        destruct Hsame as (Hs1 & Hs2 & Hs3).
        exists e, id. rewrite Hs1, Hs2, Hs3, Hn.
        repeat split; try done; [lia |].
        exists id'. rewrite Heff. apply elem_of_app. by left.
      * right. right.
        destruct Hrm as (Hu1 & (l1 & Hg1 & Hin) & Hl1 & Hd1 & Hh1).
        destruct Hsame as (Hs1 & Hs2 & Hs3). unfold removed.
        rewrite Hs1, Hs2, Hs3. split; [done |]. split; [| done].
        exists l1. split; [done |]. rewrite Heff. apply elem_of_app. by left.
  - intros id Hid. destruct (pw_old _ _ _ W id Hid) as [Hm1 Hc1]. split.
    + intros [Hin| ->]%Hmap; [by apply Hm1 | lia].
    + intros nm [[Hin _]|[-> _]]%Hctl; [by apply Hc1 | lia].
  - intros id Hid Hall. destruct (pw_kept _ _ _ W id Hid Hall) as [Hm1 Hc1].
    split.
    + intros Hin. apply Hmap. left. by apply Hm1.
    + intros nm Hin. apply Hctl. left. split; [by apply Hc1 |].
      intros lyr Hg ->. rewrite (Hall n lyr Hg eq_refl) in Hst. done.
  - intros nm l0 Hg0 Hid Hst0.
    assert (layer_id l0 ≠ next_id r) as Hnew by lia.
    destruct (pw_gone _ _ _ W nm l0 Hg0 Hid Hst0) as [Hs|[Hgm Hgc]].
    + destruct (decide (nm = n)) as [->|Hne].
      * right. split.
        -- intros [Hin|?]%Hmap; [| done]. by apply (Hoff l0).
        -- intros nm' [[_ Hne]|[? _]]%Hctl; [| done]. by apply (Hne l0).
      * left. apply (same_entries_trans s r r'); [done |]. by apply Hsame.
    + right. split.
      * by intros [Hin|?]%Hmap.
      * intros nm' [[Hin _]|[? _]]%Hctl; [| done]. by apply (Hgc nm').
  - intros Hsf. pose proof (pw_surface _ _ _ W Hsf) as Hsr.
    pose proof Hsf as (S1 & S2 & _).
    destruct Hsr as (R1 & R2 & R3 & R4 & R5 & R6 & R7 & R8).
    assert (∀ m l, Obj.get m (layers r') = Some l →
              (m = n ∧ l = new) ∨ (m ≠ n ∧ Obj.get m (layers r) = Some l))
      as Hsub.
    { intros m l. rewrite Hl. destruct (decide (m = n)) as [->|Hne].
      - rewrite obj_get_set_eq. intros [= <-]. by left.
      - rewrite (obj_get_set_ne n m) by done. by right. }
    unfold surface_ok. rewrite Hn, Hho.
    split; [| split; [| split; [| split; [| split; [| split; [| split]]]]]].
    + intros m l [[-> ->]|[_ Hgl]]%Hsub; [simpl; lia |].
      apply R1 in Hgl. lia.
    + intros n1 l1 n2 l2 [[-> ->]|[? Hg1]]%Hsub [[-> ->]|[? Hg2]]%Hsub;
        simpl; intros Heq; [done | | |].
      * apply R1 in Hg2. lia.
      * apply R1 in Hg1. lia.
      * by apply (R2 n1 l1 n2 l2).
    + intros m l [[-> ->]|[Hne Hgl]]%Hsub; apply Hctl; [by right |].
      left. split; [by apply R3 |]. intros lyr Hg Heq.
      destruct (pass_work_stored data s r m l W Hgl) as [[Hg0 _]|[Hle0 _]].
      * apply Hne. by apply (S2 m l n lyr).
      * apply S1 in Hg. lia.
    + intros id [Hin| ->]%Hmap; [| lia]. apply R4 in Hin. lia.
    + intros id nm [[Hin _]|[-> _]]%Hctl; [| lia]. apply R5 in Hin. lia.
    + lia.
    + intros m l [[-> ->]|[_ Hgl]]%Hsub; [simpl; lia |]. by apply (R7 m).
    + intros id [Hin| ->]%Hmap; rewrite Hho.
      * destruct (R8 id Hin) as [?|[nm Hnm]]; [by left |]. right. exists nm.
        apply Hctl. left. split; [done |].
        intros lyr Hg ->. apply (Hoff lyr); [done | | done]. by apply (S1 n).
      * right. exists n. apply Hctl. by right.
  - intros Hsf m l Hgl Hle0. apply Hmap.
    rewrite Hl in Hgl. destruct (decide (m = n)) as [->|Hne].
    + rewrite obj_get_set_eq in Hgl. injection Hgl as <-. by right.
    + rewrite (obj_get_set_ne n m) in Hgl by done. left.
      by apply (pw_shown _ _ _ W Hsf m l).
Qed.
(** The end of the body of the removal loop leaves no other name stale. *)
Lemma forget_stale data r k lyr m :
  Obj.get k (desired_of data) = None →
  m = k ∨ stale data r m = false →
  stale data (forget_overlay k (unlist lyr r)) m = false.
Proof.
  intros Hu Hm. set (r' := forget_overlay k (unlist lyr r)).
  assert (layers r' = Obj.delete k (layers r)) as Hl by done.
  assert (geojsonData r' = Obj.delete k (geojsonData r)) as Hd by done.
  assert (geojsonHoverable r' = Obj.delete k (geojsonHoverable r)) as Hh
    by done.
  clearbody r'. destruct (decide (m = k)) as [->|Hne].
  - rewrite (stale_undesired _ _ _ Hu). unfold Obj.has.
    by rewrite Hl, obj_get_delete_eq.
  - destruct Hm as [?|Hm]; [done |].
    rewrite (same_entries_stale data r); [done |]. unfold same_entries.
    by rewrite Hl, Hd, Hh, !(obj_get_delete_ne k m) by done.
Qed.

(** The end of the body of the upsert loop leaves no other name stale. *)
Lemma create_stale data r k entry (old : option Layer) m :
  Obj.get k (desired_of data) = Some entry →
  m = k ∨ stale data r m = false →
  stale data
    (create_overlay k entry (from_option (λ lyr, unlist lyr r) r old)) m =
  false.
Proof.
  intros He Hm. set (r0 := from_option _ _ _).
  assert (layers r0 = layers r ∧ geojsonData r0 = geojsonData r ∧
          geojsonHoverable r0 = geojsonHoverable r) as (E1 & E2 & E3).
  { subst r0. by destruct old. }
  assert (layers (create_overlay k entry r0) =
          Obj.set k {| layer_id := next_id r0;
                       eachLayer := L_geoJSON (geojson entry) |}
                  (layers r)) as Hl
    by (unfold create_overlay; simpl; by rewrite <- E1).
  assert (geojsonData (create_overlay k entry r0) =
          Obj.set k (JSON_stringify (geojson entry)) (geojsonData r)) as Hd
    by (unfold create_overlay; simpl; by rewrite <- E2).
  assert (geojsonHoverable (create_overlay k entry r0) =
          Obj.set k (hoverable entry) (geojsonHoverable r)) as Hho
    by (unfold create_overlay; simpl; by rewrite <- E3).
  destruct (decide (m = k)) as [->|Hne].
  - rewrite (stale_desired _ _ _ entry He). apply needsCreate_false.
    rewrite Hl, Hd, Hho, !obj_get_set_eq. split; [| done].
    apply obj_keys_set. by left.
  - destruct Hm as [?|Hm]; [done |].
    rewrite (same_entries_stale data r); [done |]. unfold same_entries.
    by rewrite Hl, Hd, Hho, !(obj_get_set_ne k m) by done.
Qed.

End PassTails.

(** *** The two loops and the whole pass *)
Section PassLoops.
Context `{!Host GeoJson Value LatLng}.
Local Abbreviation State := (@State GeoJson Value LatLng) (only parsing).
Local Abbreviation Entry := (@Entry GeoJson) (only parsing).
Local Abbreviation Data := (@Data GeoJson) (only parsing).
Local Abbreviation Layer := (@Layer Value LatLng) (only parsing).
Local Abbreviation Effect := (@Effect GeoJson Value) (only parsing).
Implicit Types (st s r : State) (name n k nm : string) (entry e : Entry)
  (data : Data) (lyr old : Layer) (id : nat) (h : State → State).

(** The body of the removal loop for a name that left the snapshot. *)
Lemma remove_overlay_work data h s r n :
  handler_ok data h → pass_work data s r → is_Some (geojsonLayers s) →
  n ∈ Obj.keys (layers s) → Obj.get n (desired_of data) = None →
  let r' := remove_overlay h n r in
  pass_work data s r' ∧
  ∀ m, m = n ∨ stale data r m = false → stale data r' m = false.
Proof.
  intros Hh W Hs Hk Hu. cbn zeta. unfold remove_overlay.
  pose proof (pw_tables _ _ _ W Hs) as Hsr.
  destruct (Obj.get n (layers r)) as [lyr|] eqn:Hg.
  - destruct (pass_work_stored data s r n lyr W Hg) as [[Hg0 Hsame]|[_ Hr]].
    2: { destruct Hr as (e & ? & He & _). congruence. }
    assert (stale data r n = true) as Hst
      by by apply (stale_undesired_true data r n lyr).
    pose proof (map_removeLayer_work data h r n lyr Hh Hsr Hg Hst) as M.
    unfold detach. set (rm := map_removeLayer h lyr r) in *.
    split.
    + apply finish_remove; try done.
      * by apply (pass_work_trans data s r rm).
      * intros Hid. apply (map_removeLayer_off data); try done.
        pose proof (pw_next_id _ _ _ W). lia.
    + intros m Hm. apply forget_stale; [done |].
      destruct Hm as [?|Hm]; [by left |]. right.
      by apply (pass_work_fresh data r).
  - destruct (pw_entries _ _ _ W n) as [Hsame|[Hr|Hrm]].
    + destruct Hsame as (Hsame & _). rewrite Hg in Hsame.
      apply obj_get_is_Some_keys in Hk as [? Hk]. congruence.
    + destruct Hr as (e & ? & He & _). congruence.
    + destruct Hrm as (_ & _ & _ & Hd & Hho).
      rewrite forget_overlay_absent by done. split; [done |].
      intros m [->|Hm]; [| done].
      rewrite (stale_undesired _ _ _ Hu). unfold Obj.has. by rewrite Hg.
Qed.

(** The body of the upsert loop. *)
Lemma upsert_work data h s r b n entry :
  handler_ok data h → pass_work data s r → is_Some (geojsonLayers s) →
  Obj.get n (desired_of data) = Some entry →
  let r' := (upsert h (r, b) (n, entry)).1 in
  pass_work data s r' ∧
  ∀ m, m = n ∨ stale data r m = false → stale data r' m = false.
Proof.
  intros Hh W Hs He. cbn zeta. unfold upsert.
  pose proof (pw_tables _ _ _ W Hs) as Hsr.
  destruct (needsCreate r n entry) eqn:Hnc; cbn [negb fst].
  2: { split; [done |]. intros m [->|Hm]; [| done].
       by rewrite (stale_desired _ _ _ entry). }
  assert (stale data r n = true) as Hst by by rewrite (stale_desired _ _ _ entry).
  pose proof (pass_work_pending data s r n W Hst) as Hsame.
  assert (needsCreate s n entry = true) as Hnc0.
  { by rewrite <- (same_entries_needsCreate s r n entry Hsame). }
  assert (Obj.get n (layers r) = Obj.get n (layers s)) as Hgs by apply Hsame.
  assert (∀ rm (o : option Layer), pass_work data r rm →
            ∀ m, m = n ∨ stale data r m = false →
                 stale data
                   (create_overlay n entry
                      (from_option (λ lyr, unlist lyr rm) rm o)) m = false)
    as Hfresh.
  { intros rm o M m Hm. apply create_stale; [done |].
    destruct Hm as [?|Hm]; [by left |]. right.
    by apply (pass_work_fresh data r). }
  destruct (Obj.get n (layers r)) as [old|] eqn:Hg.
  - pose proof (map_removeLayer_work data h r n old Hh Hsr Hg Hst) as M.
    unfold detach. set (rm := map_removeLayer h old r) in *.
    split.
    + pose proof (finish_upsert data s rm n entry) as F.
      rewrite <- Hgs in F. apply F; try done.
      * by apply (pass_work_trans data s r rm).
      * intros lyr [= <-] Hid. apply (map_removeLayer_off data); try done.
        pose proof (pw_next_id _ _ _ W). lia.
    + by apply (Hfresh rm (Some old)).
  - split.
    + pose proof (finish_upsert data s r n entry) as F.
      rewrite <- Hgs in F. apply F; try done.
    + apply (Hfresh r None). apply pass_work_refl.
Qed.

Lemma upsert_fst_irrel h r b b' x :
  (upsert h (r, b) x).1 = (upsert h (r, b') x).1.
Proof. destruct x as [n e]. unfold upsert. by destruct (needsCreate r n e). Qed.

Lemma upsert_loop_fst_irrel h es r b b' :
  (foldl (upsert h) (r, b) es).1 = (foldl (upsert h) (r, b') es).1.
Proof.
  revert r b b'. induction es as [|x es IH]; intros r b b'; [done |].
  cbn [foldl].
  destruct (upsert h (r, b) x) as [r1 b1] eqn:E1.
  destruct (upsert h (r, b') x) as [r2 b2] eqn:E2.
  assert (r1 = r2) as ->; [| apply IH].
  change r1 with (r1, b1).1. change r2 with (r2, b2).1.
  rewrite <- E1, <- E2. apply upsert_fst_irrel.
Qed.

Lemma upsert_loop_cons h r b x es :
  (foldl (upsert h) (r, b) (x :: es)).1 =
  (foldl (upsert h) ((upsert h (r, b) x).1, b) es).1.
Proof.
  cbn [foldl]. destruct (upsert h (r, b) x) as [r1 b1]. cbn [fst].
  apply upsert_loop_fst_irrel.
Qed.

(** The removal loop. *)
Lemma removal_loop_work data h s ks r :
  handler_ok data h → is_Some (geojsonLayers s) →
  (∀ k, k ∈ ks → k ∈ Obj.keys (layers s)) →
  pass_work data s r →
  let r' :=
    foldl (λ st name,
             if bool_decide (name ∈ names (desired_of data)) then st
             else remove_overlay h name st) r ks in
  pass_work data s r' ∧
  (∀ m, stale data r m = false → stale data r' m = false) ∧
  (∀ m, m ∈ ks → Obj.get m (desired_of data) = None →
        stale data r' m = false).
Proof.
  intros Hh Hs. revert r. induction ks as [|k ks IH]; intros r Hks W; cbn zeta.
  { cbn [foldl]. split; [done |]. split; [done |].
    intros m Hm. by apply elem_of_nil in Hm. }
  cbn [foldl].
  assert (∀ k', k' ∈ ks → k' ∈ Obj.keys (layers s)) as Hks'.
  { intros k' Hk'. by apply Hks, list_elem_of_further. }
  case_bool_decide as Hd.
  - destruct (IH r Hks' W) as (W' & Hkeep & Hdone).
    split; [done |]. split; [done |].
    intros m [->|Hm]%elem_of_cons Hu; [| by apply Hdone].
    apply elem_of_names_get in Hd as [? Hd]. congruence.
  - assert (Obj.get k (desired_of data) = None) as Hu.
    { destruct (Obj.get k (desired_of data)) eqn:E; [| done].
      exfalso. apply Hd, elem_of_names_get. by rewrite E. }
    destruct (remove_overlay_work data h s r k Hh W Hs
                (Hks k (list_elem_of_here _ _)) Hu) as (W1 & Hf1).
    destruct (IH (remove_overlay h k r) Hks' W1) as (W' & Hkeep & Hdone).
    split; [done |]. split.
    + intros m Hm. apply Hkeep, Hf1. by right.
    + intros m [->|Hm]%elem_of_cons Hum; [| by apply Hdone].
      apply Hkeep, Hf1. by left.
Qed.

(** The upsert loop. *)
Lemma upsert_loop_work data h s (es : list (string * Entry)) r b :
  handler_ok data h → is_Some (geojsonLayers s) →
  (∀ n e, (n, e) ∈ es → Obj.get n (desired_of data) = Some e) →
  pass_work data s r →
  let r' := (foldl (upsert h) (r, b) es).1 in
  pass_work data s r' ∧
  (∀ m, stale data r m = false → stale data r' m = false) ∧
  (∀ m e, (m, e) ∈ es → stale data r' m = false).
Proof.
  intros Hh Hs. revert r. induction es as [|[n e] es IH]; intros r Hes W;
    cbn zeta.
  { cbn [foldl fst]. split; [done |]. split; [done |].
    intros m e Hm. by apply elem_of_nil in Hm. }
  rewrite upsert_loop_cons.
  assert (∀ n' e', (n', e') ∈ es → Obj.get n' (desired_of data) = Some e')
    as Hes'.
  { intros n' e' Hin. by apply Hes, list_elem_of_further. }
  destruct (upsert_work data h s r b n e Hh W Hs
              (Hes n e (list_elem_of_here _ _))) as (W1 & Hf1).
  destruct (IH (upsert h (r, b) (n, e)).1 Hes' W1) as (W' & Hkeep & Hdone).
  split; [done |]. split.
  - intros m Hm. apply Hkeep, Hf1. by right.
  - intros m e' [[= -> ->]|Hm]%elem_of_cons; [| by apply (Hdone m e')].
    apply Hkeep, Hf1. by left.
Qed.

Lemma sync_loops_eq h data st :
  sync_loops h data st =
  (foldl (upsert h)
     (removal_pass h (names (desired_of data)) (ensure_tables st), false)
     (Obj.entries (desired_of data))).1.
Proof.
  unfold sync_loops. fold (names (desired_of data)).
  by destruct (foldl (upsert h) _ _).
Qed.

Lemma sync_pass_ensure h data st :
  sync_pass h data (ensure_tables st) = sync_pass h data st.
Proof. unfold sync_pass. by rewrite !sync_loops_eq, ensure_tables_idem. Qed.

(** The two loops of a pass leave the tables reconciled. *)
Lemma sync_loops_work data h s :
  handler_ok data h → is_Some (geojsonLayers s) →
  pass_work data s (sync_loops h data s) ∧
  reconciled data (sync_loops h data s).
Proof.
  intros Hh Hs. rewrite sync_loops_eq, (ensure_tables_Some s Hs).
  unfold removal_pass.
  destruct (removal_loop_work data h s (Obj.keys (layers s)) s Hh Hs
              ltac:(done) (pass_work_refl data s)) as (W1 & Hk1 & Hd1).
  set (s1 := foldl _ s (Obj.keys (layers s))) in *.
  destruct (upsert_loop_work data h s (Obj.entries (desired_of data)) s1 false
              Hh Hs) as (W2 & Hk2 & Hd2); [| done |].
  { intros n e Hin. by apply desired_elem. }
  split; [done |].
  intros n. destruct (Obj.get n (desired_of data)) as [e|] eqn:He.
  - apply (Hd2 n e). by apply desired_elem.
  - apply Hk2. destruct (Obj.get n (layers s)) as [lyr|] eqn:Hg.
    + apply Hd1; [| done]. apply obj_get_is_Some_keys. by rewrite Hg.
    + apply Hk1. rewrite (stale_undesired _ _ _ He). unfold Obj.has.
      by rewrite Hg.
Qed.

(** A pass is the work of its two loops followed by the rebuild. *)
Lemma sync_pass_work data h s :
  handler_ok data h → is_Some (geojsonLayers s) →
  ∃ s2, sync_pass h data s = _rebuildHoverIndex s2 ∧
        pass_work data s s2 ∧ reconciled data s2.
Proof.
  intros Hh Hs. exists (sync_loops h data s). split; [done |].
  by apply sync_loops_work.
Qed.

Lemma sync_pass_handler data h :
  handler_ok data h → handler_ok data (sync_pass h data).
Proof.
  intros Hh s Hs.
  destruct (sync_pass_work data h s Hh Hs) as (s2 & -> & W & _).
  apply (pass_work_trans data s s2); [done |]. apply rebuild_work.
Qed.

(** A pass answers the event by work of its own kind, however deep the
    passes get nested. *)
Lemma sync_nested_handler data depth : handler_ok data (sync_nested depth data).
Proof.
  induction depth as [|d IH]; cbn [sync_nested].
  - apply sync_pass_handler. intros s _. apply pass_work_refl.
  - by apply sync_pass_handler.
Qed.

Lemma sync_nested_eq depth data st :
  ∃ h, handler_ok data h ∧ sync_nested depth data st = sync_pass h data st.
Proof.
  destruct depth as [|d]; cbn [sync_nested].
  - exists (λ s, s). split; [| done]. intros s _. apply pass_work_refl.
  - exists (sync_nested d data). split; [apply sync_nested_handler | done].
Qed.

Lemma sync_nested_ensure depth data st :
  sync_nested depth data (ensure_tables st) = sync_nested depth data st.
Proof. destruct depth; cbn [sync_nested]; apply sync_pass_ensure. Qed.

Lemma ensure_tables_layers st : layers (ensure_tables st) = layers st.
Proof.
  unfold ensure_tables, layers. destruct (geojsonLayers st) eqn:E.
  - by rewrite E.
  - reflexivity.
Qed.

Lemma syncGeojson_ensure data st :
  syncGeojson data (ensure_tables st) = syncGeojson data st.
Proof.
  unfold syncGeojson. by rewrite sync_nested_ensure, ensure_tables_layers.
Qed.

(** What a whole pass, with the passes nested in it, does from the state in
    which the tables exist. *)
Lemma sync_nested_work depth data st :
  let st0 := ensure_tables st in
  ∃ s2, sync_nested depth data st = _rebuildHoverIndex s2 ∧
        pass_work data st0 s2 ∧ reconciled data s2.
Proof.
  cbn zeta. rewrite <- sync_nested_ensure.
  destruct (sync_nested_eq depth data (ensure_tables st)) as (h & Hh & ->).
  apply sync_pass_work; [done |]. apply ensure_tables_is_Some.
Qed.

Lemma sync_work data st :
  let st0 := ensure_tables st in
  ∃ s2, syncGeojson data st = _rebuildHoverIndex s2 ∧
        pass_work data st0 s2 ∧ reconciled data s2.
Proof. apply sync_nested_work. Qed.

Lemma sync_pass_whole data st :
  pass_work data (ensure_tables st) (syncGeojson data st) ∧
  reconciled data (syncGeojson data st).
Proof.
  destruct (sync_work data st) as (s2 & -> & W & Hr). split.
  - apply (pass_work_trans data _ s2); [done |]. apply rebuild_work.
  - by apply rebuild_reconciled.
Qed.
End PassLoops.

(** *** The depth of nesting *)
Section Nesting.
Context `{!Host GeoJson Value LatLng}.
Local Abbreviation State := (@State GeoJson Value LatLng) (only parsing).
Local Abbreviation Entry := (@Entry GeoJson) (only parsing).
Local Abbreviation Data := (@Data GeoJson) (only parsing).
Local Abbreviation Layer := (@Layer Value LatLng) (only parsing).
Local Abbreviation Effect := (@Effect GeoJson Value) (only parsing).
Implicit Types (st s r : State) (name n k nm : string) (entry e : Entry)
  (data : Data) (lyr old : Layer) (id : nat) (h : State → State).

Lemma size_list_to_set_le (l : list string) :
  (size (list_to_set l : gset string) ≤ length l)%nat.
Proof.
  induction l as [|x l IH].
  - rewrite list_to_set_nil, size_empty. done.
  - rewrite list_to_set_cons. cbn [length].
    destruct (decide (x ∈ (list_to_set l : gset string))) as [Hin|Hni].
    + rewrite (subseteq_union_1_L (C:=gset string) {[x]} (list_to_set l))
        by by apply singleton_subseteq_l.
      lia.
    + rewrite size_union by by apply disjoint_singleton_l.
      rewrite size_singleton. lia.
Qed.

Lemma nesting_bound_length data st :
  (nesting_bound data st ≤ length (layers st))%nat.
Proof.
  unfold nesting_bound.
  etrans.
  { apply subseteq_size. intros n Hin. apply elem_of_filter in Hin as [_ Hin].
    exact Hin. }
  unfold names. etrans; [apply size_list_to_set_le |].
  unfold Obj.keys. by rewrite length_map.
Qed.

Lemma elem_of_shown_stale data st n :
  n ∈ filter (λ n, stale data st n = true ∧ on_map st n = true)
             (names (layers st)) ↔
  stale data st n = true ∧
  ∃ lyr, Obj.get n (layers st) = Some lyr ∧
         layer_id lyr ∈ map_layers (lmap st).
Proof.
  rewrite elem_of_filter, elem_of_names_get. unfold on_map. split.
  - intros ((Hst & Hon) & [lyr Hg]). rewrite Hg in Hon.
    split; [done |]. exists lyr. split; [done |]. by apply hasLayer_true.
  - intros (Hst & lyr & Hg & Hon). rewrite Hg.
    split; [| by eexists]. split; [done |]. by apply hasLayer_true.
Qed.

(** Work of a pass does not raise the bound. *)
Lemma nesting_bound_mono data s r :
  pass_work data s r → surface_ok s →
  (nesting_bound data r ≤ nesting_bound data s)%nat.
Proof.
  intros W (S1 & _). apply subseteq_size. intros n.
  rewrite !elem_of_shown_stale. intros (Hst & lyr & Hg & Hon).
  pose proof (pass_work_pending data s r n W Hst) as Hsame.
  rewrite <- (same_entries_stale data s r n Hsame). split; [done |].
  exists lyr. destruct Hsame as (Hsame & _). rewrite <- Hsame.
  split; [done |]. rewrite Hsame in Hg.
  apply (pw_old _ _ _ W); [| done]. by apply (S1 n).
Qed.

(** Taking the layer of a stale name off the map lowers it. *)
Lemma nesting_bound_off data r n lyr :
  Obj.get n (layers r) = Some lyr → stale data r n = true →
  hasLayer (lmap r) (layer_id lyr) = true →
  (nesting_bound data (set_lmap (removeLayer (lmap r) (layer_id lyr)) r)
   < nesting_bound data r)%nat.
Proof.
  intros Hg Hst Hon. apply subset_size.
  set (r0 := set_lmap _ r).
  assert (∀ m, stale data r0 m = stale data r m) as Hsame.
  { intros m. by apply same_entries_stale. }
  split.
  - intros m. rewrite !elem_of_shown_stale, Hsame.
    intros (Hm & l & Hgl & Hin). split; [done |]. exists l. split; [done |].
    by apply elem_of_removeLayer in Hin as [? _].
  - intros Hsub. specialize (Hsub n). rewrite !elem_of_shown_stale in Hsub.
    destruct Hsub as (_ & l & Hgl & Hin).
    { split; [done |]. exists lyr. split; [done |]. by apply hasLayer_true. }
    change (layers r0) with (layers r) in Hgl.
    assert (l = lyr) as -> by congruence.
    by apply elem_of_removeLayer in Hin as [_ ?].
Qed.

Lemma map_removeLayer_ext data h1 h2 s r n lyr :
  agree_below data s h1 h2 → surface_ok s → is_Some (geojsonLayers s) →
  pass_work data s r →
  Obj.get n (layers r) = Some lyr → stale data r n = true →
  map_removeLayer h1 lyr r = map_removeLayer h2 lyr r.
Proof.
  intros Hag Hsf Hs W Hg Hst. unfold map_removeLayer.
  destruct (hasLayer (lmap r) (layer_id lyr)) eqn:Hon; [| done].
  destruct (bool_decide _); [| done].
  apply Hag.
  - apply (pw_tables _ _ _ W Hs).
  - apply (surface_ok_shrink r); try done.
    + intros id Hin. by apply elem_of_removeLayer in Hin as [? _].
    + by apply (pw_surface _ _ _ W).
  - eapply Nat.lt_le_trans; [by apply (nesting_bound_off data r n lyr) |].
    by apply nesting_bound_mono.
Qed.

Lemma remove_overlay_ext data h1 h2 s r n :
  agree_below data s h1 h2 → surface_ok s → is_Some (geojsonLayers s) →
  pass_work data s r → Obj.get n (desired_of data) = None →
  remove_overlay h1 n r = remove_overlay h2 n r.
Proof.
  intros Hag Hsf Hs W Hu. unfold remove_overlay, detach.
  destruct (Obj.get n (layers r)) as [lyr|] eqn:Hg; [| done].
  rewrite (map_removeLayer_ext data h1 h2 s r n lyr); try done.
  by apply (stale_undesired_true data r n lyr).
Qed.

Lemma upsert_ext data h1 h2 s r b n entry :
  agree_below data s h1 h2 → surface_ok s → is_Some (geojsonLayers s) →
  pass_work data s r → Obj.get n (desired_of data) = Some entry →
  upsert h1 (r, b) (n, entry) = upsert h2 (r, b) (n, entry).
Proof.
  intros Hag Hsf Hs W He. unfold upsert, detach.
  destruct (needsCreate r n entry) eqn:Hnc; [| done]. cbn [negb].
  destruct (Obj.get n (layers r)) as [lyr|] eqn:Hg; [| done].
  rewrite (map_removeLayer_ext data h1 h2 s r n lyr); try done.
  by rewrite (stale_desired _ _ _ entry).
Qed.

Lemma removal_loop_ext data h1 h2 s ks r :
  handler_ok data h1 → agree_below data s h1 h2 → surface_ok s →
  is_Some (geojsonLayers s) →
  (∀ k, k ∈ ks → k ∈ Obj.keys (layers s)) →
  pass_work data s r →
  foldl (λ st name,
           if bool_decide (name ∈ names (desired_of data)) then st
           else remove_overlay h1 name st) r ks =
  foldl (λ st name,
           if bool_decide (name ∈ names (desired_of data)) then st
           else remove_overlay h2 name st) r ks.
Proof.
  intros Hh Hag Hsf Hs. revert r.
  induction ks as [|k ks IH]; intros r Hks W; [done |]. cbn [foldl].
  assert (∀ k', k' ∈ ks → k' ∈ Obj.keys (layers s)) as Hks'.
  { intros k' Hk'. by apply Hks, list_elem_of_further. }
  case_bool_decide as Hd; [by apply IH |].
  assert (Obj.get k (desired_of data) = None) as Hu.
  { destruct (Obj.get k (desired_of data)) eqn:E; [| done].
    exfalso. apply Hd, elem_of_names_get. by rewrite E. }
  rewrite <- (remove_overlay_ext data h1 h2 s r k) by done.
  apply IH; [done |].
  apply (remove_overlay_work data h1 s r k); try done.
  apply Hks, list_elem_of_here.
Qed.

Lemma upsert_loop_ext data h1 h2 s (es : list (string * Entry)) r b :
  handler_ok data h1 → agree_below data s h1 h2 → surface_ok s →
  is_Some (geojsonLayers s) →
  (∀ n e, (n, e) ∈ es → Obj.get n (desired_of data) = Some e) →
  pass_work data s r →
  foldl (upsert h1) (r, b) es = foldl (upsert h2) (r, b) es.
Proof.
  intros Hh Hag Hsf Hs. revert r b.
  induction es as [|[n e] es IH]; intros r b Hes W; [done |]. cbn [foldl].
  assert (∀ n' e', (n', e') ∈ es → Obj.get n' (desired_of data) = Some e')
    as Hes'.
  { intros n' e' Hin. by apply Hes, list_elem_of_further. }
  pose proof (Hes n e (list_elem_of_here _ _)) as He.
  rewrite <- (upsert_ext data h1 h2 s r b n e) by done.
  destruct (upsert_work data h1 s r b n e Hh W Hs He) as (W1 & _).
  destruct (upsert h1 (r, b) (n, e)) as [r1 b1]. by apply IH.
Qed.

Lemma sync_pass_ext data h1 h2 s :
  handler_ok data h1 → agree_below data s h1 h2 → surface_ok s →
  is_Some (geojsonLayers s) →
  sync_pass h1 data s = sync_pass h2 data s.
Proof.
  intros Hh Hag Hsf Hs. unfold sync_pass. f_equal.
  rewrite !sync_loops_eq, (ensure_tables_Some s Hs).
  unfold removal_pass.
  rewrite <- (removal_loop_ext data h1 h2 s (Obj.keys (layers s)) s)
    by (done || apply pass_work_refl).
  destruct (removal_loop_work data h1 s (Obj.keys (layers s)) s Hh Hs
              ltac:(done) (pass_work_refl data s)) as (W1 & _).
  set (s1 := foldl _ s (Obj.keys (layers s))) in *.
  rewrite <- (upsert_loop_ext data h1 h2 s (Obj.entries (desired_of data))
                s1 false); try done.
  intros n e Hin. by apply desired_elem.
Qed.

(** Once the depth allowed reaches the bound, allowing more changes
    nothing: the pass at depth [0] never fires the event. *)
Lemma sync_nested_enough data f :
  ∀ s m, is_Some (geojsonLayers s) → surface_ok s →
         (nesting_bound data s ≤ f)%nat → (f ≤ m)%nat →
         sync_nested m data s = sync_nested f data s.
Proof.
  induction f as [|f IH]; intros s m Hs Hsf Hb Hm.
  - destruct m as [|m]; [done |]. cbn [sync_nested].
    apply (sync_pass_ext data); try done; [apply sync_nested_handler |].
    intros s' _ _ Hlt. lia.
  - destruct m as [|m]; [lia |]. cbn [sync_nested].
    apply (sync_pass_ext data); try done; [apply sync_nested_handler |].
    intros s' Hs' Hsf' Hlt. apply IH; try done; lia.
Qed.
End Nesting.

(** ** A whole pass *)
Section SyncFacts.
Context `{!Host GeoJson Value LatLng}.
Local Abbreviation State := (@State GeoJson Value LatLng) (only parsing).
Local Abbreviation Entry := (@Entry GeoJson) (only parsing).
Local Abbreviation Data := (@Data GeoJson) (only parsing).
Local Abbreviation Layer := (@Layer Value LatLng) (only parsing).
Local Abbreviation Effect := (@Effect GeoJson Value) (only parsing).
Local Abbreviation Candidate := (@Candidate Value LatLng) (only parsing).
Implicit Types (st s : State) (name n : string) (entry : Entry) (data : Data)
  (h : State → State).

(** *** [_rebuildHoverIndex] touches the index and nothing else *)

Lemma rebuild_layers st : layers (_rebuildHoverIndex st) = layers st.
Proof. by rewrite rebuild_eq. Qed.

Lemma rebuild_data st : geojsonData (_rebuildHoverIndex st) = geojsonData st.
Proof. by rewrite rebuild_eq. Qed.

Lemma rebuild_hoverable st :
  geojsonHoverable (_rebuildHoverIndex st) = geojsonHoverable st.
Proof. by rewrite rebuild_eq. Qed.

Lemma rebuild_trace st :
  trace (_rebuildHoverIndex st) = trace st ++ [RebuiltHoverIndex].
Proof. by rewrite rebuild_eq. Qed.

Lemma rebuild_lmap s : lmap (_rebuildHoverIndex s) = lmap s.
Proof. by rewrite rebuild_eq. Qed.

Lemma rebuild_control s :
  geojsonControl (_rebuildHoverIndex s) = geojsonControl s.
Proof. by rewrite rebuild_eq. Qed.

Lemma build_index_ext st st' :
  lmap st = lmap st' → geojsonHoverable st = geojsonHoverable st' →
  gridCell st = gridCell st' → layers st = layers st' →
  build_index st = build_index st'.
Proof.
  intros Hm Hh Hg Hl. unfold build_index. rewrite Hl.
  generalize ((∅ : gmap string (list Candidate)),
              {| minX := PInf; maxX := NInf; minY := PInf; maxY := NInf |}).
  generalize (Obj.entries (layers st')). intros es.
  assert (∀ acc sub, index_sublayer st acc sub = index_sublayer st' acc sub)
    as Hsub.
  { intros acc sub. unfold index_sublayer, _cellKeyFromPoint.
    by rewrite Hm, Hg. }
  assert (∀ subs acc, foldl (index_sublayer st) acc subs =
                      foldl (index_sublayer st') acc subs) as Hsubs.
  { induction subs as [|sub subs IH]; intros acc; cbn [foldl]; [done |].
    by rewrite Hsub, IH. }
  induction es as [|[nm lyr] es IH]; intros acc; cbn [foldl]; [done |].
  rewrite IH. f_equal. unfold index_layer. by rewrite Hh, Hm, Hsubs.
Qed.

Lemma rebuild_twice s :
  _rebuildHoverIndex (_rebuildHoverIndex s) =
  emit RebuiltHoverIndex (_rebuildHoverIndex s).
Proof.
  rewrite (rebuild_eq (_rebuildHoverIndex s)).
  rewrite (build_index_ext (_rebuildHoverIndex s) s)
    by (by rewrite rebuild_eq).
  by rewrite rebuild_eq.
Qed.

(** *** A pass over reconciled tables *)

Lemma removal_pass_id h (desiredNames : gset string) st :
  (∀ k, k ∈ Obj.keys (layers st) → k ∈ desiredNames) →
  removal_pass h desiredNames st = st.
Proof.
  unfold removal_pass. generalize (Obj.keys (layers st)). intros ks.
  induction ks as [|k ks IH]; intros Hall; cbn [foldl]; [done |].
  rewrite bool_decide_eq_true_2 by apply Hall, list_elem_of_here.
  apply IH. intros k' Hk'. by apply Hall, list_elem_of_further.
Qed.

Lemma upsert_loop_id h (es : list (string * Entry)) st b :
  (∀ n entry, (n, entry) ∈ es → needsCreate st n entry = false) →
  foldl (upsert h) (st, b) es = (st, b).
Proof.
  induction es as [|[k e] es IH]; intros Hall; cbn [foldl]; [done |].
  unfold upsert at 2. rewrite (Hall k e) by apply list_elem_of_here.
  simpl. apply IH. intros n entry Hin. by apply Hall, list_elem_of_further.
Qed.

(** Over reconciled tables a pass is the rebuild and nothing else: no layer
    is taken off the map, and no event fired. *)
Lemma sync_pass_reconciled h data s :
  is_Some (geojsonLayers s) → reconciled data s →
  sync_pass h data s = _rebuildHoverIndex s.
Proof.
  intros Hs Hr. unfold sync_pass. f_equal.
  rewrite sync_loops_eq, (ensure_tables_Some s Hs).
  rewrite removal_pass_id.
  2: { intros k Hk. apply elem_of_names_get.
       destruct (Obj.get k (desired_of data)) eqn:E; [by eexists |].
       specialize (Hr k). rewrite (stale_undesired _ _ _ E) in Hr.
       apply obj_has_keys in Hk. congruence. }
  rewrite upsert_loop_id; [done |].
  intros n entry Hin. apply desired_elem in Hin.
  specialize (Hr n). by rewrite (stale_desired _ _ _ entry Hin) in Hr.
Qed.

Lemma sync_nested_reconciled depth data s :
  is_Some (geojsonLayers s) → reconciled data s →
  sync_nested depth data s = _rebuildHoverIndex s.
Proof. intros Hs Hr. destruct depth; by apply sync_pass_reconciled. Qed.

Lemma sync_geojsonLayers data st : is_Some (geojsonLayers (syncGeojson data st)).
Proof.
  destruct (sync_pass_whole data st) as [W _].
  apply (pw_tables _ _ _ W), ensure_tables_is_Some.
Qed.

(** Applying the same snapshot again changes nothing but the trace, which
    gains one rebuild. *)
Lemma sync_twice data st :
  syncGeojson data (syncGeojson data st) =
  emit RebuiltHoverIndex (syncGeojson data st).
Proof.
  unfold syncGeojson at 1.
  rewrite sync_nested_reconciled.
  - destruct (sync_work data st) as (s2 & -> & _). apply rebuild_twice.
  - apply sync_geojsonLayers.
  - apply sync_pass_whole.
Qed.

(** *** What a pass never touches *)

Lemma ensure_tables_fields st :
  gridCell (ensure_tables st) = gridCell st ∧
  hoverThresholdPx (ensure_tables st) = hoverThresholdPx st ∧
  hover (ensure_tables st) = hover st ∧
  _mmPending (ensure_tables st) = _mmPending st ∧
  _mmLast (ensure_tables st) = _mmLast st ∧
  lmap (ensure_tables st) = lmap st ∧
  next_id (ensure_tables st) = next_id st ∧
  trace (ensure_tables st) = trace st.
Proof. unfold ensure_tables. by destruct (geojsonLayers st). Qed.

Lemma sync_gridCell data st : gridCell (syncGeojson data st) = gridCell st.
Proof.
  destruct (sync_pass_whole data st) as [W _].
  rewrite (pw_gridCell _ _ _ W). apply ensure_tables_fields.
Qed.

Lemma sync_threshold data st :
  hoverThresholdPx (syncGeojson data st) = hoverThresholdPx st.
Proof.
  destruct (sync_pass_whole data st) as [W _].
  rewrite (pw_threshold _ _ _ W). apply ensure_tables_fields.
Qed.

Lemma sync_mmPending data st : _mmPending (syncGeojson data st) = _mmPending st.
Proof.
  destruct (sync_pass_whole data st) as [W _].
  rewrite (pw_pending _ _ _ W). apply ensure_tables_fields.
Qed.

Lemma sync_mmLast data st : _mmLast (syncGeojson data st) = _mmLast st.
Proof.
  destruct (sync_pass_whole data st) as [W _].
  rewrite (pw_last _ _ _ W). apply ensure_tables_fields.
Qed.

Lemma sync_hover data st : hover (syncGeojson data st) = hover st.
Proof.
  destruct (sync_pass_whole data st) as [W _].
  rewrite (pw_hover _ _ _ W). apply ensure_tables_fields.
Qed.

Lemma sync_hoverIndex data st :
  ∃ s : State, gridCell s = gridCell st ∧
       hoverIndex (syncGeojson data st) = Some (build_index s).1.
Proof.
  destruct (sync_work data st) as (s2 & -> & W & _). exists s2.
  split; [| by rewrite rebuild_eq].
  rewrite (pw_gridCell _ _ _ W). apply ensure_tables_fields.
Qed.

Lemma sync_hoverIndex_Some data st : is_Some (hoverIndex (syncGeojson data st)).
Proof. destruct (sync_hoverIndex data st) as (s & _ & ->). eauto. Qed.

Lemma pass_effects_ensure data st :
  pass_effects data st = effects (ensure_tables st) (syncGeojson data st).
Proof.
  unfold pass_effects, effects.
  by destruct (ensure_tables_fields st) as (_ & _ & _ & _ & _ & _ & _ & ->).
Qed.

(** *** The three table entries of a name after a pass *)

Lemma sync_absent data st n :
  n ∉ snapshot_names data →
  let st0 := ensure_tables st in
  let st' := syncGeojson data st in
  Obj.get n (layers st') = None ∧
  Obj.get n (geojsonData st') =
    (if decide (n ∈ Obj.keys (layers st0)) then None
     else Obj.get n (geojsonData st0)) ∧
  Obj.get n (geojsonHoverable st') =
    (if decide (n ∈ Obj.keys (layers st0)) then None
     else Obj.get n (geojsonHoverable st0)).
Proof.
  intros Hn. cbn zeta. rewrite <- desired_names, elem_of_names_get in Hn.
  assert (Obj.get n (desired_of data) = None) as Hu.
  { destruct (Obj.get n (desired_of data)); [| done]. exfalso. eauto. }
  destruct (sync_pass_whole data st) as [W Hr].
  specialize (Hr n). rewrite (stale_undesired _ _ _ Hu) in Hr.
  unfold Obj.has in Hr.
  destruct (Obj.get n (layers (syncGeojson data st))) eqn:Hl; [done |].
  split; [done |].
  destruct (pw_entries _ _ _ W n) as [(Hs1 & Hs2 & Hs3)|[Hc|Hrm]].
  - rewrite Hs2, Hs3. rewrite Hl in Hs1. symmetry in Hs1.
    apply obj_get_None_keys in Hs1. by rewrite !decide_False by done.
  - destruct Hc as (e & ? & He & _). congruence.
  - destruct Hrm as (_ & (lyr & Hg & _) & _ & -> & ->).
    rewrite !decide_True; [done | |]; apply obj_get_is_Some_keys; eauto.
Qed.

Lemma sync_present data st n entry :
  Obj.get n (desired_of data) = Some entry →
  let st0 := ensure_tables st in
  let st' := syncGeojson data st in
  Obj.get n (geojsonData st') = Some (JSON_stringify (geojson entry)) ∧
  Obj.get n (geojsonHoverable st') = Some (hoverable entry) ∧
  (if needsCreate st0 n entry
   then ∃ id, (next_id st0 ≤ id)%nat ∧
              Obj.get n (layers st') =
              Some {| layer_id := id;
                      eachLayer := L_geoJSON (geojson entry) |}
   else Obj.get n (layers st') = Obj.get n (layers st0)).
Proof.
  intros He. cbn zeta.
  destruct (sync_pass_whole data st) as [W Hr].
  specialize (Hr n). rewrite (stale_desired _ _ _ entry He) in Hr.
  apply needsCreate_false in Hr as (_ & Hd & Hh).
  split; [done |]. split; [done |].
  destruct (needsCreate (ensure_tables st) n entry) eqn:Hnc.
  - destruct (pw_entries _ _ _ W n) as [Hs|[Hc|Hrm]].
    + rewrite <- (same_entries_needsCreate _ _ n entry Hs) in Hnc.
      assert (needsCreate (syncGeojson data st) n entry = false) as Hf.
      { pose proof (proj2 (sync_pass_whole data st) n) as Hf.
        by rewrite (stale_desired _ _ _ entry He) in Hf. }
      congruence.
    + destruct Hc as (e & id & He' & _ & Hle & _ & Hl & _).
      assert (e = entry) as -> by congruence. by exists id.
    + destruct Hrm as (Hu & _). congruence.
  - apply (pass_work_settled data); [done |].
    by rewrite (stale_desired _ _ _ entry He).
Qed.

Lemma sync_present_layers data st n entry :
  Obj.get n (desired_of data) = Some entry →
  is_Some (Obj.get n (layers (syncGeojson data st))).
Proof.
  intros He. pose proof (proj2 (sync_pass_whole data st) n) as Hf.
  rewrite (stale_desired _ _ _ entry He) in Hf.
  apply needsCreate_false in Hf as (Hk & _). by apply obj_get_is_Some_keys.
Qed.
End SyncFacts.

Section InvariantFacts.
Context `{!Host GeoJson Value LatLng}.
Local Abbreviation State := (@State GeoJson Value LatLng) (only parsing).
Local Abbreviation Entry := (@Entry GeoJson) (only parsing).
Local Abbreviation Data := (@Data GeoJson) (only parsing).
Implicit Types (st : State) (name n : string) (entry : Entry) (data : Data).

Lemma ensure_tables_aligned st :
  (is_Some (geojsonLayers st) → tables_aligned st) →
  tables_aligned (ensure_tables st).
Proof.
  unfold ensure_tables. destruct (geojsonLayers st) eqn:Hl.
  - intros Hal. apply Hal. eauto.
  - intros _. split; simpl; done.
Qed.

(** After a pass the three tables have exactly the names of the snapshot,
    provided that the tables were aligned before. *)
Lemma sync_names data st :
  (is_Some (geojsonLayers st) → tables_aligned st) →
  let st' := syncGeojson data st in
  names (layers st') = snapshot_names data ∧
  names (geojsonData st') = snapshot_names data ∧
  names (geojsonHoverable st') = snapshot_names data.
Proof.
  intros Hal. apply ensure_tables_aligned in Hal as [Hd Hh]. cbn zeta.
  assert (∀ n, n ∈ snapshot_names data →
            is_Some (Obj.get n (layers (syncGeojson data st))) ∧
            is_Some (Obj.get n (geojsonData (syncGeojson data st))) ∧
            is_Some (Obj.get n (geojsonHoverable (syncGeojson data st))))
    as Hin.
  { intros n Hn. rewrite <- desired_names in Hn.
    apply elem_of_names_get in Hn as [entry Hg].
    destruct (sync_present data st n entry Hg) as (-> & -> & Hl).
    split; [| by eauto]. by apply (sync_present_layers data st n entry). }
  assert (∀ n, n ∉ snapshot_names data →
            Obj.get n (layers (syncGeojson data st)) = None ∧
            Obj.get n (geojsonData (syncGeojson data st)) = None ∧
            Obj.get n (geojsonHoverable (syncGeojson data st)) = None)
    as Hout.
  { intros n Hn. destruct (sync_absent data st n Hn) as (-> & -> & ->).
    split; [done |]. case_decide as Hk; [done |].
    rewrite <- elem_of_names in Hk. split.
    - destruct (Obj.get n (geojsonData (ensure_tables st))) eqn:Hg; [| done].
      exfalso. apply Hk, Hd, elem_of_names_get. by rewrite Hg.
    - destruct (Obj.get n (geojsonHoverable (ensure_tables st))) eqn:Hg;
        [| done].
      exfalso. apply Hk, Hh, elem_of_names_get. by rewrite Hg. }
  repeat split; apply set_eq; intros n; rewrite elem_of_names_get;
    (destruct (decide (n ∈ snapshot_names data)) as [Hn|Hn];
     [ split; [done | intros _; by apply Hin]
     | split; [| done];
       destruct (Hout n Hn) as (H1 & H2 & H3);
       rewrite ?H1, ?H2, ?H3; intros [? ?]; done ]).
Qed.

Lemma sync_aligned data st :
  (is_Some (geojsonLayers st) → tables_aligned st) →
  tables_aligned (syncGeojson data st).
Proof.
  intros Hal. destruct (sync_names data st Hal) as (H1 & H2 & H3).
  unfold tables_aligned. by rewrite H1, H2, H3.
Qed.

Lemma sync_surface data s :
  is_Some (geojsonLayers s) → surface_ok s → surface_ok (syncGeojson data s).
Proof.
  intros Hs Hsf. destruct (sync_pass_whole data s) as [W _].
  rewrite (ensure_tables_Some s Hs) in W. by apply (pw_surface _ _ _ W).
Qed.
End InvariantFacts.

(** *** The number of rebuilds *)
Section PassCount.
Context `{!Host GeoJson Value LatLng}.
Local Abbreviation State := (@State GeoJson Value LatLng) (only parsing).
Local Abbreviation Entry := (@Entry GeoJson) (only parsing).
Local Abbreviation Data := (@Data GeoJson) (only parsing).
Local Abbreviation Layer := (@Layer Value LatLng) (only parsing).
Local Abbreviation Effect := (@Effect GeoJson Value) (only parsing).
Implicit Types (st s r : State) (name n k nm : string) (entry e : Entry)
  (data : Data) (lyr old : Layer) (id : nat) (h : State → State).

Lemma rebuilds_app (t1 t2 : list Effect) :
  rebuilds (t1 ++ t2) = (rebuilds t1 + rebuilds t2)%nat.
Proof. unfold rebuilds. by rewrite filter_app, length_app. Qed.

Lemma rebuilds_none (t : list Effect) :
  (∀ x, x ∈ t → is_rebuild x = false) → rebuilds t = 0%nat.
Proof.
  unfold rebuilds. induction t as [|x t IH]; intros Hall; [done |].
  rewrite filter_cons_False.
  - apply IH. intros x' Hx'. apply Hall. by apply list_elem_of_further.
  - rewrite (Hall x) by apply list_elem_of_here. done.
Qed.

Lemma effects_step s r r' (l : list Effect) :
  trace r = trace s ++ effects s r → trace r' = trace r ++ l →
  effects s r' = effects s r ++ l.
Proof.
  intros H1 H2. apply effects_app_trace. rewrite H2. rewrite H1 at 1.
  by rewrite <- app_assoc.
Qed.

Lemma reconciled_bound data s : reconciled data s → nesting_bound data s = 0%nat.
Proof.
  intros Hr. unfold nesting_bound. apply size_empty_iff. intros n. split.
  - rewrite elem_of_shown_stale. intros (Hst & _). by rewrite Hr in Hst.
  - by intros ?%elem_of_empty.
Qed.

Lemma nesting_bound_ext data r r' :
  (∀ n, (stale data r' n = true ∧
         ∃ lyr, Obj.get n (layers r') = Some lyr ∧
                layer_id lyr ∈ map_layers (lmap r')) ↔
        (stale data r n = true ∧
         ∃ lyr, Obj.get n (layers r) = Some lyr ∧
                layer_id lyr ∈ map_layers (lmap r))) →
  nesting_bound data r' = nesting_bound data r.
Proof.
  intros Heq. unfold nesting_bound. f_equal. apply set_eq. intros n.
  by rewrite !elem_of_shown_stale.
Qed.

(** Removing an overlay whose layer is hidden leaves the bound as it is. *)
Lemma forget_bound data r k lyr :
  Obj.get k (layers r) = Some lyr →
  layer_id lyr ∉ map_layers (lmap r) →
  nesting_bound data (forget_overlay k (unlist lyr r)) = nesting_bound data r.
Proof.
  intros Hg Hoff. set (r' := forget_overlay k (unlist lyr r)).
  assert (layers r' = Obj.delete k (layers r)) as Hl by done.
  assert (geojsonData r' = Obj.delete k (geojsonData r)) as Hd by done.
  assert (geojsonHoverable r' = Obj.delete k (geojsonHoverable r)) as Hh
    by done.
  assert (lmap r' = lmap r) as Hm by done.
  clearbody r'. apply nesting_bound_ext. intros n. rewrite Hm.
  destruct (decide (n = k)) as [->|Hne].
  - rewrite Hl, obj_get_delete_eq, Hg. split.
    + by intros (_ & ? & ? & _).
    + intros (_ & l & [= <-] & Hin). done.
  - rewrite (same_entries_stale data r r' n).
    2: { unfold same_entries.
         by rewrite Hl, Hd, Hh, !(obj_get_delete_ne k n) by done. }
    by rewrite Hl, (obj_get_delete_ne k n) by done.
Qed.

(** So does creating an overlay, or replacing one whose layer is hidden. *)
Lemma create_bound data r k entry :
  (∀ n lyr, Obj.get n (layers r) = Some lyr →
            (layer_id lyr < next_id r)%nat) →
  Obj.get k (desired_of data) = Some entry →
  (∀ lyr, Obj.get k (layers r) = Some lyr →
          layer_id lyr ∉ map_layers (lmap r)) →
  nesting_bound data
    (create_overlay k entry
       (from_option (λ lyr, unlist lyr r) r (Obj.get k (layers r)))) =
  nesting_bound data r.
Proof.
  intros Hid He Hoff.
  pose proof (create_stale data r k entry (Obj.get k (layers r)) k He
                (or_introl eq_refl)) as Hfresh.
  set (r0 := from_option _ _ _) in *.
  assert (layers r0 = layers r ∧ geojsonData r0 = geojsonData r ∧
          geojsonHoverable r0 = geojsonHoverable r ∧ lmap r0 = lmap r ∧
          next_id r0 = next_id r) as (E1 & E2 & E3 & E4 & E5).
  { subst r0. by destruct (Obj.get k (layers r)). }
  set (r' := create_overlay k entry r0) in *.
  assert (layers r' =
          Obj.set k {| layer_id := next_id r0;
                       eachLayer := L_geoJSON (geojson entry) |}
                  (layers r)) as Hl
    by (subst r'; unfold create_overlay; simpl; by rewrite <- E1).
  assert (geojsonData r' =
          Obj.set k (JSON_stringify (geojson entry)) (geojsonData r)) as Hd
    by (subst r'; unfold create_overlay; simpl; by rewrite <- E2).
  assert (geojsonHoverable r' =
          Obj.set k (hoverable entry) (geojsonHoverable r)) as Hho
    by (subst r'; unfold create_overlay; simpl; by rewrite <- E3).
  assert (lmap r' = addLayer (lmap r) (next_id r)) as Hm
    by (subst r'; unfold create_overlay; simpl; by rewrite E4, E5).
  clearbody r'. clearbody r0.
  apply nesting_bound_ext. intros n. rewrite Hm.
  destruct (decide (n = k)) as [->|Hne].
  - rewrite Hfresh. split; [by intros [? _] |].
    intros (_ & l & Hg & Hin). by apply (Hoff l) in Hin.
  - rewrite (same_entries_stale data r r' n).
    2: { unfold same_entries.
         by rewrite Hl, Hd, Hho, !(obj_get_set_ne k n) by done. }
    rewrite Hl, (obj_get_set_ne k n) by done.
    split; intros (Hst & l & Hg & Hin); (split; [done |]); exists l;
      (split; [done |]).
    + apply elem_of_addLayer in Hin as [?|Heq]; [done |].
      apply Hid in Hg. lia.
    + apply elem_of_addLayer. by left.
Qed.

(** Taking the shown layer of a stale name off the map lowers the bound by
    one. *)
Lemma nesting_bound_pred data r k lyr :
  surface_ok r →
  Obj.get k (layers r) = Some lyr → stale data r k = true →
  hasLayer (lmap r) (layer_id lyr) = true →
  nesting_bound data r =
  S (nesting_bound data (set_lmap (removeLayer (lmap r) (layer_id lyr)) r)).
Proof.
  intros (_ & Hinj & _) Hg Hst Hon. apply hasLayer_true in Hon.
  set (r0 := set_lmap _ r).
  assert (∀ m, stale data r0 m = stale data r m) as Hsame.
  { intros m. by apply same_entries_stale. }
  unfold nesting_bound.
  set (X := filter _ (names (layers r))).
  set (X0 := filter _ (names (layers r0))).
  assert (k ∉ X0) as Hk.
  { subst X0. rewrite elem_of_shown_stale. intros (_ & l & Hgl & Hin).
    change (layers r0) with (layers r) in Hgl.
    assert (l = lyr) as -> by congruence.
    by apply elem_of_removeLayer in Hin as [_ ?]. }
  assert (X = {[k]} ∪ X0) as ->.
  { apply set_eq. intros m. subst X X0.
    rewrite elem_of_union, elem_of_singleton, !elem_of_shown_stale, Hsame.
    change (layers r0) with (layers r). split.
    - intros (Hm & l & Hgl & Hin).
      destruct (decide (m = k)) as [|Hne]; [by left |]. right.
      split; [done |]. exists l. split; [done |].
      apply elem_of_removeLayer. split; [done |].
      intros Heq. apply Hne. by apply (Hinj m l k lyr).
    - intros [->|(Hm & l & Hgl & Hin)].
      + split; [done |]. by exists lyr.
      + split; [done |]. exists l. split; [done |].
        by apply elem_of_removeLayer in Hin as [? _]. }
  rewrite size_union by by apply disjoint_singleton_l.
  by rewrite size_singleton.
Qed.

Lemma listed_true r k lyr :
  surface_ok r → Obj.get k (layers r) = Some lyr →
  bool_decide (layer_id lyr ∈ (geojsonControl r).*1) = true.
Proof.
  intros (_ & _ & Hl & _) Hg. apply bool_decide_eq_true, listed_elem.
  exists k. by apply Hl.
Qed.

(** [state.map.removeLayer] for the layer of a stale name, in the course of
    a pass: the rebuilds of the passes that it starts make up for the drop
    of the bound. *)
Lemma map_removeLayer_count data h s r k lyr :
  handler_ok data h → counts_rebuilds data s h →
  is_Some (geojsonLayers s) → surface_ok s → pass_work data s r →
  Obj.get k (layers r) = Some lyr → stale data r k = true →
  let rm := map_removeLayer h lyr r in
  (rm = r ∧ layer_id lyr ∉ map_layers (lmap r)) ∨
  (reconciled data rm ∧
   ∃ l, trace rm = trace r ++ l ∧ rebuilds l = nesting_bound data r).
Proof.
  intros Hh Hc Hs Hsf W Hg Hst. cbn zeta. unfold map_removeLayer.
  pose proof (pw_surface _ _ _ W Hsf) as Hsr.
  pose proof (pw_tables _ _ _ W Hs) as Hsome.
  destruct (hasLayer (lmap r) (layer_id lyr)) eqn:Hon.
  2: { left. split; [done |]. by apply hasLayer_false. }
  right. rewrite (listed_true r k lyr) by done.
  set (r0 := set_lmap _ r).
  pose proof (nesting_bound_pred data r k lyr Hsr Hg Hst Hon) as Hb.
  fold r0 in Hb.
  destruct (Hc r0) as [Hcount Hrec]; [done | |  |].
  - apply (surface_ok_shrink r); try done.
    intros id Hin. by apply elem_of_removeLayer in Hin as [? _].
  - pose proof (nesting_bound_mono data s r W Hsf). lia.
  - split; [done |]. exists (effects r0 (h r0)). split.
    + apply (pw_trace _ _ _ (Hh r0 Hsome)).
    + lia.
Qed.

Lemma remove_overlay_count data h s r k :
  handler_ok data h → counts_rebuilds data s h →
  is_Some (geojsonLayers s) → surface_ok s → pass_work data s r →
  k ∈ Obj.keys (layers s) → Obj.get k (desired_of data) = None →
  (rebuilds (effects s r) + nesting_bound data r = nesting_bound data s)%nat →
  (rebuilds (effects s (remove_overlay h k r)) +
   nesting_bound data (remove_overlay h k r) = nesting_bound data s)%nat.
Proof.
  intros Hh Hc Hs Hsf W Hk Hu HI. unfold remove_overlay.
  pose proof (pw_trace _ _ _ W) as Htr.
  destruct (Obj.get k (layers r)) as [lyr|] eqn:Hg.
  - assert (stale data r k = true) as Hst
      by by apply (stale_undesired_true data r k lyr).
    unfold detach.
    destruct (map_removeLayer_count data h s r k lyr Hh Hc Hs Hsf W Hg Hst)
      as [[-> Hoff]|(Hrec & l & Hl & Hn)].
    + rewrite (forget_bound data r k lyr Hg Hoff).
      rewrite (effects_step s r _ [DetachedLayer (layer_id lyr)] Htr)
        by done.
      rewrite rebuilds_app. change (rebuilds [_]) with 0%nat. lia.
    + set (rm := map_removeLayer h lyr r) in *.
      rewrite (reconciled_bound data (forget_overlay k (unlist lyr rm))).
      2: { intros m. apply forget_stale; [done |]. right. apply Hrec. }
      rewrite (effects_step s r _ (l ++ [DetachedLayer (layer_id lyr)]) Htr).
      2: { change (trace (forget_overlay k (unlist lyr rm)))
             with (trace rm ++ [DetachedLayer (layer_id lyr)]).
           by rewrite Hl, <- app_assoc. }
      rewrite !rebuilds_app. change (rebuilds [_]) with 0%nat. lia.
  - destruct (pw_entries _ _ _ W k) as [Hsame|[Hr|Hrm]].
    + destruct Hsame as (Hsame & _). rewrite Hg in Hsame.
      apply obj_get_is_Some_keys in Hk as [? Hk]. congruence.
    + destruct Hr as (e & ? & He & _). congruence.
    + destruct Hrm as (_ & _ & _ & Hd & Hho).
      rewrite forget_overlay_absent; [done | | done | done | done].
      apply (pw_tables _ _ _ W Hs).
Qed.

Lemma upsert_count data h s r b k entry :
  handler_ok data h → counts_rebuilds data s h →
  is_Some (geojsonLayers s) → surface_ok s → pass_work data s r →
  Obj.get k (desired_of data) = Some entry →
  (rebuilds (effects s r) + nesting_bound data r = nesting_bound data s)%nat →
  let r' := (upsert h (r, b) (k, entry)).1 in
  (rebuilds (effects s r') + nesting_bound data r' = nesting_bound data s)%nat.
Proof.
  intros Hh Hc Hs Hsf W He HI. cbn zeta. unfold upsert.
  pose proof (pw_trace _ _ _ W) as Htr.
  pose proof (pw_surface _ _ _ W Hsf) as Hsr.
  destruct (needsCreate r k entry) eqn:Hnc; cbn [negb fst]; [| done].
  assert (stale data r k = true) as Hst
    by by rewrite (stale_desired _ _ _ entry).
  destruct (Obj.get k (layers r)) as [old|] eqn:Hg.
  - unfold detach.
    destruct (map_removeLayer_count data h s r k old Hh Hc Hs Hsf W Hg Hst)
      as [[-> Hoff]|(Hrec & l & Hl & Hn)].
    + pose proof (create_bound data r k entry) as Hb. rewrite Hg in Hb.
      cbn [from_option] in Hb. rewrite Hb; [| apply Hsr | done |].
      2: { by intros ? [= <-]. }
      rewrite (effects_step s r _
                 [DetachedLayer (layer_id old);
                  CreatedLayer k (geojson entry) (next_id r)] Htr).
      2: { unfold create_overlay. simpl. by rewrite <- app_assoc. }
      rewrite rebuilds_app. change (rebuilds [_; _]) with 0%nat. lia.
    + set (rm := map_removeLayer h old r) in *.
      pose proof (create_stale data rm k entry (Some old)) as Hf.
      cbn [from_option] in Hf.
      rewrite (reconciled_bound data (create_overlay k entry (unlist old rm))).
      2: { intros m. apply Hf; [done |]. right. apply Hrec. }
      rewrite (effects_step s r _
                 (l ++ [DetachedLayer (layer_id old);
                        CreatedLayer k (geojson entry) (next_id rm)]) Htr).
      2: { unfold create_overlay. simpl. by rewrite Hl, <- !app_assoc. }
      rewrite !rebuilds_app.
      change (rebuilds [_; _]) with 0%nat. lia.
  - pose proof (create_bound data r k entry) as Hb. rewrite Hg in Hb.
    cbn [from_option] in Hb. rewrite Hb; [| apply Hsr | done | done].
    rewrite (effects_step s r _
               [CreatedLayer k (geojson entry) (next_id r)] Htr).
    2: { unfold create_overlay. by simpl. }
    rewrite rebuilds_app.
    change (rebuilds [_]) with 0%nat. lia.
Qed.

Lemma removal_loop_count data h s ks r :
  handler_ok data h → counts_rebuilds data s h →
  is_Some (geojsonLayers s) → surface_ok s →
  (∀ k, k ∈ ks → k ∈ Obj.keys (layers s)) →
  pass_work data s r →
  (rebuilds (effects s r) + nesting_bound data r = nesting_bound data s)%nat →
  let r' :=
    foldl (λ st name,
             if bool_decide (name ∈ names (desired_of data)) then st
             else remove_overlay h name st) r ks in
  (rebuilds (effects s r') + nesting_bound data r' = nesting_bound data s)%nat.
Proof.
  intros Hh Hc Hs Hsf. revert r.
  induction ks as [|k ks IH]; intros r Hks W HI; cbn zeta; [done |].
  cbn [foldl].
  assert (∀ k', k' ∈ ks → k' ∈ Obj.keys (layers s)) as Hks'.
  { intros k' Hk'. by apply Hks, list_elem_of_further. }
  case_bool_decide as Hd; [by apply IH |].
  assert (Obj.get k (desired_of data) = None) as Hu.
  { destruct (Obj.get k (desired_of data)) eqn:E; [| done].
    exfalso. apply Hd, elem_of_names_get. by rewrite E. }
  pose proof (Hks k (list_elem_of_here _ _)) as Hk.
  apply IH; [done | |].
  - by apply (remove_overlay_work data h s r k).
  - by apply remove_overlay_count.
Qed.

Lemma upsert_loop_count data h s (es : list (string * Entry)) r b :
  handler_ok data h → counts_rebuilds data s h →
  is_Some (geojsonLayers s) → surface_ok s →
  (∀ n e, (n, e) ∈ es → Obj.get n (desired_of data) = Some e) →
  pass_work data s r →
  (rebuilds (effects s r) + nesting_bound data r = nesting_bound data s)%nat →
  let r' := (foldl (upsert h) (r, b) es).1 in
  (rebuilds (effects s r') + nesting_bound data r' = nesting_bound data s)%nat.
Proof.
  intros Hh Hc Hs Hsf. revert r.
  induction es as [|[n e] es IH]; intros r Hes W HI; cbn zeta; [done |].
  rewrite upsert_loop_cons.
  assert (∀ n' e', (n', e') ∈ es → Obj.get n' (desired_of data) = Some e')
    as Hes'.
  { intros n' e' Hin. by apply Hes, list_elem_of_further. }
  pose proof (Hes n e (list_elem_of_here _ _)) as He.
  apply IH; [done | |].
  - by apply (upsert_work data h s r b n e).
  - by apply upsert_count.
Qed.

(** A pass rebuilds the index once at its end, and once more for every
    stale name whose layer is on the map when it starts. *)
Lemma sync_pass_count data h s :
  handler_ok data h → counts_rebuilds data s h →
  is_Some (geojsonLayers s) → surface_ok s →
  rebuilds (effects s (sync_pass h data s)) = S (nesting_bound data s).
Proof.
  intros Hh Hc Hs Hsf. unfold sync_pass.
  destruct (sync_loops_work data h s Hh Hs) as (W & Hr).
  assert (rebuilds (effects s (sync_loops h data s)) +
          nesting_bound data (sync_loops h data s) =
          nesting_bound data s)%nat as HI.
  { rewrite sync_loops_eq, (ensure_tables_Some s Hs). unfold removal_pass.
    destruct (removal_loop_work data h s (Obj.keys (layers s)) s Hh Hs
                ltac:(done) (pass_work_refl data s)) as (W1 & _).
    pose proof (removal_loop_count data h s (Obj.keys (layers s)) s Hh Hc Hs
                  Hsf ltac:(done) (pass_work_refl data s)) as H1.
    cbn zeta in H1. rewrite effects_refl in H1. specialize (H1 eq_refl).
    set (s1 := foldl _ s (Obj.keys (layers s))) in *.
    apply (upsert_loop_count data h s); try done.
    intros n e Hin. by apply desired_elem. }
  rewrite (reconciled_bound data _ Hr) in HI.
  rewrite (effects_step s (sync_loops h data s) _ [RebuiltHoverIndex]
             (pw_trace _ _ _ W)) by apply rebuild_trace.
  rewrite rebuilds_app. change (rebuilds [RebuiltHoverIndex]) with 1%nat. lia.
Qed.

Lemma sync_nested_reconciles depth data st :
  reconciled data (sync_nested depth data st).
Proof.
  destruct (sync_nested_work depth data st) as (s2 & -> & _ & Hr).
  by apply rebuild_reconciled.
Qed.

(** With passes allowed to nest as deep as the bound, a pass rebuilds the
    index once and once more for every stale name whose layer is on the
    map. *)
Lemma sync_nested_count data f :
  ∀ s, is_Some (geojsonLayers s) → surface_ok s →
       (nesting_bound data s ≤ f)%nat →
       rebuilds (effects s (sync_nested f data s)) = S (nesting_bound data s).
Proof.
  induction f as [|f IH]; intros s Hs Hsf Hb; cbn [sync_nested];
    apply sync_pass_count; try done.
  - intros s' _. apply pass_work_refl.
  - intros s' _ _ Hlt. lia.
  - apply sync_nested_handler.
  - intros s' Hs' Hsf' Hlt. split; [| apply sync_nested_reconciles].
    apply IH; try done. lia.
Qed.
End PassCount.

(** ** The states of a rendered widget *)
Section ReachableFacts.
Context `{!Host GeoJson Value LatLng}.
Local Abbreviation State := (@State GeoJson Value LatLng) (only parsing).
Local Abbreviation Entry := (@Entry GeoJson) (only parsing).
Local Abbreviation Data := (@Data GeoJson) (only parsing).
Local Abbreviation Candidate := (@Candidate Value LatLng) (only parsing).
Implicit Types (st : State) (data : Data)
  (idx : gmap string (list Candidate)).

Ltac solve_proj :=
  intros;
  unfold onMouseMove, onMouseMove_frame, onMouseOut, showHover, hide_hover,
    onViewportChange;
  rewrite ?rebuild_eq;
  repeat (simpl; case_match); simpl; try done.

Lemma index_filed_ext st st' idx :
  gridCell st = gridCell st' → index_filed st idx → index_filed st' idx.
Proof.
  intros Hg Hf k arr c Hl Hin. destruct (Hf k arr c Hl Hin) as (? & ? & Hk).
  split; [done |]. split; [done |].
  unfold _cellKeyFromPoint in *. by rewrite <- Hg.
Qed.

(** The facts about the hover index that hold in every state of a rendered
    widget. *)
Lemma step_hover_inv st st' :
  step st st' →
  gridCell st = Fin 25 ∧ hoverThresholdPx st = Fin 25 ∧
    (∀ idx, hoverIndex st = Some idx → index_filed st idx) →
  gridCell st' = Fin 25 ∧ hoverThresholdPx st' = Fin 25 ∧
    (∀ idx, hoverIndex st' = Some idx → index_filed st' idx).
Proof.
  intros Hstep (Hg & Ht & Hf).
  assert (∀ data s, gridCell s = Fin 25 → hoverThresholdPx s = Fin 25 →
            gridCell (syncGeojson data s) = Fin 25 ∧
            hoverThresholdPx (syncGeojson data s) = Fin 25 ∧
            ∀ idx, hoverIndex (syncGeojson data s) = Some idx →
                   index_filed (syncGeojson data s) idx) as Hsync.
  { intros data s Hgs Hts.
    rewrite sync_gridCell, sync_threshold. split; [done |]. split; [done |].
    intros idx Hi. destruct (sync_hoverIndex data s) as (s' & Hg' & Hi').
    rewrite Hi' in Hi. injection Hi as <-.
    apply (index_filed_ext s'); [by rewrite sync_gridCell |].
    apply build_index_filed. }
  destruct Hstep as [data st|data id st Hid|project st|data ev st|st Hp|st
                    |data st].
  - by apply Hsync.
  - unfold onOverlayToggle. by apply Hsync.
  - unfold onViewportChange. rewrite rebuild_eq. simpl.
    split; [done |]. split; [done |]. intros idx [= <-].
    eapply index_filed_ext; [| apply build_index_filed]. done.
  - assert (gridCell (onMouseMove data ev st) = gridCell st ∧
            hoverThresholdPx (onMouseMove data ev st) = hoverThresholdPx st ∧
            hoverIndex (onMouseMove data ev st) = hoverIndex st)
      as (Hg' & Ht' & Hi') by (repeat split; solve_proj).
    rewrite Hg', Ht', Hi'. split; [done |]. split; [done |].
    intros idx Hi. eapply index_filed_ext; [| by apply Hf]. by rewrite Hg'.
  - assert (gridCell (onMouseMove_frame st) = gridCell st ∧
            hoverThresholdPx (onMouseMove_frame st) = hoverThresholdPx st ∧
            hoverIndex (onMouseMove_frame st) = hoverIndex st)
      as (Hg' & Ht' & Hi') by (repeat split; solve_proj).
    rewrite Hg', Ht', Hi'. split; [done |]. split; [done |].
    intros idx Hi. eapply index_filed_ext; [| by apply Hf]. by rewrite Hg'.
  - assert (gridCell (onMouseOut st) = gridCell st ∧
            hoverThresholdPx (onMouseOut st) = hoverThresholdPx st ∧
            hoverIndex (onMouseOut st) = hoverIndex st)
      as (Hg' & Ht' & Hi') by (repeat split; solve_proj).
    rewrite Hg', Ht', Hi'. split; [done |]. split; [done |].
    intros idx Hi. eapply index_filed_ext; [| by apply Hf]. by rewrite Hg'.
  - assert (gridCell (showHover data st) = gridCell st ∧
            hoverThresholdPx (showHover data st) = hoverThresholdPx st ∧
            hoverIndex (showHover data st) = hoverIndex st)
      as (Hg' & Ht' & Hi') by (repeat split; solve_proj).
    rewrite Hg', Ht', Hi'. split; [done |]. split; [done |].
    intros idx Hi. eapply index_filed_ext; [| by apply Hf]. by rewrite Hg'.
Qed.

Lemma reachable_hover_inv st :
  reachable st →
  gridCell st = Fin 25 ∧ hoverThresholdPx st = Fin 25 ∧
    (∀ idx, hoverIndex st = Some idx → index_filed st idx).
Proof.
  intros [project Hr]. revert st Hr.
  apply (rtc_ind_r _ (render project)); [done |].
  intros s1 s2 _ Hstep IH. by eapply step_hover_inv.
Qed.

Lemma step_tables_inv st st' :
  step st st' →
  is_Some (geojsonLayers st) ∧ tables_aligned st →
  is_Some (geojsonLayers st') ∧ tables_aligned st'.
Proof.
  intros Hstep [Hs Hal].
  assert (∀ h : State → State,
            geojsonLayers (h st) = geojsonLayers st →
            geojsonData (h st) = geojsonData st →
            geojsonHoverable (h st) = geojsonHoverable st →
            is_Some (geojsonLayers (h st)) ∧ tables_aligned (h st)) as Hsame.
  { intros h H1 H2 H3. unfold tables_aligned, layers.
    by rewrite H1, H2, H3. }
  destruct Hstep as [data st|data id st Hid|project st|data ev st|st Hp|st
                    |data st].
  - split; [apply sync_geojsonLayers | by apply sync_aligned].
  - unfold onOverlayToggle.
    split; [apply sync_geojsonLayers | by apply sync_aligned].
  - apply (Hsame (onViewportChange project)); solve_proj.
  - apply (Hsame (onMouseMove data ev)); solve_proj.
  - apply (Hsame onMouseMove_frame); solve_proj.
  - apply (Hsame onMouseOut); solve_proj.
  - apply (Hsame (showHover data)); solve_proj.
Qed.

Lemma reachable_tables_inv st :
  reachable st → is_Some (geojsonLayers st) ∧ tables_aligned st.
Proof.
  intros [project Hr]. revert st Hr.
  apply (rtc_ind_r _ (render project)).
  - split; [by eexists | done].
  - intros s1 s2 _ Hstep IH. by eapply step_tables_inv.
Qed.
End ReachableFacts.


(** ** The map and the layers control in a rendered widget *)
Section SurfaceReachable.
Context `{!Host GeoJson Value LatLng}.
Local Abbreviation State := (@State GeoJson Value LatLng) (only parsing).
Local Abbreviation Entry := (@Entry GeoJson) (only parsing).
Local Abbreviation Data := (@Data GeoJson) (only parsing).
Local Abbreviation Layer := (@Layer Value LatLng) (only parsing).
Local Abbreviation LMap := (@LMap LatLng) (only parsing).
Implicit Types (st s : State) (data : Data) (name n nm k : string)
  (entry : Entry) (lyr old : Layer) (m : LMap) (id : nat).

(** A handler that touches neither the tables nor the control keeps the
    invariant if it only puts on the map the marker or a layer that the
    control lists. *)
Lemma surface_ok_map s s' :
  layers s' = layers s → geojsonControl s' = geojsonControl s →
  next_id s' = next_id s → hover_id (hover s') = hover_id (hover s) →
  (∀ id, id ∈ map_layers (lmap s') →
         id ∈ map_layers (lmap s) ∨ id = hover_id (hover s) ∨
         id ∈ (geojsonControl s).*1) →
  surface_ok s → surface_ok s'.
Proof.
  intros Hl Hc Hn Hh Hm (S1 & S2 & S3 & S4 & S5 & S6 & S7 & S8).
  unfold surface_ok, no_orphans. rewrite Hl, Hc, Hn, Hh.
  repeat split; try done.
  - intros id Hid. destruct (Hm id Hid) as [?|[->|Hctl]];
      [by apply S4 | done |].
    apply listed_elem in Hctl as [nm Hin]. by apply (S5 id nm).
  - intros id Hid. destruct (Hm id Hid) as [?|[->|Hctl]];
      [by apply S8 | by left |].
    right. by apply listed_elem.
Qed.

Lemma frame_map st id :
  id ∈ map_layers (lmap (onMouseMove_frame st)) →
  id ∈ map_layers (lmap st) ∨ id = hover_id (hover st).
Proof.
  unfold onMouseMove_frame, hide_hover.
  cbn -[queryNearest featureText hasLayer addLayer removeLayer].
  destruct (_mmLast st) as [e|]; [| by left].
  destruct (hoverIndex st) as [idx|]; [| by left].
  destruct (queryNearest _ idx _) as [best|];
    cbn -[queryNearest featureText hasLayer addLayer removeLayer];
    destruct (hasLayer (lmap st) (hover_id (hover st)));
    cbn -[queryNearest featureText hasLayer addLayer removeLayer];
    rewrite ?elem_of_addLayer, ?elem_of_removeLayer; tauto.
Qed.

Lemma hide_hover_map st id :
  id ∈ map_layers (lmap (hide_hover st)) → id ∈ map_layers (lmap st).
Proof.
  unfold hide_hover. destruct (hasLayer (lmap st) (hover_id (hover st)));
    cbn -[removeLayer]; rewrite ?elem_of_removeLayer; tauto.
Qed.

Ltac solve_same :=
  unfold onMouseMove, onMouseMove_frame, onMouseOut, showHover, hide_hover;
  repeat (cbn -[queryNearest featureText hasLayer addLayer removeLayer];
          case_match);
  cbn -[queryNearest featureText hasLayer addLayer removeLayer]; done.

(** Ticking or unticking a listed layer keeps the invariant. *)
Lemma toggle_surface st id :
  id ∈ (geojsonControl st).*1 → surface_ok st →
  surface_ok
    (set_lmap (if hasLayer (lmap st) id then removeLayer (lmap st) id
               else addLayer (lmap st) id) st).
Proof.
  intros Hid Hok. apply (surface_ok_map st); try done.
  intros id' Hin. cbn -[hasLayer addLayer removeLayer] in Hin.
  destruct (hasLayer (lmap st) id).
  - apply elem_of_removeLayer in Hin as [? _]. by left.
  - apply elem_of_addLayer in Hin as [?| ->]; [by left | by right; right].
Qed.

Lemma step_surface_inv st st' :
  step st st' →
  is_Some (geojsonLayers st) ∧ surface_ok st → surface_ok st'.
Proof.
  intros Hstep [Hs Hok].
  destruct Hstep as [data st|data id st Hid|project st|data ev st|st Hp|st
                    |data st].
  - by apply sync_surface.
  - unfold onOverlayToggle. apply sync_surface; [done |].
    by apply toggle_surface.
  - unfold onViewportChange. apply (surface_ok_map st); try done;
      try by rewrite rebuild_eq.
    rewrite rebuild_eq. intros id Hin. by left.
  - apply (surface_ok_map st); try done; try solve_same.
    intros id Hin. left. revert Hin. unfold onMouseMove.
    repeat (case_match; simpl); done.
  - apply (surface_ok_map st); try done; try solve_same.
    intros id Hin. apply frame_map in Hin as [?|?]; [by left | by right; left].
  - apply (surface_ok_map st); try done; try solve_same.
    intros id Hin. left. by apply hide_hover_map.
  - apply (surface_ok_map st); try done; try solve_same.
    intros id Hin. left. revert Hin. unfold showHover.
    destruct (negb (show_hover data)); [apply hide_hover_map | done].
Qed.

Lemma reachable_surface st : reachable st → surface_ok st.
Proof.
  intros Hr. assert (is_Some (geojsonLayers st) ∧ surface_ok st) as [_ ?];
    [| done].
  destruct Hr as [project Hr]. revert st Hr.
  apply (rtc_ind_r (λ s, is_Some (geojsonLayers s) ∧ surface_ok s)
           (render project)).
  - split; [by eexists |]. unfold surface_ok, no_orphans, render. simpl.
    repeat split; try done; try lia.
    + intros id Hin. by apply elem_of_nil in Hin.
    + intros id nm Hin. by apply elem_of_nil in Hin.
    + intros id Hin. by apply elem_of_nil in Hin.
  - intros s1 s2 Hr Hstep [Hs Hok]. split.
    + assert (reachable s2) as Hr2.
      { exists project. by eapply rtc_r. }
      by apply reachable_tables_inv in Hr2 as [? _].
    + by eapply step_surface_inv.
Qed.

(** In a rendered widget the depth that [syncGeojson] allows is enough:
    allowing more changes nothing. *)
Theorem nesting_enough data st depth :
  reachable st → (length (layers st) ≤ depth)%nat →
  sync_nested depth data st = syncGeojson data st.
Proof.
  intros Hr Hd. pose proof (reachable_surface st Hr) as Hsf.
  apply reachable_tables_inv in Hr as [Hs _].
  pose proof (nesting_bound_length data st) as Hb. unfold syncGeojson.
  rewrite (sync_nested_enough data (nesting_bound data st) st depth)
    by (done || lia).
  symmetry. apply sync_nested_enough; try done.
Qed.
End SurfaceReachable.

(** ** The reconciler: rebuilds, names, upserts, the hover group *)
Section ReconcilerTheorems.
Context `{!Host GeoJson Value LatLng}.
Local Abbreviation State := (@State GeoJson Value LatLng) (only parsing).
Local Abbreviation Entry := (@Entry GeoJson) (only parsing).
Local Abbreviation Data := (@Data GeoJson) (only parsing).
Local Abbreviation Effect := (@Effect GeoJson Value) (only parsing).
Local Abbreviation Candidate := (@Candidate Value LatLng) (only parsing).
Implicit Types (st : State) (data : Data) (name n : string) (entry : Entry).

(** A pass creates a layer for an entry of the snapshot that asked for it,
    and for every such entry. *)
Lemma pass_created data st n gj id :
  CreatedLayer n gj id ∈ pass_effects data st →
  ∃ entry, Obj.get n (desired_of data) = Some entry ∧ gj = geojson entry ∧
           needsCreate (ensure_tables st) n entry = true.
Proof.
  rewrite pass_effects_ensure. intros Hin.
  destruct (sync_pass_whole data st) as [W _].
  destruct (pw_created _ _ _ W n gj id Hin) as (e & He & -> & Hnc & _).
  by exists e.
Qed.

Lemma pass_creates data st n entry :
  Obj.get n (desired_of data) = Some entry →
  needsCreate (ensure_tables st) n entry = true →
  ∃ id, CreatedLayer n (geojson entry) id ∈ pass_effects data st.
Proof.
  rewrite pass_effects_ensure. intros He Hnc.
  destruct (sync_pass_whole data st) as [W Hr].
  destruct (pw_entries _ _ _ W n) as [Hs|[Hc|Hrm]].
  - specialize (Hr n). rewrite (same_entries_stale data _ _ n Hs) in Hr.
    rewrite (stale_desired _ _ _ entry He) in Hr. congruence.
  - destruct Hc as (e & _ & He' & _ & _ & _ & _ & _ & _ & id' & Hin).
    assert (e = entry) as -> by congruence. by exists id'.
  - destruct Hrm as (Hu & _). congruence.
Qed.

(** A pass that had work to do for a name has created or detached a
    layer. *)
Lemma pass_changes data st n :
  stale data (ensure_tables st) n = true →
  ∃ x, x ∈ pass_effects data st ∧ is_upsert_or_removal x = true.
Proof.
  rewrite pass_effects_ensure. intros Hst.
  destruct (sync_pass_whole data st) as [W Hr].
  destruct (pw_entries _ _ _ W n) as [Hs|[Hc|Hrm]].
  - specialize (Hr n). rewrite (same_entries_stale data _ _ n Hs) in Hr.
    congruence.
  - destruct Hc as (e & _ & _ & _ & _ & _ & _ & _ & _ & id' & Hin).
    by eexists.
  - destruct Hrm as (_ & (lyr & _ & Hin) & _). by eexists.
Qed.


(** C4: after a reconciliation pass in a rendered widget, each of the three
    tables (layers, fingerprints, hover flags) has exactly the names of the
    snapshot that was applied. *)
Theorem reconcile_names_exact data st :
  reachable st →
  let st' := syncGeojson data st in
  names (layers st') = snapshot_names data ∧
  names (geojsonData st') = snapshot_names data ∧
  names (geojsonHoverable st') = snapshot_names data.
Proof.
  intros Hr. apply sync_names. intros _.
  by apply reachable_tables_inv in Hr as [_ ?].
Qed.

(** C5: in a pass, a layer is created for a name of the snapshot exactly
    when the name is new, or the stored fingerprint differs from the
    serialization of its content, or the stored hover flag differs; a
    created layer is a new object, and otherwise the stored layer is the
    object that was there.  Applying the same snapshot again creates and
    detaches nothing, and the table of layers is the same. *)
Theorem upsert_iff_changed data st name entry :
  is_Some (geojsonLayers st) →
  Obj.get name (desired_of data) = Some entry →
  let changed :=
    name ∉ names (layers st) ∨
    Obj.get name (geojsonData st) ≠ Some (JSON_stringify (geojson entry)) ∨
    Obj.get name (geojsonHoverable st) ≠ Some (hoverable entry) in
  let st' := syncGeojson data st in
  ((∃ gj id, CreatedLayer name gj id ∈ pass_effects data st) ↔ changed) ∧
  (changed →
     ∃ id, (next_id st ≤ id)%nat ∧
           Obj.get name (layers st') =
           Some {| layer_id := id;
                   eachLayer := L_geoJSON (geojson entry) |}) ∧
  (¬ changed → Obj.get name (layers st') = Obj.get name (layers st)) ∧
  pass_effects data st' = [RebuiltHoverIndex] ∧
  geojsonLayers (syncGeojson data st') = geojsonLayers st'.
Proof.
  intros Hs Hg. cbn zeta.
  assert (needsCreate st name entry = true ↔
          name ∉ names (layers st) ∨
          Obj.get name (geojsonData st) ≠
            Some (JSON_stringify (geojson entry)) ∨
          Obj.get name (geojsonHoverable st) ≠ Some (hoverable entry))
    as Hnc.
  { destruct (needsCreate st name entry) eqn:Hn.
    - split; [intros _ | done].
      destruct (decide (name ∈ names (layers st))) as [Hk|]; [| by left].
      destruct (decide (Obj.get name (geojsonData st) =
                        Some (JSON_stringify (geojson entry)))) as [Hd|];
        [| by right; left].
      destruct (decide (Obj.get name (geojsonHoverable st) =
                        Some (hoverable entry))) as [Hh|];
        [| by right; right].
      exfalso. apply elem_of_names in Hk.
      assert (needsCreate st name entry = false) as Hf
        by by apply needsCreate_false.
      congruence.
    - apply needsCreate_false in Hn as (Hk & Hd & Hh).
      apply elem_of_names in Hk. split; [done |].
      intros [?|[?|?]]; done. }
  pose proof (sync_present data st name entry Hg) as (_ & _ & Hl).
  pose proof (pass_created data st name) as Hcd.
  pose proof (pass_creates data st name entry Hg) as Hcs.
  rewrite (ensure_tables_Some st Hs) in Hl, Hcd, Hcs.
  split; [| split; [| split; [| split]]].
  - rewrite <- Hnc. split.
    + intros (gj & id & Hin).
      destruct (Hcd gj id Hin) as (e & He & _ & Hn). congruence.
    + intros Hn. destruct (Hcs Hn) as [id Hid]. by exists (geojson entry), id.
  - intros Hc. apply Hnc in Hc. by rewrite Hc in Hl.
  - intros Hc. destruct (needsCreate st name entry); [| done].
    exfalso. by apply Hc, Hnc.
  - unfold pass_effects. rewrite sync_twice. simpl.
    by rewrite drop_app_length.
  - by rewrite sync_twice.
Qed.

(** C6: a name that is in both groups of the snapshot is hover-eligible in
    the merged view, and is recorded as such by the pass. *)
Theorem hover_group_wins data st name :
  name ∈ names (default [] (geojson_overlays data)) →
  name ∈ names (default [] (geojson_hover_overlays data)) →
  (∃ entry, Obj.get name (desired_of data) = Some entry ∧
            hoverable entry = true) ∧
  Obj.get name (geojsonHoverable (syncGeojson data st)) = Some true.
Proof.
  intros _ Hh. apply elem_of_names in Hh.
  destruct (merge_desired_hover (default [] (geojson_overlays data))
              (default [] (geojson_hover_overlays data)) name Hh)
    as (v & _ & Hg).
  split; [by eexists |].
  by destruct (sync_present data st name _ Hg) as (_ & -> & _).
Qed.

Lemma obj_get_reverse {V} (o : list (string * V)) k v :
  NoDup (Obj.keys o) → Obj.get k o = Some v →
  Obj.get k (reverse o) = Some v.
Proof.
  intros Hnd Hg. apply obj_get_NoDup.
  - unfold Obj.keys. by rewrite fmap_reverse, reverse_Permutation.
  - apply elem_of_reverse. by apply obj_get_Some_elem.
Qed.

(** C9: for a name that is in both groups, the merged entry holds the
    content of the hover group; the fingerprint stored by the pass is that
    of the hover content, and a layer created for the name in the pass is
    built from the hover content. *)
Theorem hover_content_wins data st name v :
  NoDup (Obj.keys (default [] (geojson_hover_overlays data))) →
  name ∈ names (default [] (geojson_overlays data)) →
  Obj.get name (default [] (geojson_hover_overlays data)) = Some v →
  let st' := syncGeojson data st in
  Obj.get name (desired_of data) =
    Some {| geojson := v; hoverable := true |} ∧
  (∀ entry, (name, entry) ∈ Obj.entries (desired_of data) →
            geojson entry = v) ∧
  Obj.get name (geojsonData st') = Some (JSON_stringify v) ∧
  (∀ gj id, CreatedLayer name gj id ∈ pass_effects data st → gj = v) ∧
  (∀ id, CreatedLayer name v id ∈ pass_effects data st →
         ∃ lyr, Obj.get name (layers st') = Some lyr ∧
                eachLayer lyr = L_geoJSON v).
Proof.
  intros Hnd _ Hv. cbn zeta.
  assert (Obj.get name (desired_of data) =
          Some {| geojson := v; hoverable := true |}) as Hg.
  { unfold desired_of. rewrite merge_desired_get.
    by rewrite (obj_get_reverse _ _ _ Hnd Hv). }
  pose proof (sync_present data st name _ Hg) as (Hd & _ & Hl).
  assert (∀ gj id, CreatedLayer name gj id ∈ pass_effects data st →
            gj = v ∧ needsCreate (ensure_tables st) name
                       {| geojson := v; hoverable := true |} = true)
    as Hcreated.
  { intros gj id Hin.
    destruct (pass_created data st name gj id Hin) as (e & He & -> & Hn).
    rewrite Hg in He. by injection He as <-. }
  split; [done |]. split; [| split; [done | split]].
  - intros entry Hin.
    apply (obj_get_NoDup _ _ _ (desired_NoDup data)) in Hin.
    rewrite Hg in Hin. by injection Hin as <-.
  - intros gj id Hin. by destruct (Hcreated gj id Hin).
  - intros id Hin. destruct (Hcreated v id Hin) as [_ Hnc].
    rewrite Hnc in Hl. simpl in Hl. destruct Hl as (id' & _ & ->).
    by eexists.
Qed.
End ReconcilerTheorems.

(** ** Hover snapping *)
Section HoverTheorems.
Context `{!Host GeoJson Value LatLng}.
Local Abbreviation State := (@State GeoJson Value LatLng) (only parsing).
Local Abbreviation Data := (@Data GeoJson) (only parsing).
Local Abbreviation Candidate := (@Candidate Value LatLng) (only parsing).
Local Abbreviation Feature := (@Feature Value) (only parsing).
Local Abbreviation MouseEvent := (@MouseEvent LatLng) (only parsing).
Local Abbreviation LMap := (@LMap LatLng) (only parsing).
Implicit Types (st : State) (data : Data) (p : Point) (c : Candidate)
  (idx : gmap string (list Candidate)) (m : LMap).

Lemma queryNearest_empty st p : queryNearest st ∅ p = None.
Proof.
  unfold queryNearest. rewrite nearest_visited. unfold visited.
  assert (flat_map (λ k, default [] ((∅ : gmap string (list Candidate)) !! k))
            (neighbourhood st p) = []) as ->; [| done].
  induction (neighbourhood st p) as [|k ks IH]; [done |].
  cbn [flat_map]. by rewrite lookup_empty, IH.
Qed.

(** C2: in a rendered widget, the search of the mouse-move callback returns
    a candidate of the index that is within the threshold and at least as
    near as every candidate of the index, or none when no candidate of the
    index is within the threshold; on an empty index it returns none. *)
Theorem queryNearest_correct st idx p :
  reachable st → hoverIndex st = Some idx →
  match queryNearest st idx p with
  | Some b =>
      in_index idx b ∧
      Num.root_le_num (distance p b) (hoverThresholdPx st) = true ∧
      ∀ c, in_index idx c →
           Num.root_le (distance p b) (distance p c) = true
  | None =>
      ∀ c, in_index idx c →
           Num.root_le_num (distance p c) (hoverThresholdPx st) = false
  end ∧
  (idx = ∅ → queryNearest st idx p = None).
Proof.
  intros Hr Hi. apply reachable_hover_inv in Hr as (Hg & Ht & Hf).
  split; [| intros ->; apply queryNearest_empty].
  apply (queryNearest_filed st idx p 25); auto.
Qed.

(** C3: when the cell size is the threshold, a finite number of pixels, a
    candidate whose distance to the point [p] is at most the threshold has
    its cell among the nine cells around the cell of [p], and its key is one
    of the keys that the search looks up.  If the index files it under its
    cell, the two loops of the search meet it: the candidates that they
    scan are those of the nine buckets, the candidate is one of them, and
    the search ends with a candidate that is no farther from [p], which the
    final test accepts. *)
Theorem neighbourhood_sufficient st p c :
  gridCell st = hoverThresholdPx st →
  Num.isFinite (hoverThresholdPx st) = true →
  Num.root_le_num (distance p c) (hoverThresholdPx st) = true →
  (∃ dx dy,
     dx ∈ [-1; 0; 1]%Z ∧ dy ∈ [-1; 0; 1]%Z ∧
     cx (_cellKeyFromPoint st (cand_point c)) =
       Num.add (cx (_cellKeyFromPoint st p)) (Fin dx) ∧
     cy (_cellKeyFromPoint st (cand_point c)) =
       Num.add (cy (_cellKeyFromPoint st p)) (Fin dy)) ∧
  key (_cellKeyFromPoint st (cand_point c)) ∈ neighbourhood st p ∧
  (∀ idx, index_filed st idx → in_index idx c →
     c ∈ visited st idx p ∧
     nearest st idx p = scan_candidates p (None, RInf) (visited st idx p) ∧
     ∃ best,
       (nearest st idx p).1 = Some best ∧
       (nearest st idx p).2 = distance p best ∧
       Num.root_le (distance p best) (distance p c) = true ∧
       queryNearest st idx p = Some best).
Proof.
  intros Hg Hfin Hle.
  destruct (hoverThresholdPx st) as [t| | |] eqn:Ht; try done.
  destruct (cell_near st p c t Hg Hle) as (dx & dy & Hdx & Hdy & Hcx & Hcy).
  split; [by exists dx, dy |]. split.
  - unfold neighbourhood. apply list_elem_of_In, in_flat_map. exists dy.
    split; [by apply list_elem_of_In |].
    apply list_elem_of_In, list_elem_of_fmap. exists dx. split; [| done].
    unfold _cellKeyFromPoint at 1. cbn [key].
    unfold _cellKeyFromPoint in Hcx, Hcy. cbn [cx cy] in Hcx, Hcy.
    by rewrite Hcx, Hcy.
  - intros idx Hf Hin.
    split; [by apply (within_visited st idx p c t) |].
    split; [apply nearest_visited |].
    pose proof (queryNearest_filed st idx p t Hg Ht Hf) as Hq.
    pose proof (nearest_spec st idx p) as [Hbest _].
    unfold queryNearest in *.
    destruct (nearest st idx p) as [[b|] d] eqn:Hn; cbn [fst snd] in *.
    + destruct Hbest as [_ ->]. rewrite Ht in *.
      destruct (Num.root_le_num (distance p b) (Fin t)) eqn:Hb.
      * destruct Hq as (_ & _ & Hall). exists b. by rewrite (Hall c Hin).
      * rewrite (Hq c Hin) in Hle. done.
    + rewrite Ht in Hq. rewrite (Hq c Hin) in Hle. done.
Qed.

Lemma candidate_of_Some st sub c :
  candidate_of st sub = Some c ↔
  ∃ ll,
    getLatLng sub = Some ll ∧
    Num.isFinite (pt_x (latLngToContainerPoint (lmap st) ll)) = true ∧
    Num.isFinite (pt_y (latLngToContainerPoint (lmap st) ll)) = true ∧
    c = {| cand_x := pt_x (latLngToContainerPoint (lmap st) ll);
           cand_y := pt_y (latLngToContainerPoint (lmap st) ll);
           cand_latlng := ll;
           cand_feature := sub_feature sub |}.
Proof.
  unfold candidate_of. destruct (getLatLng sub) as [ll|].
  - destruct (Num.isFinite (pt_x _)) eqn:Hx, (Num.isFinite (pt_y _)) eqn:Hy;
      simpl.
    + split; [intros [= <-]; by exists ll |].
      by intros (? & [= <-] & _ & _ & ->).
    + split; [done | intros (? & [= <-] & _ & ? & _); congruence].
    + split; [done | intros (? & [= <-] & ? & _); congruence].
    + split; [done | intros (? & [= <-] & ? & _); congruence].
  - split; [done | by intros (? & ? & _)].
Qed.

(** C7: the index left by a rebuild holds one candidate for each sublayer
    that has a position whose projection is finite in both coordinates and
    that belongs to a layer flagged hoverable and attached to the map, and
    nothing else: a point with a non-finite pixel coordinate and a sublayer
    without [getLatLng] are left out, and the other points are indexed all
    the same. *)
Theorem rebuild_indexes_exactly st :
  ∃ idx,
    hoverIndex (_rebuildHoverIndex st) = Some idx ∧
    ∀ c,
      in_index idx c ↔
      ∃ nm lyr sub ll,
        (nm, lyr) ∈ Obj.entries (layers st) ∧
        Obj.get nm (geojsonHoverable st) = Some true ∧
        hasLayer (lmap st) (layer_id lyr) = true ∧
        sub ∈ eachLayer lyr ∧
        getLatLng sub = Some ll ∧
        Num.isFinite (pt_x (latLngToContainerPoint (lmap st) ll)) = true ∧
        Num.isFinite (pt_y (latLngToContainerPoint (lmap st) ll)) = true ∧
        c = {| cand_x := pt_x (latLngToContainerPoint (lmap st) ll);
               cand_y := pt_y (latLngToContainerPoint (lmap st) ll);
               cand_latlng := ll;
               cand_feature := sub_feature sub |}.
Proof.
  exists (build_index st).1. split; [by rewrite rebuild_eq |].
  intros c. rewrite build_index_spec. split.
  - intros (nm & lyr & sub & Hin & Hh & Hm & Hs & Hc).
    apply candidate_of_Some in Hc as (ll & ? & ? & ? & ?).
    by exists nm, lyr, sub, ll.
  - intros (nm & lyr & sub & ll & Hin & Hh & Hm & Hs & Hll & Hx & Hy & Hc).
    exists nm, lyr, sub. repeat (split; [done |]).
    apply candidate_of_Some. by exists ll.
Qed.

Lemma hasLayer_addLayer m id : hasLayer (addLayer m id) id = true.
Proof.
  unfold addLayer. destruct (hasLayer m id) eqn:Hh; [done |].
  unfold hasLayer. simpl. apply bool_decide_eq_true.
  apply elem_of_app. right. apply list_elem_of_here.
Qed.

Lemma hasLayer_removeLayer m id : hasLayer (removeLayer m id) id = false.
Proof.
  unfold hasLayer, removeLayer. simpl. apply bool_decide_eq_false.
  intros Hin. by apply list_elem_of_filter in Hin as [? _].
Qed.

Lemma queryNearest_ext st st' idx p :
  gridCell st = gridCell st' → hoverThresholdPx st = hoverThresholdPx st' →
  queryNearest st idx p = queryNearest st' idx p.
Proof.
  intros Hg Ht. unfold queryNearest, nearest, _cellKeyFromPoint.
  by rewrite Hg, Ht.
Qed.

(** The animation-frame callback on a hit and on a miss. *)
Lemma frame_hit st e idx best :
  _mmLast st = Some e → hoverIndex st = Some idx →
  queryNearest st idx (latLngToContainerPoint (lmap st) (ev_latlng e)) =
    Some best →
  let st' := onMouseMove_frame st in
  hover_latlng (hover st') = cand_latlng best ∧
  tooltip_content (hover st') = featureText (cand_feature best) ∧
  hasLayer (lmap st') (hover_id (hover st')) = true ∧
  tooltip_open (hover st') = true ∧
  trace st' = trace st ++ [DispatchedHoverLayer (cand_feature best)] ∧
  gridCell st' = gridCell st ∧
  hoverThresholdPx st' = hoverThresholdPx st ∧
  hoverIndex st' = hoverIndex st ∧
  latLngToContainerPoint (lmap st') = latLngToContainerPoint (lmap st) ∧
  _mmPending st' = false.
Proof.
  intros Hl Hi Hq. cbn zeta. unfold onMouseMove_frame.
  cbn -[queryNearest featureText hasLayer addLayer]. rewrite Hl, Hi.
  cbn -[queryNearest featureText hasLayer addLayer].
  rewrite (queryNearest_ext _ st) by done. rewrite Hq.
  cbn -[queryNearest featureText hasLayer addLayer].
  destruct (hasLayer (lmap st) (hover_id (hover st))) eqn:Hh;
    cbn -[queryNearest featureText hasLayer addLayer].
  - by rewrite Hh.
  - rewrite hasLayer_addLayer. unfold addLayer. by rewrite Hh.
Qed.

Lemma frame_miss st e idx :
  _mmLast st = Some e → hoverIndex st = Some idx →
  queryNearest st idx (latLngToContainerPoint (lmap st) (ev_latlng e)) =
    None →
  let st' := onMouseMove_frame st in
  hasLayer (lmap st') (hover_id (hover st')) = false ∧
  tooltip_open (hover st') = false ∧
  trace st' = trace st.
Proof.
  intros Hl Hi Hq. cbn zeta. unfold onMouseMove_frame, hide_hover.
  cbn -[queryNearest hasLayer removeLayer]. rewrite Hl, Hi.
  cbn -[queryNearest hasLayer removeLayer].
  rewrite (queryNearest_ext _ st) by done. rewrite Hq.
  cbn -[queryNearest hasLayer removeLayer].
  destruct (hasLayer (lmap st) (hover_id (hover st))) eqn:Hh;
    cbn -[queryNearest hasLayer removeLayer].
  - by rewrite hasLayer_removeLayer.
  - by rewrite Hh.
Qed.

(** C8: a processed pointer move that hits moves the marker to the position
    of the candidate, sets the label computed by [featureText] from its
    feature, puts the marker on the map, opens the tooltip and dispatches
    one [hover_layer] event carrying the feature; one that misses leaves the
    marker off the map and dispatches nothing.  The label is the [name]
    property when there is a truthy one, else the entries of [properties]
    as [key: value] joined by commas, else the empty string. *)
Theorem frame_hit_or_miss st e idx :
  _mmLast st = Some e → hoverIndex st = Some idx →
  let st' := onMouseMove_frame st in
  match queryNearest st idx
          (latLngToContainerPoint (lmap st) (ev_latlng e)) with
  | Some best =>
      hover_latlng (hover st') = cand_latlng best ∧
      tooltip_content (hover st') = featureText (cand_feature best) ∧
      hasLayer (lmap st') (hover_id (hover st')) = true ∧
      tooltip_open (hover st') = true ∧
      trace st' = trace st ++ [DispatchedHoverLayer (cand_feature best)]
  | None =>
      hasLayer (lmap st') (hover_id (hover st')) = false ∧
      tooltip_open (hover st') = false ∧
      trace st' = trace st
  end ∧
  (∀ (f : Feature) props n,
     properties f = Some props → Obj.get "name" props = Some n →
     ToBoolean n = true → featureText (Some f) = LabelValue n) ∧
  (∀ (f : Feature) props,
     properties f = Some props →
     (∀ n, Obj.get "name" props = Some n → ToBoolean n = false) →
     featureText (Some f) =
     LabelText (String.concat ", "
                  (map (λ '(k, v), k +:+ ": " +:+ ToString v)
                     (Obj.entries props)))) ∧
  (∀ f : Feature, properties f = None → featureText (Some f) = LabelText "") ∧
  featureText None = LabelText "".
Proof.
  intros Hl Hi. cbn zeta. split; [| split; [| split; [| split]]].
  - destruct (queryNearest st idx _) as [best|] eqn:Hq.
    + destruct (frame_hit st e idx best Hl Hi Hq) as (? & ? & ? & ? & ? & _).
      done.
    + by apply (frame_miss st e idx).
  - intros f props n Hp Hn Hb. unfold featureText. by rewrite Hp, Hn, Hb.
  - intros f props Hp Hn. unfold featureText. rewrite Hp.
    destruct (Obj.get "name" props) as [n|]; [| done].
    by rewrite (Hn n).
  - intros f Hp. unfold featureText. by rewrite Hp.
  - done.
Qed.

(** C10: the notification is not deduplicated.  When two pointer moves are
    processed one after the other and both hit the same candidate, each of
    them dispatches a [hover_layer] event carrying the feature of the
    candidate, and the marker is at the position of the candidate after
    each. *)
Theorem hover_not_deduplicated data st e1 e2 idx best :
  show_hover data = true → hoverIndex st = Some idx →
  queryNearest st idx (latLngToContainerPoint (lmap st) (ev_latlng e1)) =
    Some best →
  queryNearest st idx (latLngToContainerPoint (lmap st) (ev_latlng e2)) =
    Some best →
  let st1 := onMouseMove_frame (onMouseMove data e1 st) in
  let st2 := onMouseMove_frame (onMouseMove data e2 st1) in
  trace st1 = trace st ++ [DispatchedHoverLayer (cand_feature best)] ∧
  hover_latlng (hover st1) = cand_latlng best ∧
  trace st2 =
    trace st ++ [DispatchedHoverLayer (cand_feature best);
                 DispatchedHoverLayer (cand_feature best)] ∧
  hover_latlng (hover st2) = cand_latlng best.
Proof.
  intros Hshow Hi Hq1 Hq2. cbn zeta.
  assert (∀ s e,
            hoverIndex s = Some idx →
            _mmLast (onMouseMove data e s) = Some e ∧
            hoverIndex (onMouseMove data e s) = Some idx ∧
            gridCell (onMouseMove data e s) = gridCell s ∧
            hoverThresholdPx (onMouseMove data e s) = hoverThresholdPx s ∧
            lmap (onMouseMove data e s) = lmap s ∧
            trace (onMouseMove data e s) = trace s) as Hmove.
  { intros s e Hs. unfold onMouseMove. rewrite Hshow, Hs. simpl.
    by destruct (_mmPending s). }
  destruct (Hmove st e1 Hi) as (Hl1 & Hi1 & Hg1 & Ht1 & Hm1 & Hr1).
  assert (queryNearest (onMouseMove data e1 st) idx
            (latLngToContainerPoint (lmap (onMouseMove data e1 st))
               (ev_latlng e1)) = Some best) as Hq1'.
  { rewrite Hm1, <- Hq1. by apply queryNearest_ext. }
  destruct (frame_hit _ e1 idx best Hl1 Hi1 Hq1')
    as (Hll1 & _ & _ & _ & Htr1 & Hg1' & Ht1' & Hi1' & Hp1' & _).
  set (st1 := onMouseMove_frame (onMouseMove data e1 st)) in *.
  assert (hoverIndex st1 = Some idx) as Hi2 by by rewrite Hi1'.
  destruct (Hmove st1 e2 Hi2) as (Hl2 & Hi2' & Hg2 & Ht2 & Hm2 & Hr2).
  assert (queryNearest (onMouseMove data e2 st1) idx
            (latLngToContainerPoint (lmap (onMouseMove data e2 st1))
               (ev_latlng e2)) = Some best) as Hq2'.
  { rewrite Hm2, Hp1', Hm1, <- Hq2. apply queryNearest_ext; congruence. }
  destruct (frame_hit _ e2 idx best Hl2 Hi2' Hq2')
    as (Hll2 & _ & _ & _ & Htr2 & _).
  split; [by rewrite Htr1, Hr1 |]. split; [done |].
  split; [| done]. rewrite Htr2, Hr2, Htr1, Hr1. by rewrite <- app_assoc.
Qed.
End HoverTheorems.


(** ** Examples *)

Lemma demo_st1_reachable : reachable demo_st1.
Proof. exists demo_project. apply rtc_once. apply step_sync. Qed.

Lemma demo_idx_eq : hoverIndex demo_st1 = Some demo_idx.
Proof. vm_compute. reflexivity. Qed.


(** Removing the overlay [B], whose layer is on the map, rebuilds the index
    twice: the pass is entered again from [state.map.removeLayer], and both
    passes end with a rebuild. *)
Example removal_of_shown_rebuilds_twice :
  pass_effects demo_data_A demo_st1 =
    [DetachedLayer 1; RebuiltHoverIndex; DetachedLayer 1; RebuiltHoverIndex].
Proof. vm_compute. reflexivity. Qed.


(** A rebuild goes past a point with a non-finite projection and past a
    sublayer without position, and indexes the point that follows them. *)
Example rebuild_skips_and_goes_on :
  map_to_list <$> hoverIndex (syncGeojson demo_data_C demo_st0) =
  Some [("0:0",
         [{| cand_x := Fin 7; cand_y := Fin 7; cand_latlng := (7, 7)%Z;
             cand_feature :=
               Some {| properties := Some [("name", "near")] |} |}])].
Proof. vm_compute. reflexivity. Qed.

Lemma queryNearest_correct_witness :
  reachable demo_st1 ∧ hoverIndex demo_st1 = Some demo_idx ∧
  queryNearest demo_st1 demo_idx (demo_project (0, 0)%Z) = Some demo_c0 ∧
  (∀ c, in_index demo_idx c →
        Num.root_le (distance (demo_project (0, 0)%Z) demo_c0)
                    (distance (demo_project (0, 0)%Z) c) = true) ∧
  (∀ c, in_index demo_idx c →
        Num.root_le_num (distance (demo_project (1000, 0)%Z) c)
                        (hoverThresholdPx demo_st1) = false).
Proof.
  assert (queryNearest demo_st1 demo_idx (demo_project (0, 0)%Z) =
          Some demo_c0) as Hq0 by (vm_compute; reflexivity).
  assert (queryNearest demo_st1 demo_idx (demo_project (1000, 0)%Z) = None)
    as Hq1 by (vm_compute; reflexivity).
  pose proof (queryNearest_correct demo_st1 demo_idx (demo_project (0, 0)%Z)
                demo_st1_reachable demo_idx_eq) as [H0 _].
  pose proof (queryNearest_correct demo_st1 demo_idx (demo_project (1000, 0)%Z)
                demo_st1_reachable demo_idx_eq) as [H1 _].
  rewrite Hq0 in H0. rewrite Hq1 in H1.
  split; [exact demo_st1_reachable |]. split; [exact demo_idx_eq |].
  split; [exact Hq0 |]. split; [apply H0 | exact H1].
Defined.

Lemma neighbourhood_sufficient_witness :
  gridCell demo_st1 = hoverThresholdPx demo_st1 ∧
  Num.isFinite (hoverThresholdPx demo_st1) = true ∧
  Num.root_le_num (distance (demo_project (20, 30)%Z) demo_c0)
                  (hoverThresholdPx demo_st1) = false ∧
  Num.root_le_num (distance (demo_project (-15, 20)%Z) demo_c0)
                  (hoverThresholdPx demo_st1) = true ∧
  key (_cellKeyFromPoint demo_st1 (cand_point demo_c0)) ∈
    neighbourhood demo_st1 (demo_project (-15, 20)%Z) ∧
  index_filed demo_st1 demo_idx ∧ in_index demo_idx demo_c0 ∧
  demo_c0 ∈ visited demo_st1 demo_idx (demo_project (-15, 20)%Z) ∧
  ∃ best,
    (nearest demo_st1 demo_idx (demo_project (-15, 20)%Z)).1 = Some best ∧
    Num.root_le (distance (demo_project (-15, 20)%Z) best)
                (distance (demo_project (-15, 20)%Z) demo_c0) = true ∧
    queryNearest demo_st1 demo_idx (demo_project (-15, 20)%Z) = Some best.
Proof.
  assert (gridCell demo_st1 = hoverThresholdPx demo_st1) as Hg
    by (vm_compute; reflexivity).
  assert (Num.isFinite (hoverThresholdPx demo_st1) = true) as Hf
    by (vm_compute; reflexivity).
  assert (Num.root_le_num (distance (demo_project (-15, 20)%Z) demo_c0)
            (hoverThresholdPx demo_st1) = true) as Hle
    by (vm_compute; reflexivity).
  assert (index_filed demo_st1 demo_idx) as Hfiled.
  { exact (proj2 (proj2 (reachable_hover_inv demo_st1 demo_st1_reachable))
             demo_idx demo_idx_eq). }
  assert (in_index demo_idx demo_c0) as Hin.
  { exists "0:0", [demo_c0; {| cand_x := Fin 0; cand_y := Fin 1;
                               cand_latlng := (0, 1)%Z;
                               cand_feature :=
                                 Some {| properties :=
                                           Some [("name", "p1")] |} |}].
    split; [vm_compute; reflexivity | apply list_elem_of_here]. }
  pose proof (neighbourhood_sufficient demo_st1 (demo_project (-15, 20)%Z)
                demo_c0 Hg Hf Hle) as (_ & Hkey & Hsearch).
  destruct (Hsearch demo_idx Hfiled Hin)
    as (Hvis & _ & best & Hbest & _ & Hnear & Hq).
  split; [exact Hg |]. split; [exact Hf |].
  split; [vm_compute; reflexivity |]. split; [exact Hle |].
  split; [exact Hkey |]. split; [exact Hfiled |]. split; [exact Hin |].
  split; [exact Hvis |]. exists best.
  split; [exact Hbest |]. split; [exact Hnear | exact Hq].
Defined.

Lemma reconcile_names_exact_witness :
  reachable demo_st1 ∧
  names (layers demo_st1) = {["A"; "B"]} ∧
  names (layers (syncGeojson demo_data_A demo_st1)) = {["A"]} ∧
  names (geojsonData (syncGeojson demo_data_A demo_st1)) = {["A"]} ∧
  names (geojsonHoverable (syncGeojson demo_data_A demo_st1)) = {["A"]}.
Proof.
  pose proof (reconcile_names_exact demo_data_A demo_st1 demo_st1_reachable)
    as H.
  assert (snapshot_names demo_data_A = {["A"]}) as Hs
    by (vm_compute; reflexivity).
  cbn zeta in H. rewrite Hs in H.
  split; [exact demo_st1_reachable |].
  split; [vm_compute; reflexivity | exact H].
Defined.

Lemma upsert_iff_changed_witness :
  is_Some (geojsonLayers demo_st1) ∧
  Obj.get "A" (desired_of demo_data_A) =
    Some {| geojson := demo_A; hoverable := true |} ∧
  ¬ (∃ gj id, CreatedLayer "A" gj id ∈ pass_effects demo_data_A demo_st1) ∧
  Obj.get "A" (layers (syncGeojson demo_data_A demo_st1)) =
    Obj.get "A" (layers demo_st1) ∧
  pass_effects demo_data_A (syncGeojson demo_data_A demo_st1) =
    [RebuiltHoverIndex].
Proof.
  assert (is_Some (geojsonLayers demo_st1)) as Hs
    by (vm_compute; eexists; reflexivity).
  assert (Obj.get "A" (desired_of demo_data_A) =
          Some {| geojson := demo_A; hoverable := true |}) as Hg
    by (vm_compute; reflexivity).
  pose proof (upsert_iff_changed demo_data_A demo_st1 "A" _ Hs Hg)
    as (Hiff & _ & Hsame & Hagain & _).
  assert (¬ ("A" ∉ names (layers demo_st1) ∨
             Obj.get "A" (geojsonData demo_st1) ≠
               Some (JSON_stringify demo_A) ∨
             Obj.get "A" (geojsonHoverable demo_st1) ≠ Some true)) as Hnot.
  { intros [Hn|[Hn|Hn]]; apply Hn.
    - compute_done.
    - vm_compute. reflexivity.
    - vm_compute. reflexivity. }
  split; [exact Hs |]. split; [exact Hg |].
  split; [intros Hc; apply Hnot, Hiff, Hc |].
  split; [exact (Hsame Hnot) | exact Hagain].
Defined.

Lemma hover_group_wins_witness :
  "A" ∈ names (default [] (geojson_overlays demo_data_both)) ∧
  "A" ∈ names (default [] (geojson_hover_overlays demo_data_both)) ∧
  Obj.get "A" (geojsonHoverable (syncGeojson demo_data_both demo_st0)) =
    Some true.
Proof.
  assert ("A" ∈ names (default [] (geojson_overlays demo_data_both))) as H1
    by compute_done.
  assert ("A" ∈ names (default [] (geojson_hover_overlays demo_data_both)))
    as H2 by compute_done.
  split; [exact H1 |]. split; [exact H2 |].
  exact (proj2 (hover_group_wins demo_data_both demo_st0 "A" H1 H2)).
Defined.

Lemma hover_content_wins_witness :
  NoDup (Obj.keys (default [] (geojson_hover_overlays demo_data_both))) ∧
  "A" ∈ names (default [] (geojson_overlays demo_data_both)) ∧
  Obj.get "A" (default [] (geojson_hover_overlays demo_data_both)) =
    Some demo_A ∧
  Obj.get "A" (default [] (geojson_overlays demo_data_both)) = Some demo_B ∧
  Obj.get "A" (geojsonData (syncGeojson demo_data_both demo_st0)) =
    Some (JSON_stringify demo_A) ∧
  (∀ gj id,
     CreatedLayer "A" gj id ∈ pass_effects demo_data_both demo_st0 →
     gj = demo_A).
Proof.
  assert (NoDup (Obj.keys (default [] (geojson_hover_overlays demo_data_both))))
    as H1 by compute_done.
  assert ("A" ∈ names (default [] (geojson_overlays demo_data_both))) as H2
    by compute_done.
  assert (Obj.get "A" (default [] (geojson_hover_overlays demo_data_both)) =
          Some demo_A) as H3 by (vm_compute; reflexivity).
  pose proof (hover_content_wins demo_data_both demo_st0 "A" demo_A H1 H2 H3)
    as (_ & _ & Hd & Hc & _).
  split; [exact H1 |]. split; [exact H2 |]. split; [exact H3 |].
  split; [vm_compute; reflexivity |]. split; [exact Hd | exact Hc].
Defined.

Lemma frame_hit_or_miss_witness :
  _mmLast (onMouseMove demo_data_AB (demo_ev (3, 4)%Z) demo_st1) =
    Some (demo_ev (3, 4)%Z) ∧
  hoverIndex (onMouseMove demo_data_AB (demo_ev (3, 4)%Z) demo_st1) =
    Some demo_idx ∧
  let st' :=
    onMouseMove_frame
      (onMouseMove demo_data_AB (demo_ev (3, 4)%Z) demo_st1) in
  hover_latlng (hover st') = (0, 1)%Z ∧
  tooltip_content (hover st') = LabelValue "p1" ∧
  hasLayer (lmap st') (hover_id (hover st')) = true ∧
  trace st' =
    trace demo_st1 ++
      [DispatchedHoverLayer (Some {| properties := Some [("name", "p1")] |})].
Proof.
  assert (_mmLast (onMouseMove demo_data_AB (demo_ev (3, 4)%Z) demo_st1) =
          Some (demo_ev (3, 4)%Z)) as H1 by (vm_compute; reflexivity).
  assert (hoverIndex (onMouseMove demo_data_AB (demo_ev (3, 4)%Z) demo_st1) =
          Some demo_idx) as H2 by (vm_compute; reflexivity).
  pose proof (frame_hit_or_miss _ _ _ H1 H2) as [H _].
  assert (queryNearest (onMouseMove demo_data_AB (demo_ev (3, 4)%Z) demo_st1)
            demo_idx
            (latLngToContainerPoint
               (lmap (onMouseMove demo_data_AB (demo_ev (3, 4)%Z) demo_st1))
               (ev_latlng (demo_ev (3, 4)%Z))) =
          Some {| cand_x := Fin 0; cand_y := Fin 1; cand_latlng := (0, 1)%Z;
                  cand_feature :=
                    Some {| properties := Some [("name", "p1")] |} |})
    as Hq by (vm_compute; reflexivity).
  cbn zeta in H. rewrite Hq in H.
  destruct H as (Ha & Hb & Hc & _ & He).
  split; [exact H1 |]. split; [exact H2 |]. cbn zeta.
  split; [exact Ha |]. split; [exact Hb |]. split; [exact Hc |].
  rewrite He. vm_compute. reflexivity.
Defined.

Lemma hover_not_deduplicated_witness :
  show_hover demo_data_AB = true ∧
  hoverIndex demo_st1 = Some demo_idx ∧
  queryNearest demo_st1 demo_idx (demo_project (0, 0)%Z) = Some demo_c0 ∧
  queryNearest demo_st1 demo_idx (demo_project (-3, -4)%Z) = Some demo_c0 ∧
  trace (onMouseMove_frame
           (onMouseMove demo_data_AB (demo_ev (-3, -4)%Z)
              (onMouseMove_frame
                 (onMouseMove demo_data_AB (demo_ev (0, 0)%Z) demo_st1)))) =
  trace demo_st1 ++
    [DispatchedHoverLayer (cand_feature demo_c0);
     DispatchedHoverLayer (cand_feature demo_c0)].
Proof.
  assert (show_hover demo_data_AB = true) as H1 by reflexivity.
  assert (queryNearest demo_st1 demo_idx
            (latLngToContainerPoint (lmap demo_st1)
               (ev_latlng (demo_ev (0, 0)%Z))) = Some demo_c0) as H3
    by (vm_compute; reflexivity).
  assert (queryNearest demo_st1 demo_idx
            (latLngToContainerPoint (lmap demo_st1)
               (ev_latlng (demo_ev (-3, -4)%Z))) = Some demo_c0) as H4
    by (vm_compute; reflexivity).
  split; [exact H1 |]. split; [exact demo_idx_eq |].
  split; [exact H3 |]. split; [exact H4 |].
  exact (proj1 (proj2 (proj2
           (hover_not_deduplicated demo_data_AB demo_st1 (demo_ev (0, 0)%Z)
              (demo_ev (-3, -4)%Z) demo_idx demo_c0 H1 demo_idx_eq H3 H4)))).
Defined.


(** * Further properties of the scripts *)

(** ** The pointer-move throttle *)
Section ThrottleFacts.
Context `{!Host GeoJson Value LatLng}.
Local Abbreviation State := (@State GeoJson Value LatLng) (only parsing).
Local Abbreviation Data := (@Data GeoJson) (only parsing).
Local Abbreviation MouseEvent := (@MouseEvent LatLng) (only parsing).
Local Abbreviation Candidate := (@Candidate Value LatLng) (only parsing).
Implicit Types (st : State) (data : Data) (e ev : MouseEvent)
  (idx : gmap string (list Candidate)).

(** An accepted pointer move stores the event and leaves one callback
    outstanding, whatever the flag was. *)
Lemma onMouseMove_accepted data ev st :
  show_hover data = true → is_Some (hoverIndex st) →
  onMouseMove data ev st = set_mmPending true (set_mmLast (Some ev) st).
Proof.
  intros Hs [idx Hi]. unfold onMouseMove. rewrite Hs, Hi.
  destruct st as [? ? ? ? ? ? ? ? ? ? pending ? ? ?]; simpl in *.
  by destruct pending.
Qed.

Lemma onMouseMove_ignored data ev st :
  show_hover data = false ∨ hoverIndex st = None →
  onMouseMove data ev st = st.
Proof.
  unfold onMouseMove. intros [-> | ->]; [done |].
  by destruct (show_hover data).
Qed.

Lemma moves_ignored data evs st :
  show_hover data = false ∨ hoverIndex st = None →
  foldl (λ s ev, onMouseMove data ev s) st evs = st.
Proof.
  intros Hig. induction evs as [|ev evs IH] using rev_ind; [done |].
  rewrite foldl_app. cbn [foldl]. rewrite IH.
  by apply onMouseMove_ignored.
Qed.

Lemma moves_accepted data evs st :
  show_hover data = true → is_Some (hoverIndex st) →
  ∃ p l, foldl (λ s ev, onMouseMove data ev s) st evs =
         set_mmPending p (set_mmLast l st).
Proof.
  intros Hs Hi. induction evs as [|ev evs IH] using rev_ind.
  - exists (_mmPending st), (_mmLast st). by destruct st.
  - destruct IH as (p & l & IH). rewrite foldl_app. cbn [foldl]. rewrite IH.
    rewrite onMouseMove_accepted by done. by exists true, (Some ev).
Qed.

(** X1: pointer moves between two frames coalesce.  After a burst of moves
    the state is the one that the last move alone would have left, so that
    the callback of the next frame acts on the last event only, once. *)
Theorem moves_coalesce data evs e st :
  foldl (λ s ev, onMouseMove data ev s) st (evs ++ [e]) =
    onMouseMove data e st ∧
  onMouseMove_frame (foldl (λ s ev, onMouseMove data ev s) st (evs ++ [e])) =
    onMouseMove_frame (onMouseMove data e st).
Proof.
  assert (foldl (λ s ev, onMouseMove data ev s) st (evs ++ [e]) =
          onMouseMove data e st) as Heq; [| by rewrite Heq].
  rewrite foldl_app. cbn [foldl].
  destruct (show_hover data) eqn:Hs.
  2: { by rewrite moves_ignored by by left. }
  destruct (hoverIndex st) as [idx|] eqn:Hi.
  2: { by rewrite moves_ignored by by right. }
  destruct (moves_accepted data evs st Hs) as (p & l & ->); [by eauto |].
  rewrite !onMouseMove_accepted; eauto.
Qed.
End ThrottleFacts.


(** ** Pending callbacks *)
Section PendingFacts.
Context `{!Host GeoJson Value LatLng}.
Local Abbreviation State := (@State GeoJson Value LatLng) (only parsing).
Local Abbreviation Data := (@Data GeoJson) (only parsing).
Local Abbreviation MouseEvent := (@MouseEvent LatLng) (only parsing).
Local Abbreviation Candidate := (@Candidate Value LatLng) (only parsing).
Implicit Types (st : State) (data : Data) (e ev : MouseEvent)
  (idx : gmap string (list Candidate)).

Ltac solve_field :=
  intros;
  unfold onMouseMove, onMouseMove_frame, onMouseOut, showHover, hide_hover,
    onViewportChange;
  rewrite ?rebuild_eq;
  repeat (simpl; case_match); simpl; try done.

Lemma step_pending_inv st st' :
  step st st' →
  (_mmPending st = true → is_Some (_mmLast st) ∧ is_Some (hoverIndex st)) →
  (_mmPending st' = true → is_Some (_mmLast st') ∧ is_Some (hoverIndex st')).
Proof.
  intros Hstep Hinv.
  destruct Hstep as [data st|data id st Hid|project st|data ev st|st Hp|st
                    |data st].
  - rewrite sync_mmPending, sync_mmLast. intros Hp.
    split; [by apply Hinv | apply sync_hoverIndex_Some].
  - unfold onOverlayToggle. rewrite sync_mmPending, sync_mmLast. intros Hp.
    split; [by apply Hinv | apply sync_hoverIndex_Some].
  - unfold onViewportChange. rewrite rebuild_eq. simpl. intros Hp.
    split; [by apply Hinv | by eauto].
  - destruct (show_hover data) eqn:Hs.
    2: { rewrite onMouseMove_ignored by (by left). exact Hinv. }
    destruct (hoverIndex st) as [idx|] eqn:Hi.
    2: { rewrite onMouseMove_ignored by (by right). by rewrite Hi. }
    rewrite onMouseMove_accepted by (rewrite ?Hi; eauto). simpl.
    rewrite Hi. eauto.
  - assert (_mmPending (onMouseMove_frame st) = false) as ->; [| done].
    solve_field.
  - assert (_mmPending (onMouseOut st) = _mmPending st ∧
            _mmLast (onMouseOut st) = _mmLast st ∧
            hoverIndex (onMouseOut st) = hoverIndex st) as (-> & -> & ->);
      [| done].
    repeat split; solve_field.
  - assert (_mmPending (showHover data st) = _mmPending st ∧
            _mmLast (showHover data st) = _mmLast st ∧
            hoverIndex (showHover data st) = hoverIndex st) as (-> & -> & ->);
      [| done].
    repeat split; solve_field.
Qed.

(** X2: in a rendered widget, an outstanding animation-frame callback always
    finds a stored pointer event and a built index: the early return on a
    missing event is never taken and the lookups in [state.hoverIndex] never
    meet [null]. *)
Theorem pending_frame_ready st :
  reachable st → _mmPending st = true →
  is_Some (_mmLast st) ∧ is_Some (hoverIndex st).
Proof.
  intros [project Hr]. revert st Hr.
  apply (rtc_ind_r
           (λ s, _mmPending s = true →
                 is_Some (_mmLast s) ∧ is_Some (hoverIndex s))
           (render project)); [done |].
  intros s1 s2 _ Hstep IH. by eapply step_pending_inv.
Qed.

Lemma hide_hover_off st :
  hasLayer (lmap (hide_hover st)) (hover_id (hover (hide_hover st))) = false.
Proof.
  unfold hide_hover.
  destruct (hasLayer (lmap st) (hover_id (hover st))) eqn:Hh; simpl;
    [apply hasLayer_removeLayer | done].
Qed.

(** X5: the [mouseout] handler takes the marker off the map and closes its
    tooltip, but it does not withdraw a callback that is outstanding: when
    the stored pointer event hits, the next frame puts the marker back on the
    map and dispatches the [hover_layer] event. *)
Theorem mouseout_keeps_pending_frame data st e idx best :
  show_hover data = true → hoverIndex st = Some idx →
  queryNearest st idx (latLngToContainerPoint (lmap st) (ev_latlng e)) =
    Some best →
  let s1 := onMouseOut (onMouseMove data e st) in
  let s2 := onMouseMove_frame s1 in
  hasLayer (lmap s1) (hover_id (hover s1)) = false ∧
  tooltip_open (hover s1) = false ∧
  _mmPending s1 = true ∧
  hasLayer (lmap s2) (hover_id (hover s2)) = true ∧
  hover_latlng (hover s2) = cand_latlng best ∧
  trace s2 = trace st ++ [DispatchedHoverLayer (cand_feature best)].
Proof.
  intros Hs Hi Hq. cbn zeta.
  rewrite (onMouseMove_accepted data e st) by eauto.
  set (s0 := set_mmPending true (set_mmLast (Some e) st)).
  assert (hasLayer (lmap (onMouseOut s0)) (hover_id (hover (onMouseOut s0))) =
          false) as Hoff.
  { apply (hide_hover_off s0). }
  assert (_mmLast (onMouseOut s0) = Some e ∧
          hoverIndex (onMouseOut s0) = Some idx ∧
          _mmPending (onMouseOut s0) = true ∧
          tooltip_open (hover (onMouseOut s0)) = false ∧
          gridCell (onMouseOut s0) = gridCell st ∧
          hoverThresholdPx (onMouseOut s0) = hoverThresholdPx st ∧
          latLngToContainerPoint (lmap (onMouseOut s0)) =
            latLngToContainerPoint (lmap st) ∧
          trace (onMouseOut s0) = trace st)
    as (Hl & Hi' & Hp & Ht & Hg & Hth & Hpr & Htr).
  { clear Hoff. unfold onMouseOut, hide_hover. subst s0. simpl.
    destruct (hasLayer (lmap st) (hover_id (hover st))); simpl;
      repeat split; auto. }
  assert (queryNearest (onMouseOut s0) idx
            (latLngToContainerPoint (lmap (onMouseOut s0)) (ev_latlng e)) =
          Some best) as Hq'.
  { rewrite Hpr, <- Hq. by apply queryNearest_ext. }
  destruct (frame_hit _ e idx best Hl Hi' Hq')
    as (Hll & _ & Hon & _ & Htr' & _).
  repeat split; try done. by rewrite Htr', Htr.
Qed.

(** X6: the [show_hover] script, run when Python turns hovering off, takes
    the marker off the map; the animation-frame callback does not look at
    [show_hover], so that a callback scheduled before still snaps the marker
    and dispatches the [hover_layer] event. *)
Theorem hover_off_keeps_pending_frame data data' st e idx best :
  show_hover data = true → show_hover data' = false →
  hoverIndex st = Some idx →
  queryNearest st idx (latLngToContainerPoint (lmap st) (ev_latlng e)) =
    Some best →
  let s1 := showHover data' (onMouseMove data e st) in
  let s2 := onMouseMove_frame s1 in
  hasLayer (lmap s1) (hover_id (hover s1)) = false ∧
  _mmPending s1 = true ∧
  hasLayer (lmap s2) (hover_id (hover s2)) = true ∧
  hover_latlng (hover s2) = cand_latlng best ∧
  trace s2 = trace st ++ [DispatchedHoverLayer (cand_feature best)].
Proof.
  intros Hs Hs' Hi Hq. cbn zeta.
  rewrite (onMouseMove_accepted data e st) by eauto.
  set (s0 := set_mmPending true (set_mmLast (Some e) st)).
  assert (hasLayer (lmap (showHover data' s0))
            (hover_id (hover (showHover data' s0))) = false) as Hoff.
  { unfold showHover. rewrite Hs'. apply (hide_hover_off s0). }
  assert (_mmLast (showHover data' s0) = Some e ∧
          hoverIndex (showHover data' s0) = Some idx ∧
          _mmPending (showHover data' s0) = true ∧
          gridCell (showHover data' s0) = gridCell st ∧
          hoverThresholdPx (showHover data' s0) = hoverThresholdPx st ∧
          latLngToContainerPoint (lmap (showHover data' s0)) =
            latLngToContainerPoint (lmap st) ∧
          trace (showHover data' s0) = trace st)
    as (Hl & Hi' & Hp & Hg & Hth & Hpr & Htr).
  { clear Hoff. unfold showHover, hide_hover. rewrite Hs'. subst s0. simpl.
    destruct (hasLayer (lmap st) (hover_id (hover st))); simpl;
      repeat split; auto. }
  assert (queryNearest (showHover data' s0) idx
            (latLngToContainerPoint (lmap (showHover data' s0))
               (ev_latlng e)) = Some best) as Hq'.
  { rewrite Hpr, <- Hq. by apply queryNearest_ext. }
  destruct (frame_hit _ e idx best Hl Hi' Hq')
    as (Hll & _ & Hon & _ & Htr' & _).
  repeat split; try done. by rewrite Htr', Htr.
Qed.
End PendingFacts.


(** ** Ties in the search *)
Section NearestFacts.
Context `{!Host GeoJson Value LatLng}.
Local Abbreviation State := (@State GeoJson Value LatLng) (only parsing).
Local Abbreviation Candidate := (@Candidate Value LatLng) (only parsing).
Local Abbreviation Sublayer := (@Sublayer Value LatLng) (only parsing).
Local Abbreviation Layer := (@Layer Value LatLng) (only parsing).
Implicit Types (st : State) (p : Point) (c o : Candidate)
  (idx : gmap string (list Candidate)).

Lemma root_lt_le_false (r s d : root) :
  Num.root_lt d s = true → Num.root_lt r s = false →
  Num.root_le r d = false.
Proof.
  destruct r as [a| |], s as [g| |], d as [e| |]; simpl; try done.
  rewrite Z.ltb_lt, Z.ltb_ge, Z.leb_gt. lia.
Qed.

(** The loop over candidates keeps the earliest of the nearest candidates:
    every candidate seen before the kept one is strictly farther. *)
Lemma scan_candidates_first p (seen arr : list Candidate) acc :
  ((∀ c, c ∈ seen → Num.root_lt (distance p c) acc.2 = false) ∧
   match acc.1 with
   | None => True
   | Some b =>
       acc.2 = distance p b ∧
       ∃ l1 l2, seen = l1 ++ b :: l2 ∧
                ∀ c, c ∈ l1 → Num.root_le (distance p c) (distance p b) = false
   end) →
  let acc' := scan_candidates p acc arr in
  (∀ c, c ∈ seen ++ arr → Num.root_lt (distance p c) acc'.2 = false) ∧
  match acc'.1 with
  | None => True
  | Some b =>
      acc'.2 = distance p b ∧
      ∃ l1 l2, seen ++ arr = l1 ++ b :: l2 ∧
               ∀ c, c ∈ l1 → Num.root_le (distance p c) (distance p b) = false
  end.
Proof.
  revert seen acc. induction arr as [|o arr IH]; intros seen acc Hacc.
  { cbn zeta. unfold scan_candidates. cbn [foldl]. by rewrite app_nil_r. }
  cbn zeta. change (o :: arr) with ([o] ++ arr).
  rewrite scan_candidates_app, app_assoc. apply IH. clear IH.
  destruct acc as [best bestDist]. destruct Hacc as [Hall Hb].
  unfold scan_candidates. cbn [foldl]. simpl in *.
  destruct (Num.root_lt (distance p o) bestDist) eqn:Hlt; simpl.
  - split.
    + intros c Hc. apply elem_of_app in Hc as [Hc|Hc].
      * destruct (Num.root_lt (distance p c) (distance p o)) eqn:Hco; [| done].
        rewrite <- (Hall c Hc). symmetry.
        by apply (root_lt_trans _ (distance p o)).
      * apply list_elem_of_singleton in Hc as ->. apply root_lt_irrefl.
    + split; [done |]. exists seen, []. split; [done |].
      intros c Hc. by apply (root_lt_le_false _ bestDist); [| apply Hall].
  - split.
    + intros c Hc. apply elem_of_app in Hc as [Hc|Hc]; [by apply Hall |].
      by apply list_elem_of_singleton in Hc as ->.
    + destruct best as [b|]; [| done].
      destruct Hb as (-> & l1 & l2 & -> & Hl1). split; [done |].
      exists l1, (l2 ++ [o]). split; [| done].
      by rewrite <- !app_assoc.
Qed.

(** X3: ties go to the candidate met first.  When the search returns a
    candidate, every candidate that the two loops look at before it is
    strictly farther from the pointer. *)
Theorem queryNearest_first_of_ties st idx p (b : Candidate) :
  queryNearest st idx p = Some b →
  ∃ before after,
    visited st idx p = before ++ b :: after ∧
    ∀ c, c ∈ before → Num.root_le (distance p c) (distance p b) = false.
Proof.
  unfold queryNearest. rewrite nearest_visited.
  pose proof (scan_candidates_first p [] (visited st idx p) (None, RInf)) as Hs.
  cbn zeta in Hs.
  destruct (scan_candidates p (None, RInf) (visited st idx p)) as [[b'|] d];
    [| done].
  destruct (Num.root_le_num d (hoverThresholdPx st)); [| done].
  intros [= ->]. destruct Hs as [_ (_ & l1 & l2 & Heq & Hl1)].
  { split; [| done]. intros c Hc. by apply elem_of_nil in Hc. }
  by exists l1, l2.
Qed.
End NearestFacts.

(** ** The bounds of the index *)
Section BoundsFacts.
Context `{!Host GeoJson Value LatLng}.
Local Abbreviation State := (@State GeoJson Value LatLng) (only parsing).
Local Abbreviation Candidate := (@Candidate Value LatLng) (only parsing).
Local Abbreviation Sublayer := (@Sublayer Value LatLng) (only parsing).
Local Abbreviation Layer := (@Layer Value LatLng) (only parsing).
Implicit Types (st : State) (c o : Candidate)
  (idx : gmap string (list Candidate)) (b : Bounds).

Lemma lt_min_keep (a u : Z) (m : num) :
  Num.lt (Fin a) m = false →
  Num.lt (Fin a) (if Num.lt (Fin u) m then Fin u else m) = false.
Proof.
  destruct m as [z| | |]; simpl; try done.
  intros Ha. destruct (Z.ltb_spec u z); simpl; [| done].
  apply Z.ltb_ge in Ha. apply Z.ltb_ge. lia.
Qed.

Lemma lt_min_new (u : Z) (m : num) :
  Num.lt (Fin u) (if Num.lt (Fin u) m then Fin u else m) = false.
Proof.
  destruct (Num.lt (Fin u) m) eqn:Hl; [| done]. simpl. apply Z.ltb_irrefl.
Qed.

Lemma lt_max_keep (a u : Z) (m : num) :
  Num.lt m (Fin a) = false →
  Num.lt (if Num.lt m (Fin u) then Fin u else m) (Fin a) = false.
Proof.
  destruct m as [z| | |]; simpl; try done.
  intros Ha. destruct (Z.ltb_spec z u); simpl; [| done].
  apply Z.ltb_ge in Ha. apply Z.ltb_ge. lia.
Qed.

Lemma lt_max_new (u : Z) (m : num) :
  Num.lt (if Num.lt m (Fin u) then Fin u else m) (Fin u) = false.
Proof.
  destruct (Num.lt m (Fin u)) eqn:Hl; [| done]. simpl. apply Z.ltb_irrefl.
Qed.

Lemma index_sublayer_bounds st idx b sub :
  bounds_fit idx b →
  bounds_fit (index_sublayer st (idx, b) sub).1
             (index_sublayer st (idx, b) sub).2.
Proof.
  intros [Henc Hatt]. unfold index_sublayer.
  destruct (getLatLng sub) as [ll|]; [| done].
  set (pt := latLngToContainerPoint (lmap st) ll).
  set (k := key (_cellKeyFromPoint st pt)).
  destruct (pt_x pt) as [u| | |] eqn:Hu; cbn [Num.isFinite negb orb];
    try done.
  destruct (pt_y pt) as [v| | |] eqn:Hv; cbn [Num.isFinite negb orb];
    try done.
  set (o := {| cand_x := Fin u; cand_y := Fin v; cand_latlng := ll;
               cand_feature := sub_feature sub |}).
  cbn [fst snd].
  split.
  - intros c Hc. apply in_index_push in Hc as [Hc | ->].
    + destruct (Henc c Hc) as (Hfx & Hfy & H1 & H2 & H3 & H4).
      destruct (cand_x c) as [a| | |]; try done.
      destruct (cand_y c) as [a'| | |]; try done.
      cbn [minX maxX minY maxY].
      repeat split; auto using lt_min_keep, lt_max_keep.
    + cbn [minX maxX minY maxY o cand_x cand_y Num.isFinite].
      repeat split; auto using lt_min_new, lt_max_new.
  - right.
    assert (∀ c, in_index idx c ∨ c = o →
              in_index
                (<[k := default []
                          (match idx !! k with
                           | Some _ => idx
                           | None => <[k := []]> idx
                           end !! k) ++ [o]]>
                   (match idx !! k with
                    | Some _ => idx
                    | None => <[k := []]> idx
                    end)) c) as Hin.
    { intros c Hc. by apply in_index_push. }
    cbn [minX maxX minY maxY].
    destruct Hatt as [[Hnone ->]|(c1 & c2 & c3 & c4 & I1 & I2 & I3 & I4 &
                                  E1 & E2 & E3 & E4)].
    + exists o, o, o, o. cbn [minX maxX minY maxY Num.lt o cand_x cand_y].
      repeat split; auto.
    + exists (if Num.lt (Fin u) (minX b) then o else c1),
             (if Num.lt (maxX b) (Fin u) then o else c2),
             (if Num.lt (Fin v) (minY b) then o else c3),
             (if Num.lt (maxY b) (Fin v) then o else c4).
      destruct (Num.lt (Fin u) (minX b)), (Num.lt (maxX b) (Fin u)),
        (Num.lt (Fin v) (minY b)), (Num.lt (maxY b) (Fin v));
        repeat split; auto.
Qed.

Lemma index_sublayers_bounds st (subs : list Sublayer) idx b :
  bounds_fit idx b →
  bounds_fit (foldl (index_sublayer st) (idx, b) subs).1
             (foldl (index_sublayer st) (idx, b) subs).2.
Proof.
  revert idx b. induction subs as [|sub subs IH]; intros idx b Hf;
    cbn [foldl]; [done |].
  pose proof (index_sublayer_bounds st idx b sub Hf) as Hs.
  destruct (index_sublayer st (idx, b) sub) as [idx' b']. by apply IH.
Qed.

Lemma build_index_bounds st :
  bounds_fit (build_index st).1 (build_index st).2.
Proof.
  unfold build_index.
  assert (bounds_fit (∅ : gmap string (list Candidate))
            {| minX := PInf; maxX := NInf; minY := PInf; maxY := NInf |})
    as H0.
  { assert (∀ c : Candidate, ¬ in_index ∅ c) as Hnone.
    { intros c (k & arr & Hl & _). by rewrite lookup_empty in Hl. }
    split; [| by left]. intros c Hc. by destruct (Hnone c). }
  revert H0.
  generalize ({| minX := PInf; maxX := NInf; minY := PInf; maxY := NInf |}).
  generalize (∅ : gmap string (list Candidate)).
  generalize (Obj.entries (layers st)).
  induction l as [|[nm lyr] es IH]; intros idx b Hf; cbn [foldl]; [done |].
  assert (bounds_fit (index_layer st (idx, b) (nm, lyr)).1
                     (index_layer st (idx, b) (nm, lyr)).2) as Hs.
  { unfold index_layer.
    destruct (Obj.get nm (geojsonHoverable st)) as [[|]|]; simpl; try done.
    destruct (hasLayer (lmap st) (layer_id lyr)); simpl; [| done].
    by apply index_sublayers_bounds. }
  destruct (index_layer st (idx, b) (nm, lyr)) as [idx' b']. by apply IH.
Qed.

(** X4: the bounds stored by a rebuild are the bounding box of the index.
    No candidate lies outside them; when the index has a candidate each bound
    is the coordinate of one, and when it has none the bounds keep their
    initial infinite values. *)
Theorem rebuild_bounds_enclose st :
  ∃ idx b,
    hoverIndex (_rebuildHoverIndex st) = Some idx ∧
    hoverIndexBounds (_rebuildHoverIndex st) = Some b ∧
    (∀ c, in_index idx c →
          Num.lt (cand_x c) (minX b) = false ∧
          Num.lt (maxX b) (cand_x c) = false ∧
          Num.lt (cand_y c) (minY b) = false ∧
          Num.lt (maxY b) (cand_y c) = false) ∧
    ((∃ c, in_index idx c) →
       ∃ c1 c2 c3 c4,
         in_index idx c1 ∧ in_index idx c2 ∧
         in_index idx c3 ∧ in_index idx c4 ∧
         minX b = cand_x c1 ∧ maxX b = cand_x c2 ∧
         minY b = cand_y c3 ∧ maxY b = cand_y c4) ∧
    ((∀ c, ¬ in_index idx c) →
       b = {| minX := PInf; maxX := NInf; minY := PInf; maxY := NInf |}).
Proof.
  exists (build_index st).1, (build_index st).2. rewrite rebuild_eq.
  split; [done |]. split; [done |].
  destruct (build_index_bounds st) as [Henc Hatt]. split; [| split].
  - intros c Hc. by destruct (Henc c Hc) as (_ & _ & ? & ? & ? & ?).
  - intros [c Hc]. destruct Hatt as [[Hnone _]|?]; [| done].
    by destruct (Hnone c).
  - intros Hnone. destruct Hatt as [[_ ?]|(c1 & _ & _ & _ & I1 & _)]; [done |].
    by destruct (Hnone c1).
Qed.
End BoundsFacts.


(** *** A whole pass and the surface *)
Section SurfaceTheorems.
Context `{!Host GeoJson Value LatLng}.
Local Abbreviation State := (@State GeoJson Value LatLng) (only parsing).
Local Abbreviation Entry := (@Entry GeoJson) (only parsing).
Local Abbreviation Data := (@Data GeoJson) (only parsing).
Local Abbreviation Layer := (@Layer Value LatLng) (only parsing).
Implicit Types (st s : State) (data : Data) (name n nm k : string)
  (entry : Entry) (lyr old : Layer) (id : nat).

(** What a pass in a rendered widget is known to be. *)
Lemma reachable_pass data st :
  reachable st →
  is_Some (geojsonLayers st) ∧ surface_ok st ∧
  pass_work data st (syncGeojson data st) ∧
  reconciled data (syncGeojson data st).
Proof.
  intros Hr. pose proof (reachable_surface st Hr) as Hsf.
  apply reachable_tables_inv in Hr as [Hs _].
  destruct (sync_pass_whole data st) as [W Hrec].
  rewrite (ensure_tables_Some st Hs) in W. done.
Qed.

Lemma undesired data n :
  n ∉ snapshot_names data → Obj.get n (desired_of data) = None.
Proof.
  rewrite <- desired_names, elem_of_names_get. intros Hn.
  destruct (Obj.get n (desired_of data)); [| done]. exfalso. eauto.
Qed.

(** X7: a pass takes the overlay of a name that is no longer in the snapshot
    off the map and out of the layers control. *)
Theorem sync_detaches_dropped data st nm lyr :
  reachable st →
  Obj.get nm (layers st) = Some lyr → nm ∉ snapshot_names data →
  let st' := syncGeojson data st in
  Obj.get nm (layers st') = None ∧
  hasLayer (lmap st') (layer_id lyr) = false ∧
  layer_id lyr ∉ (geojsonControl st').*1.
Proof.
  intros Hr Hg Hn. cbn zeta.
  destruct (reachable_pass data st Hr) as (Hs & Hsf & W & Hrec).
  destruct (sync_absent data st nm Hn) as (Hnone & _).
  split; [done |].
  pose proof (undesired data nm Hn) as Hu.
  pose proof Hsf as (S1 & _).
  destruct (pw_gone _ _ _ W nm lyr Hg (S1 nm lyr Hg)
              (stale_undesired_true data st nm lyr Hu Hg))
    as [(Hsame & _)|[Hm Hc]].
  - congruence.
  - split; [by apply hasLayer_false |].
    intros [nm' Hin]%listed_elem. by apply (Hc nm').
Qed.

(** X8: a pass that re-creates an overlay puts the new layer on the map and
    in the layers control under the overlay's name, also when the former
    layer had been hidden, and takes the former layer off both. *)
Theorem sync_shows_recreated data st nm entry :
  reachable st →
  Obj.get nm (desired_of data) = Some entry →
  needsCreate st nm entry = true →
  let st' := syncGeojson data st in
  ∃ lyr', Obj.get nm (layers st') = Some lyr' ∧
          eachLayer lyr' = L_geoJSON (geojson entry) ∧
          hasLayer (lmap st') (layer_id lyr') = true ∧
          (layer_id lyr', nm) ∈ geojsonControl st' ∧
          ∀ old, Obj.get nm (layers st) = Some old →
                 layer_id old ≠ layer_id lyr' ∧
                 hasLayer (lmap st') (layer_id old) = false ∧
                 layer_id old ∉ (geojsonControl st').*1.
Proof.
  intros Hr He Hnc. cbn zeta.
  destruct (reachable_pass data st Hr) as (Hs & Hsf & W & Hrec).
  destruct (sync_present data st nm entry He) as (_ & _ & Hl).
  rewrite (ensure_tables_Some st Hs), Hnc in Hl.
  destruct Hl as (id & Hle & Hl).
  set (new := {| layer_id := id; eachLayer := L_geoJSON (geojson entry) |})
    in *.
  pose proof (pw_surface _ _ _ W Hsf) as (_ & _ & R3 & _).
  pose proof Hsf as (S1 & _).
  exists new. split; [done |]. split; [done |]. split.
  { apply hasLayer_true. by apply (pw_shown _ _ _ W Hsf nm new). }
  split; [by apply R3 |].
  intros old Hg. pose proof (S1 nm old Hg) as Hlt.
  split; [simpl; lia |].
  assert (stale data st nm = true) as Hst
    by by rewrite (stale_desired _ _ _ entry).
  destruct (pw_gone _ _ _ W nm old Hg Hlt Hst) as [(Hsame & _)|[Hm Hc]].
  - rewrite Hl, Hg in Hsame. injection Hsame as <-. simpl in Hlt. lia.
  - split; [by apply hasLayer_false |].
    intros [nm' Hin]%listed_elem. by apply (Hc nm').
Qed.

(** An object that is not the layer of a stale name is on the map after a
    pass exactly if it was before. *)
Lemma pass_keeps_shown data s s' id :
  pass_work data s s' → (id < next_id s)%nat →
  (∀ nm lyr, Obj.get nm (layers s) = Some lyr → layer_id lyr = id →
             stale data s nm = false) →
  hasLayer (lmap s') id = hasLayer (lmap s) id.
Proof.
  intros W Hid Hall.
  destruct (pw_kept _ _ _ W id Hid Hall) as [Hk _].
  destruct (pw_old _ _ _ W id Hid) as [Ho _].
  destruct (hasLayer (lmap s) id) eqn:E.
  - apply hasLayer_true. apply hasLayer_true in E. by apply Hk.
  - apply hasLayer_false. apply hasLayer_false in E. by intros ?%Ho.
Qed.

(** X9: a pass keeps the layer of an overlay whose content and group are
    unchanged, shown if it was shown and hidden if it was hidden, and keeps
    it in the layers control. *)
Theorem sync_keeps_unchanged data st nm entry lyr :
  reachable st →
  Obj.get nm (desired_of data) = Some entry →
  needsCreate st nm entry = false →
  Obj.get nm (layers st) = Some lyr →
  let st' := syncGeojson data st in
  Obj.get nm (layers st') = Some lyr ∧
  hasLayer (lmap st') (layer_id lyr) = hasLayer (lmap st) (layer_id lyr) ∧
  (layer_id lyr, nm) ∈ geojsonControl st'.
Proof.
  intros Hr He Hnc Hg. cbn zeta.
  destruct (reachable_pass data st Hr) as (Hs & Hsf & W & Hrec).
  assert (stale data st nm = false) as Hst
    by by rewrite (stale_desired _ _ _ entry).
  destruct (pass_work_settled data st _ nm W Hst) as (Hl & _).
  rewrite Hg in Hl.
  pose proof (pw_surface _ _ _ W Hsf) as (_ & _ & R3 & _).
  pose proof Hsf as (S1 & S2 & _).
  split; [done |]. split; [| by apply R3].
  apply (pass_keeps_shown data); [done | by apply (S1 nm) |].
  intros nm' lyr' Hg' Heq.
  assert (nm' = nm) as -> by by apply (S2 nm' lyr' nm lyr). done.
Qed.

(** X10: in a rendered widget every overlay of the layer table is listed in
    the layers control, under its own name. *)
Theorem reachable_control_lists_overlays st nm lyr :
  reachable st → Obj.get nm (layers st) = Some lyr →
  (layer_id lyr, nm) ∈ geojsonControl st.
Proof.
  intros Hr Hg. apply reachable_surface in Hr as (_ & _ & S3 & _).
  by apply S3.
Qed.

(** X13: a pass does not touch the hover marker: the marker object, its
    position and tooltip, and whether it is on the map stay as they were. *)
Theorem sync_leaves_hover_marker data st :
  reachable st →
  let st' := syncGeojson data st in
  hover st' = hover st ∧
  hasLayer (lmap st') (hover_id (hover st')) =
    hasLayer (lmap st) (hover_id (hover st)) ∧
  _mmPending st' = _mmPending st ∧ _mmLast st' = _mmLast st.
Proof.
  intros Hr. cbn zeta.
  destruct (reachable_pass data st Hr) as (Hs & Hsf & W & Hrec).
  rewrite sync_hover, sync_mmPending, sync_mmLast.
  split; [done |]. split; [| done].
  destruct Hsf as (_ & _ & _ & _ & _ & S6 & S7 & _).
  apply (pass_keeps_shown data); [done | done |].
  intros nm lyr Hg Heq. by apply S7 in Hg.
Qed.

(** X14: unticking a shown overlay whose content and group are unchanged
    hides it, and the pass that the event starts leaves it hidden, stored
    and listed in the control. *)
Theorem toggle_off_respected data st nm entry lyr :
  reachable st →
  Obj.get nm (desired_of data) = Some entry →
  needsCreate st nm entry = false →
  Obj.get nm (layers st) = Some lyr →
  hasLayer (lmap st) (layer_id lyr) = true →
  let st' := onOverlayToggle data (layer_id lyr) st in
  Obj.get nm (layers st') = Some lyr ∧
  hasLayer (lmap st') (layer_id lyr) = false ∧
  (layer_id lyr, nm) ∈ geojsonControl st'.
Proof.
  intros Hr He Hnc Hg Hon. cbn zeta. unfold onOverlayToggle.
  pose proof (reachable_surface st Hr) as Hsf.
  apply reachable_tables_inv in Hr as [Hs _].
  pose proof Hsf as (S1 & _ & S3 & _).
  assert (layer_id lyr ∈ (geojsonControl st).*1) as Hlisted.
  { apply listed_elem. exists nm. by apply S3. }
  pose proof (toggle_surface st (layer_id lyr) Hlisted Hsf) as Hsf0.
  rewrite Hon in *.
  set (st0 := set_lmap (removeLayer (lmap st) (layer_id lyr)) st) in *.
  destruct (sync_pass_whole data st0) as [W Hrec].
  rewrite (ensure_tables_Some st0 Hs) in W.
  assert (stale data st0 nm = false) as Hst
    by by rewrite (stale_desired _ _ _ entry).
  destruct (pass_work_settled data st0 _ nm W Hst) as (Hl & _).
  change (layers st0) with (layers st) in Hl. rewrite Hg in Hl.
  pose proof (pw_surface _ _ _ W Hsf0) as (_ & _ & R3 & _).
  split; [done |]. split; [| by apply R3].
  apply hasLayer_false. intros Hin.
  apply (pw_old _ _ _ W (layer_id lyr)) in Hin; [| by apply (S1 nm)].
  by apply elem_of_removeLayer in Hin as [_ ?].
Qed.
End SurfaceTheorems.

(** ** Passes: idempotence, the hover group, layers left behind *)
Section PassTheorems.
Context `{!Host GeoJson Value LatLng}.
Local Abbreviation State := (@State GeoJson Value LatLng) (only parsing).
Local Abbreviation Entry := (@Entry GeoJson) (only parsing).
Local Abbreviation Data := (@Data GeoJson) (only parsing).
Local Abbreviation Layer := (@Layer Value LatLng) (only parsing).
Local Abbreviation Candidate := (@Candidate Value LatLng) (only parsing).
Implicit Types (st s : State) (data : Data) (name n nm k : string)
  (entry : Entry) (lyr old : Layer) (id : nat) (c : Candidate).

(** X11: a second pass with the same snapshot leaves the map, the layers
    control, the three tables, the hover index and its bounds, the hover
    marker and the allocator as the first pass left them. *)
Theorem sync_same_snapshot_stable data st :
  let st' := syncGeojson data st in
  let st'' := syncGeojson data st' in
  lmap st'' = lmap st' ∧ geojsonControl st'' = geojsonControl st' ∧
  geojsonLayers st'' = geojsonLayers st' ∧
  geojsonData st'' = geojsonData st' ∧
  geojsonHoverable st'' = geojsonHoverable st' ∧
  hoverIndex st'' = hoverIndex st' ∧
  hoverIndexBounds st'' = hoverIndexBounds st' ∧
  hover st'' = hover st' ∧ next_id st'' = next_id st' ∧
  trace st'' = trace st' ++ [RebuiltHoverIndex].
Proof. cbn zeta. by rewrite sync_twice. Qed.

Lemma candidate_of_ext s s' sub :
  lmap s = lmap s' → candidate_of s sub = candidate_of s' sub.
Proof. intros Hm. unfold candidate_of. by rewrite Hm. Qed.

(** X12: after a pass the hover index holds the candidates of the overlays
    of the hover group that are on the map, and none of an overlay that the
    snapshot has in the static group only. *)
Theorem sync_indexes_hover_group data st :
  let st' := syncGeojson data st in
  ∃ idx,
    hoverIndex st' = Some idx ∧
    ∀ c,
      in_index idx c ↔
      ∃ nm lyr sub,
        nm ∈ Obj.keys (default [] (geojson_hover_overlays data)) ∧
        (nm, lyr) ∈ Obj.entries (layers st') ∧
        hasLayer (lmap st') (layer_id lyr) = true ∧
        sub ∈ eachLayer lyr ∧ candidate_of st' sub = Some c.
Proof.
  cbn zeta.
  assert (∀ nm lyr,
            (nm, lyr) ∈ Obj.entries (layers (syncGeojson data st)) →
            Obj.get nm (geojsonHoverable (syncGeojson data st)) = Some true ↔
            nm ∈ Obj.keys (default [] (geojson_hover_overlays data))) as Hh.
  { intros nm lyr Hin.
    assert (nm ∈ snapshot_names data) as Hsn.
    { destruct (decide (nm ∈ snapshot_names data)) as [|Hn]; [done |].
      destruct (sync_absent data st nm Hn) as (Hnone & _).
      assert (is_Some (Obj.get nm (layers (syncGeojson data st)))) as [? ?].
      { apply obj_get_is_Some_keys, list_elem_of_fmap. by exists (nm, lyr). }
      congruence. }
    rewrite <- desired_names in Hsn.
    apply elem_of_names_get in Hsn as [entry He].
    destruct (sync_present data st nm entry He) as (_ & -> & _).
    unfold desired_of in He. rewrite merge_desired_get in He.
    rewrite <- obj_keys_reverse, <- obj_get_is_Some_keys.
    destruct (Obj.get nm (reverse (default [] (geojson_hover_overlays data))))
      as [v|] eqn:Hv.
    - injection He as <-. simpl. split; eauto.
    - destruct (Obj.get nm (reverse (default [] (geojson_overlays data))));
        [| done].
      injection He as <-. simpl. split; [done |]. by intros [? ?]. }
  revert Hh. destruct (sync_work data st) as (s2 & -> & _).
  rewrite rebuild_eq. cbn [hoverIndex set_hoverIndex emit].
  intros Hh. exists (build_index s2).1. split; [done |]. intros c.
  rewrite build_index_spec. split.
  - intros (nm & lyr & sub & Hin & Hhov & Hon & Hsub & Hc).
    exists nm, lyr, sub. repeat split; try done. by apply (Hh nm lyr).
  - intros (nm & lyr & sub & Hk & Hin & Hon & Hsub & Hc).
    exists nm, lyr, sub. repeat split; try done. by apply (Hh nm lyr).
Qed.

(** X16: in a rendered widget every object that the scripts have put on the
    map and not taken off again is the hover marker or is listed in the
    layers control.  It need not be the layer that the layer table holds
    for a name: the pass that replaces an overlay whose layer is on the map
    is re-entered from [state.map.removeLayer], and the layer that the
    inner pass creates stays on the map and in the control when the outer
    pass overwrites it in the table. *)
Theorem reachable_map_objects_listed st id :
  reachable st → hasLayer (lmap st) id = true →
  id = hover_id (hover st) ∨ id ∈ (geojsonControl st).*1.
Proof.
  intros Hr Hon. apply reachable_surface in Hr as (_ & _ & _ & _ & _ & _ & _ & S8).
  apply hasLayer_true in Hon. destruct (S8 id Hon) as [?|Hin]; [by left |].
  right. by apply listed_elem.
Qed.
End PassTheorems.

(** ** Cell keys and buckets *)
Section KeyFacts.

Lemma all_chars_impl (P Q : Ascii.ascii → bool) s :
  (∀ c, P c = true → Q c = true) →
  all_chars P s = true → all_chars Q s = true.
Proof.
  intros HPQ. induction s as [|c s IH]; simpl; [done |].
  rewrite !andb_true_iff. intros [? ?]. auto.
Qed.

Lemma numeral_pretty_N_go (x : N) s :
  all_chars numeral_char s = true →
  all_chars numeral_char (pretty_N_go x s) = true.
Proof.
  revert s. induction (N.lt_wf_0 x) as [x _ IH]; intros s Hs.
  assert (x = 0 ∨ 0 < x)%N as [-> | Hx] by lia.
  - by rewrite pretty_N_go_0.
  - rewrite pretty_N_go_step by done. apply IH.
    { by apply N.div_lt. }
    simpl. rewrite Hs, andb_true_r.
    unfold pretty_N_char. by repeat case_match.
Qed.

Lemma numeral_pretty_N (x : N) : all_chars numeral_char (pretty x) = true.
Proof.
  unfold pretty, pretty_N. case_decide; [done |].
  by apply numeral_pretty_N_go.
Qed.

Lemma numeral_pretty_Z (z : Z) : all_chars numeral_char (pretty z) = true.
Proof.
  destruct z as [|p|p]; [done | apply numeral_pretty_N |].
  unfold pretty, pretty_Z. simpl. apply numeral_pretty_N.
Qed.

Lemma toString_not_colon (a : num) :
  all_chars not_colon (Num.toString a) = true.
Proof.
  destruct a as [z| | |]; [| done..]. simpl.
  apply (all_chars_impl numeral_char); [| apply numeral_pretty_Z].
  intros c Hn. unfold not_colon.
  destruct (bool_decide (String c EmptyString = ":")) eqn:E; [| done].
  apply bool_decide_eq_true in E. injection E as ->. by vm_compute in Hn.
Qed.

Lemma toString_inj (a b : num) : Num.toString a = Num.toString b → a = b.
Proof.
  assert (∀ (z : Z) s, all_chars numeral_char s = false → pretty z ≠ s)
    as Hne.
  { intros z s Hs Heq. by rewrite <- Heq, numeral_pretty_Z in Hs. }
  destruct a as [x| | |], b as [y| | |]; simpl; intros Heq; try done;
    try (by apply Hne in Heq); try (symmetry in Heq; by apply Hne in Heq).
  f_equal. by apply (inj pretty).
Qed.

Lemma key_split (a b a' b' : string) :
  all_chars not_colon a = true → all_chars not_colon a' = true →
  a +:+ ":" +:+ b = a' +:+ ":" +:+ b' → a = a' ∧ b = b'.
Proof.
  assert (∀ c x y, String c x +:+ y = String c (x +:+ y)) as Hcons by done.
  assert (∀ y, "" +:+ y = y) as Hnil by done.
  revert a'. induction a as [|c a IH]; intros [|c' a'];
    rewrite ?Hcons, ?Hnil, ?Hcons, ?Hnil; cbn [all_chars].
  - intros _ _ Heq. by injection Heq as ->.
  - rewrite andb_true_iff. intros _ [Hc _] Heq. injection Heq as <- _. done.
  - rewrite andb_true_iff. intros [Hc _] _ Heq. injection Heq as -> _. done.
  - rewrite !andb_true_iff. intros [_ Ha] [_ Ha'] Heq.
    injection Heq as -> Heq.
    destruct (IH a' Ha Ha' Heq) as [-> ->]. done.
Qed.
End KeyFacts.

Section BucketFacts.
Context `{!Host GeoJson Value LatLng}.
Local Abbreviation State := (@State GeoJson Value LatLng) (only parsing).
Local Abbreviation Candidate := (@Candidate Value LatLng) (only parsing).
Implicit Types (st : State) (c : Candidate) (p q : Point).

(** The key of a cell determines the cell. *)
Lemma cell_key_inj st p q :
  key (_cellKeyFromPoint st p) = key (_cellKeyFromPoint st q) →
  cx (_cellKeyFromPoint st p) = cx (_cellKeyFromPoint st q) ∧
  cy (_cellKeyFromPoint st p) = cy (_cellKeyFromPoint st q).
Proof.
  unfold _cellKeyFromPoint. cbn [key cx cy]. intros Heq.
  apply key_split in Heq as [Hx Hy]; try apply toString_not_colon.
  split; by apply toString_inj.
Qed.

(** X15: in a rendered widget two indexed candidates are in the same bucket
    exactly when they are in the same grid cell, and two candidates of a
    bucket are less than one cell size apart along both axes. *)
Theorem buckets_are_cells st idx k1 k2 arr1 arr2 c1 c2 :
  reachable st → hoverIndex st = Some idx →
  idx !! k1 = Some arr1 → c1 ∈ arr1 →
  idx !! k2 = Some arr2 → c2 ∈ arr2 →
  (k1 = k2 ↔
   cx (_cellKeyFromPoint st (cand_point c1)) =
     cx (_cellKeyFromPoint st (cand_point c2)) ∧
   cy (_cellKeyFromPoint st (cand_point c1)) =
     cy (_cellKeyFromPoint st (cand_point c2))) ∧
  (k1 = k2 →
   ∃ x1 y1 x2 y2,
     cand_x c1 = Fin x1 ∧ cand_y c1 = Fin y1 ∧
     cand_x c2 = Fin x2 ∧ cand_y c2 = Fin y2 ∧
     (Z.abs (x1 - x2) < 25)%Z ∧ (Z.abs (y1 - y2) < 25)%Z).
Proof.
  intros Hr Hi H1 Hc1 H2 Hc2.
  apply reachable_hover_inv in Hr as (Hg & _ & Hf).
  destruct (Hf idx Hi k1 arr1 c1 H1 Hc1) as (Hx1 & Hy1 & Hk1).
  destruct (Hf idx Hi k2 arr2 c2 H2 Hc2) as (Hx2 & Hy2 & Hk2).
  assert (k1 = k2 ↔
          cx (_cellKeyFromPoint st (cand_point c1)) =
            cx (_cellKeyFromPoint st (cand_point c2)) ∧
          cy (_cellKeyFromPoint st (cand_point c1)) =
            cy (_cellKeyFromPoint st (cand_point c2))) as Hiff.
  { rewrite <- Hk1, <- Hk2. split; [apply cell_key_inj |].
    unfold _cellKeyFromPoint. cbn [key cx cy]. by intros [-> ->]. }
  split; [done |]. intros Hk. apply Hiff in Hk as [Hcx Hcy].
  unfold _cellKeyFromPoint in Hcx, Hcy. cbn [cx cy cand_point pt_x pt_y] in *.
  rewrite Hg in Hcx, Hcy.
  destruct (cand_x c1) as [x1| | |], (cand_y c1) as [y1| | |],
    (cand_x c2) as [x2| | |], (cand_y c2) as [y2| | |]; try done.
  exists x1, y1, x2, y2. repeat (split; [done |]).
  simpl in Hcx, Hcy. injection Hcx as Hcx. injection Hcy as Hcy.
  pose proof (Z.div_mod x1 25 ltac:(lia)).
  pose proof (Z.div_mod x2 25 ltac:(lia)).
  pose proof (Z.div_mod y1 25 ltac:(lia)).
  pose proof (Z.div_mod y2 25 ltac:(lia)).
  pose proof (Z.mod_pos_bound x1 25 ltac:(lia)).
  pose proof (Z.mod_pos_bound x2 25 ltac:(lia)).
  pose proof (Z.mod_pos_bound y1 25 ltac:(lia)).
  pose proof (Z.mod_pos_bound y2 25 ltac:(lia)).
  lia.
Qed.
End BucketFacts.

(** ** The order of the candidates in the index *)
Section OrderFacts.
Context `{!Host GeoJson Value LatLng}.
Local Abbreviation State := (@State GeoJson Value LatLng) (only parsing).
Local Abbreviation Candidate := (@Candidate Value LatLng) (only parsing).
Local Abbreviation Sublayer := (@Sublayer Value LatLng) (only parsing).
Local Abbreviation Layer := (@Layer Value LatLng) (only parsing).
Implicit Types (st : State) (c o : Candidate) (cs : list Candidate)
  (idx : gmap string (list Candidate)) (k : string).

Lemma in_cell_app st k cs cs' :
  in_cell st k (cs ++ cs') = in_cell st k cs ++ in_cell st k cs'.
Proof. unfold in_cell. apply filter_app. Qed.

Lemma index_lists_default st idx cs k :
  index_lists st idx cs → default [] (idx !! k) = in_cell st k cs.
Proof. intros Hl. rewrite (Hl k). by destruct (in_cell st k cs). Qed.

Lemma index_sublayer_lists st idx b cs sub :
  index_lists st idx cs →
  index_lists st (index_sublayer st (idx, b) sub).1
    (cs ++ from_option (λ c, [c]) [] (candidate_of st sub)).
Proof.
  intros Hl. unfold index_sublayer, candidate_of.
  destruct (getLatLng sub) as [ll|]; [| by rewrite app_nil_r].
  set (pt := latLngToContainerPoint (lmap st) ll).
  destruct (Num.isFinite (pt_x pt)), (Num.isFinite (pt_y pt));
    cbn [negb orb andb from_option fst]; try by rewrite app_nil_r.
  set (o := {| cand_x := pt_x pt; cand_y := pt_y pt; cand_latlng := ll;
               cand_feature := sub_feature sub |}).
  set (k0 := key (_cellKeyFromPoint st pt)).
  assert (key (_cellKeyFromPoint st (cand_point o)) = k0) as Hko by done.
  assert (default []
            (match idx !! k0 with
             | Some _ => idx
             | None => <[k0 := []]> idx
             end !! k0) = in_cell st k0 cs) as ->.
  { rewrite <- (index_lists_default st idx cs k0 Hl).
    destruct (idx !! k0) eqn:Hi; [by rewrite Hi | by rewrite lookup_insert_eq]. }
  intros k. rewrite in_cell_app.
  assert (in_cell st k [o] = if decide (k0 = k) then [o] else []) as ->.
  { unfold in_cell. rewrite filter_cons, filter_nil, Hko.
    by destruct (decide (k0 = k)). }
  destruct (decide (k0 = k)) as [<-|Hne].
  - rewrite lookup_insert_eq. by destruct (in_cell st k0 cs).
  - rewrite lookup_insert_ne by done. rewrite app_nil_r, <- (Hl k).
    destruct (idx !! k0); [done |]. by rewrite lookup_insert_ne.
Qed.

Lemma index_sublayers_lists st subs idx b cs :
  index_lists st idx cs →
  index_lists st (foldl (index_sublayer st) (idx, b) subs).1
    (cs ++ omap (candidate_of st) subs).
Proof.
  revert idx b cs. induction subs as [|sub subs IH]; intros idx b cs Hl;
    cbn [foldl].
  { by rewrite app_nil_r. }
  pose proof (index_sublayer_lists st idx b cs sub Hl) as Hl'.
  destruct (index_sublayer st (idx, b) sub) as [idx' b'].
  specialize (IH idx' b' _ Hl'). rewrite <- app_assoc in IH.
  cbn [omap list_omap]. fold (omap (candidate_of st) subs).
  by destruct (candidate_of st sub).
Qed.

Lemma index_layers_lists st (es : list (string * Layer)) idx b cs :
  index_lists st idx cs →
  index_lists st (foldl (index_layer st) (idx, b) es).1
    (cs ++ flat_map
             (λ '(nm, lyr),
                match Obj.get nm (geojsonHoverable st) with
                | Some true =>
                    if hasLayer (lmap st) (layer_id lyr)
                    then omap (candidate_of st) (eachLayer lyr)
                    else []
                | _ => []
                end) es).
Proof.
  revert idx b cs. induction es as [|[nm lyr] es IH]; intros idx b cs Hl;
    cbn [foldl flat_map].
  { by rewrite app_nil_r. }
  rewrite app_assoc. unfold index_layer at 2.
  destruct (Obj.get nm (geojsonHoverable st)) as [[|]|];
    rewrite ?app_nil_r; try by apply IH.
  destruct (hasLayer (lmap st) (layer_id lyr)); cbn [negb];
    rewrite ?app_nil_r; [| by apply IH].
  pose proof (index_sublayers_lists st (eachLayer lyr) idx b cs Hl) as Hl'.
  destruct (foldl (index_sublayer st) (idx, b) (eachLayer lyr)) as [idx' b'].
  by apply IH.
Qed.

Lemma build_index_lists st : index_lists st (build_index st).1 (candidates st).
Proof.
  unfold build_index, candidates.
  apply (index_layers_lists st _ ∅ _ []).
  intros k. by rewrite lookup_empty.
Qed.

(** X22: a rebuild files each candidate exactly once.  Under every key the
    index holds the candidates of that cell in the order of the layer table
    and of the sublayers, points met twice are kept twice, and a cell
    without candidate has no bucket. *)
Theorem rebuild_buckets_in_order st :
  ∃ idx,
    hoverIndex (_rebuildHoverIndex st) = Some idx ∧
    ∀ k, idx !! k =
         match in_cell st k (candidates st) with
         | [] => None
         | c :: b => Some (c :: b)
         end.
Proof.
  exists (build_index st).1. split; [by rewrite rebuild_eq |].
  apply build_index_lists.
Qed.
End OrderFacts.

(** ** The [style] callback *)
Section StyleFacts.
Context `{!Host GeoJson Value LatLng} `{!Chroma Value}.
Local Abbreviation Feature := (@Feature Value) (only parsing).
Local Abbreviation OptVal := (OptVal Value) (only parsing).
Implicit Types (p cp : list (string * Value)) (s : list (string * OptVal))
  (feature : Feature) (k : string) (v : Value).

Lemma style_pick_get p cp s k k' :
  Obj.get k' (style_pick p cp s k) =
  if decide (k' = k)
  then match style_source cp {| properties := Some p |} k with
       | Some v => Some (FromData v)
       | None => Obj.get k' s
       end
  else Obj.get k' s.
Proof.
  unfold style_pick, style_source. cbn [properties default from_option id].
  destruct (decide (k' = k)) as [->|Hne].
  - destruct (defined k p); [by rewrite obj_get_set_eq |].
    destruct (defined k cp); [by rewrite obj_get_set_eq | done].
  - destruct (defined k p); [by rewrite obj_get_set_ne |].
    destruct (defined k cp); [by rewrite obj_get_set_ne | done].
Qed.

Lemma style_loop_get p cp ks s k :
  Obj.get k (foldl (style_pick p cp) s ks) =
  if decide (k ∈ ks)
  then match style_source cp {| properties := Some p |} k with
       | Some v => Some (FromData v)
       | None => Obj.get k s
       end
  else Obj.get k s.
Proof.
  revert s. induction ks as [|k0 ks IH]; intros s; cbn [foldl].
  { rewrite decide_False; [done | apply not_elem_of_nil]. }
  rewrite IH, !style_pick_get.
  destruct (decide (k = k0)) as [->|Hne].
  - rewrite (decide_True (P := k0 ∈ k0 :: ks)) by apply list_elem_of_here.
    destruct (style_source cp _ k0); by case_decide.
  - destruct (decide (k ∈ ks)) as [Hin|Hin].
    + rewrite decide_True; [done | by apply list_elem_of_further].
    + rewrite decide_False; [done |]. rewrite elem_of_cons. tauto.
Qed.

Lemma style_source_None cp k :
  style_source cp {| properties := None |} k =
  style_source cp {| properties := Some [] |} k.
Proof. done. Qed.

Lemma style_loop_empty p cp ks :
  length (Obj.keys (foldl (style_pick p cp) [] ks)) = 0%nat ↔
  ∀ k, k ∈ ks → style_source cp {| properties := Some p |} k = None.
Proof.
  split.
  - intros Hlen k Hk. apply length_zero_iff_nil in Hlen.
    assert (Obj.get k (foldl (style_pick p cp) [] ks) = None) as Hg.
    { apply obj_get_None_keys. rewrite Hlen. apply not_elem_of_nil. }
    rewrite style_loop_get, decide_True in Hg by done.
    by destruct (style_source cp _ k).
  - intros Hall.
    assert (foldl (style_pick p cp) [] ks = []) as ->; [| done].
    induction ks as [|k ks IH]; cbn [foldl]; [done |].
    assert (style_pick p cp [] k = []) as ->.
    { specialize (Hall k (list_elem_of_here _ _)).
      unfold style_source, style_pick in *. cbn [properties default from_option id] in Hall.
      destruct (defined k p); [done |]. by rewrite Hall. }
    apply IH. intros k' Hk'. by apply Hall, list_elem_of_further.
Qed.

Lemma allowed_not_renderer : "renderer" ∉ allowed.
Proof. compute_done. Qed.

Lemma style_of_props cp feature :
  style cp feature =
  style cp {| properties := Some (default [] (properties feature)) |}.
Proof. by destruct feature as [[p|]]. Qed.

Lemma style_source_of_props cp feature k :
  style_source cp feature k =
  style_source cp {| properties := Some (default [] (properties feature)) |} k.
Proof. by destruct feature as [[p|]]. Qed.

(** The lookup in the result of [style], by cases on whether any allowed key
    is given. *)
Lemma style_get cp feature k :
  Obj.get k (style cp feature) =
  if decide (k = "renderer") then Some CanvasRenderer
  else
    let s := foldl (style_pick (default [] (properties feature)) cp) []
                   allowed in
    if (length (Obj.keys s) =? 0)%nat
    then Obj.get k [("color", OStr "#3388ff"); ("weight", ONum 2 0);
                    ("fillOpacity", ONum 2 1)]
    else if decide (k ∈ allowed)
         then FromData <$> style_source cp feature k
         else None.
Proof.
  rewrite style_of_props, style_source_of_props.
  set (p := default [] (properties feature)).
  unfold style. cbn [properties default from_option id]. cbn zeta.
  destruct (decide (k = "renderer")) as [->|Hne].
  { by rewrite obj_get_set_eq. }
  rewrite obj_get_set_ne by done.
  destruct (length (Obj.keys (foldl (style_pick p cp) [] allowed)) =? 0)%nat
    eqn:Hlen.
  - apply Nat.eqb_eq, length_zero_iff_nil in Hlen.
    destruct (foldl (style_pick p cp) [] allowed); [| done]. done.
  - rewrite style_loop_get. case_decide; [| done].
    by destruct (style_source cp _ k).
Qed.

(** X17: the [style] callback passes on property values for the eight
    allowed keys only, and always sets the shared canvas renderer, whatever
    the properties hold under [renderer]. *)
Theorem style_passes_allowed_only cp feature :
  Obj.get "renderer" (style cp feature) = Some CanvasRenderer ∧
  (∀ k, k ∈ Obj.keys (style cp feature) → k = "renderer" ∨ k ∈ allowed) ∧
  (∀ k v, Obj.get k (style cp feature) = Some (FromData v) →
          k ∈ allowed ∧ style_source cp feature k = Some v).
Proof.
  split; [by rewrite style_get |]. split.
  - intros k Hk. apply obj_get_is_Some_keys in Hk as [o Hk].
    rewrite style_get in Hk. case_decide; [by left |]. right.
    cbn zeta in Hk. destruct (_ =? _)%nat.
    + simpl in Hk. repeat case_decide; subst; try done; compute_done.
    + by case_decide.
  - intros k v Hk. rewrite style_get in Hk. case_decide; [done |].
    cbn zeta in Hk. destruct (_ =? _)%nat.
    + simpl in Hk. by repeat case_decide.
    + case_decide; [| done]. split; [done |].
      destruct (style_source cp feature k); by simplify_eq/=.
Qed.

(** X18: for an allowed key the [style] callback passes the feature's value
    when the feature defines one, else the collection's; a key that neither
    defines is left out as soon as any allowed key is defined. *)
Theorem style_feature_over_collection cp feature k :
  k ∈ allowed →
  (∀ v, style_source cp feature k = Some v →
        Obj.get k (style cp feature) = Some (FromData v)) ∧
  (style_source cp feature k = None →
   (∃ k', k' ∈ allowed ∧ is_Some (style_source cp feature k')) →
   Obj.get k (style cp feature) = None).
Proof.
  intros Hk.
  assert (k ≠ "renderer") as Hne.
  { intros ->. by apply allowed_not_renderer. }
  assert (∀ k', k' ∈ allowed → is_Some (style_source cp feature k') →
            (length (Obj.keys
               (foldl (style_pick (default [] (properties feature)) cp) []
                      allowed)) =? 0)%nat = false) as Hlen.
  { intros k' Hk' [v Hv]. apply Nat.eqb_neq. rewrite style_loop_empty.
    intros Hall. specialize (Hall k' Hk').
    rewrite <- style_source_of_props in Hall. by rewrite Hall in Hv. }
  rewrite style_get, decide_False, decide_True by done. cbn zeta. split.
  - intros v Hv. rewrite (Hlen k) by (by rewrite ?Hv). by rewrite Hv.
  - intros Hnone (k' & Hk' & Hs). rewrite (Hlen k') by done.
    by rewrite Hnone.
Qed.

(** X19: the [style] callback applies the defaults exactly when neither the
    feature nor the collection defines any allowed key: it then returns the
    default colour, weight and fill opacity with the renderer and nothing
    else.  As soon as an allowed key is defined it returns, besides the
    renderer, the allowed keys that are defined, each with the value given,
    and no default: which of the two it did shows in the keys that nobody
    gave, not in the values, since a feature may give the very values of the
    defaults. *)
Theorem style_defaults_or_given cp feature :
  ((∀ k, k ∈ allowed → style_source cp feature k = None) →
   style cp feature =
     [("color", OStr "#3388ff"); ("weight", ONum 2 0);
      ("fillOpacity", ONum 2 1); ("renderer", CanvasRenderer)]) ∧
  ((∃ k, k ∈ allowed ∧ is_Some (style_source cp feature k)) →
   ∀ k, Obj.get k (style cp feature) =
        if decide (k = "renderer") then Some CanvasRenderer
        else if decide (k ∈ allowed)
             then FromData <$> style_source cp feature k
             else None) ∧
  ((∀ k, k ∈ allowed → style_source cp feature k = None) ↔
   ∃ k, k ∈ allowed ∧ style_source cp feature k = None ∧
        is_Some (Obj.get k (style cp feature))).
Proof.
  assert ((∀ k, k ∈ allowed → style_source cp feature k = None) →
          style cp feature =
            [("color", OStr "#3388ff"); ("weight", ONum 2 0);
             ("fillOpacity", ONum 2 1); ("renderer", CanvasRenderer)])
    as Hdef.
  { intros Hall. rewrite style_of_props. unfold style.
    cbn [properties default from_option id]. cbn zeta.
    assert (foldl (style_pick (default [] (properties feature)) cp) []
                  allowed = []) as ->; [| done].
    apply length_zero_iff_nil.
    assert (∀ o : list (string * OptVal), length (Obj.keys o) = length o)
      as <- by (intros o; apply length_map).
    apply style_loop_empty. intros k Hk.
    rewrite <- style_source_of_props. by apply Hall. }
  assert ((∃ k, k ∈ allowed ∧ is_Some (style_source cp feature k)) →
          ∀ k, Obj.get k (style cp feature) =
               if decide (k = "renderer") then Some CanvasRenderer
               else if decide (k ∈ allowed)
                    then FromData <$> style_source cp feature k
                    else None) as Hgiven.
  { intros (k' & Hk' & [v Hv]) k. rewrite style_get. cbn zeta.
    destruct (decide (k = "renderer")); [done |].
    assert ((length (Obj.keys
               (foldl (style_pick (default [] (properties feature)) cp) []
                      allowed)) =? 0)%nat = false) as ->; [| done].
    apply Nat.eqb_neq. rewrite style_loop_empty.
    intros Hall. specialize (Hall k' Hk').
    rewrite <- style_source_of_props in Hall. by rewrite Hall in Hv. }
  split; [done |]. split; [done |]. split.
  - intros Hall. exists "weight". split; [compute_done |].
    split; [apply Hall; compute_done |]. rewrite (Hdef Hall). by eexists.
  - intros (k0 & Hk0 & Hnone & Hsome) k Hk.
    destruct (style_source cp feature k) as [v|] eqn:Hv; [| done].
    exfalso. rewrite Hgiven in Hsome by (exists k; by rewrite Hv).
    rewrite decide_False, decide_True, Hnone in Hsome; try done.
    + by destruct Hsome.
    + intros ->. by apply allowed_not_renderer.
Qed.
End StyleFacts.

(** ** The [pointToLayer] callback *)
Section MarkerFacts.
Context `{!Host GeoJson Value LatLng} `{!Chroma Value}.
Local Abbreviation Feature := (@Feature Value) (only parsing).
Local Abbreviation OptVal := (OptVal Value) (only parsing).
Implicit Types (p cp : list (string * Value))
  (s t o : list (string * OptVal)) (feature : Feature) (k : string)
  (v : Value).

Lemma obj_get_reverse_eq {V} (l : list (string * V)) k :
  NoDup (Obj.keys l) → Obj.get k (reverse l) = Obj.get k l.
Proof.
  intros Hnd. destruct (Obj.get k l) as [x|] eqn:Hg.
  - by apply obj_get_reverse.
  - apply obj_get_None_keys. rewrite obj_keys_reverse.
    by apply obj_get_None_keys.
Qed.

Lemma assign_get t o k :
  NoDup (Obj.keys o) →
  Obj.get k (assign t o) =
  match Obj.get k o with Some x => Some x | None => Obj.get k t end.
Proof.
  intros Hnd. unfold assign, Obj.entries.
  rewrite (assign_all_get id), obj_get_reverse_eq by done.
  by destruct (Obj.get k o).
Qed.

Lemma assign_NoDup t o : NoDup (Obj.keys t) → NoDup (Obj.keys (assign t o)).
Proof. apply (assign_all_NoDup id). Qed.

Lemma from_data_keys p : Obj.keys (from_data p) = Obj.keys p.
Proof.
  unfold from_data, Obj.keys. rewrite map_map. apply map_ext.
  by intros [k v].
Qed.

Lemma from_data_get p k :
  Obj.get k (from_data p) = FromData <$> Obj.get k p.
Proof.
  induction p as [|[k' v] p IH]; simpl; [done |]. by case_decide.
Qed.

(** The lookup in [merged] and in the copy [opts] of it. *)
Lemma merged_get cp p k :
  NoDup (Obj.keys cp) → NoDup (Obj.keys p) →
  let merged :=
    assign (assign (assign [] baseOpts) (from_data cp)) (from_data p) in
  NoDup (Obj.keys merged) ∧
  Obj.get k merged =
    match given cp {| properties := Some p |} k with
    | Some v => Some (FromData v)
    | None => Obj.get k baseOpts
    end.
Proof.
  intros Hcp Hp. cbn zeta. split.
  { do 3 apply assign_NoDup. apply NoDup_nil_2. }
  assert (NoDup (Obj.keys (@baseOpts Value))) as Hb by compute_done.
  rewrite !assign_get, !from_data_get by (by rewrite ?from_data_keys).
  unfold given. cbn [properties default from_option id].
  destruct (Obj.get k p); [done |]. destruct (Obj.get k cp); [done |].
  cbn [fmap option_fmap option_map Obj.get].
  by destruct (Obj.get k (@baseOpts Value)).
Qed.

Lemma pointToLayer_of_props cp feature :
  pointToLayer cp feature =
  pointToLayer cp {| properties := Some (default [] (properties feature)) |}.
Proof. by destruct feature as [[p|]]. Qed.

Lemma given_of_props cp feature k :
  given cp feature k =
  given cp {| properties := Some (default [] (properties feature)) |} k.
Proof. by destruct feature as [[p|]]. Qed.

(** X20: the marker options take every property of the feature and, for the
    keys that the feature does not have, every property of the collection;
    the radius 3, the weight 0, the non-interactive flag and the canvas
    renderer are used only for keys that neither has. *)
Theorem marker_options_merge cp feature k :
  NoDup (Obj.keys cp) →
  NoDup (Obj.keys (default [] (properties feature))) →
  k ≠ "color" → k ≠ "fillColor" →
  Obj.get k (pointToLayer cp feature) =
  match given cp feature k with
  | Some v => Some (FromData v)
  | None => Obj.get k baseOpts
  end.
Proof.
  intros Hcp Hp Hc Hf. rewrite pointToLayer_of_props, given_of_props.
  set (p := default [] (properties feature)) in *.
  destruct (merged_get cp p k Hcp Hp) as [Hnd Hg]. cbn zeta in Hnd, Hg.
  unfold pointToLayer. cbn [properties default from_option id]. cbn zeta.
  set (merged := assign (assign (assign [] baseOpts) (from_data cp))
                        (from_data p)) in *.
  set (colorToUse := match _ with Some c => c | None => _ end).
  rewrite <- Hg. clear Hg.
  assert (Obj.get k (assign [] merged) = Obj.get k merged) as <-.
  { rewrite assign_get by done. by destruct (Obj.get k merged). }
  set (opts1 := if negb (truthy_at "color" (assign [] merged))
                then Obj.set "color" colorToUse (assign [] merged)
                else assign [] merged).
  assert (Obj.get k opts1 = Obj.get k (assign [] merged)) as <-.
  { subst opts1. destruct (negb (truthy_at "color" (assign [] merged)));
      by rewrite ?obj_get_set_ne by done. }
  destruct (negb (truthy_at "fillColor" opts1));
    by rewrite ?obj_get_set_ne by done.
Qed.

(** X21: the stroke colour of the marker is the truthy [color] property if
    there is one, else the truthy [fillColor] property, else the computed
    colour; the fill colour is the truthy [fillColor] property if there is
    one, else the truthy [color] property, else the computed colour.  A
    property is looked up on the feature first, so that a falsy [color] of
    the feature hides the collection's. *)
Theorem marker_colours cp feature :
  NoDup (Obj.keys cp) →
  NoDup (Obj.keys (default [] (properties feature))) →
  let c := given_truthy cp feature "color" in
  let f := given_truthy cp feature "fillColor" in
  let auto := OStr (auto_color cp (default [] (properties feature))) in
  Obj.get "color" (pointToLayer cp feature) =
    Some match c, f with
         | Some v, _ => FromData v
         | None, Some w => FromData w
         | None, None => auto
         end ∧
  Obj.get "fillColor" (pointToLayer cp feature) =
    Some match f, c with
         | Some w, _ => FromData w
         | None, Some v => FromData v
         | None, None => auto
         end.
Proof.
  intros Hcp Hp. cbn zeta. unfold given_truthy.
  rewrite pointToLayer_of_props, (given_of_props cp feature "color"),
    (given_of_props cp feature "fillColor").
  set (p := default [] (properties feature)) in *.
  destruct (merged_get cp p "color" Hcp Hp) as [Hnd Hc].
  destruct (merged_get cp p "fillColor" Hcp Hp) as [_ Hf].
  cbn zeta in Hnd, Hc, Hf.
  change (Obj.get "color" (@baseOpts Value)) with (@None OptVal) in Hc.
  change (Obj.get "fillColor" (@baseOpts Value)) with (@None OptVal) in Hf.
  unfold pointToLayer. cbn [properties default from_option id]. cbn zeta.
  set (merged := assign (assign (assign [] baseOpts) (from_data cp))
                        (from_data p)) in *.
  set (auto := OStr (auto_color cp p)).
  assert (∀ k, Obj.get k (assign [] merged) = Obj.get k merged) as Hcopy.
  { intros k. rewrite assign_get by done. by destruct (Obj.get k merged). }
  set (opts := assign [] merged) in *.
  assert (truthy_at "color" opts = truthy_at "color" merged) as ->.
  { unfold truthy_at. by rewrite Hcopy. }
  set (colorToUse := match (if truthy_at "color" merged then _ else _) with
                     | Some c => c
                     | None => auto
                     end).
  set (opts1 := if negb (truthy_at "color" merged)
                then Obj.set "color" colorToUse opts else opts).
  assert (Obj.get "fillColor" opts1 = Obj.get "fillColor" merged) as Hf1.
  { subst opts1. destruct (negb (truthy_at "color" merged));
      rewrite ?obj_get_set_ne by done; apply Hcopy. }
  assert (Obj.get "color" opts1 =
          if truthy_at "color" merged then Obj.get "color" merged
          else Some colorToUse) as Hc1.
  { subst opts1. destruct (truthy_at "color" merged); cbn [negb].
    - apply Hcopy.
    - apply obj_get_set_eq. }
  assert (truthy_at "fillColor" opts1 = truthy_at "fillColor" merged) as ->.
  { unfold truthy_at. by rewrite Hf1. }
  set (opts2 := if negb (truthy_at "fillColor" merged)
                then Obj.set "fillColor" colorToUse opts1 else opts1).
  assert (Obj.get "color" opts2 = Obj.get "color" opts1) as ->.
  { subst opts2. destruct (negb (truthy_at "fillColor" merged));
      by rewrite ?obj_get_set_ne by done. }
  assert (Obj.get "fillColor" opts2 =
          if truthy_at "fillColor" merged then Obj.get "fillColor" merged
          else Some colorToUse) as ->.
  { subst opts2. destruct (truthy_at "fillColor" merged); cbn [negb].
    - apply Hf1.
    - apply obj_get_set_eq. }
  rewrite Hc1. subst colorToUse. unfold truthy_at. rewrite Hc, Hf.
  destruct (given cp _ "color") as [v|], (given cp _ "fillColor") as [w|];
    cbn [truthy];
    repeat match goal with
           | |- context [ToBoolean ?x] => destruct (ToBoolean x)
           end;
    done.
Qed.
End MarkerFacts.


(** ** Examples for the further properties *)

Lemma demo_st_moved_reachable : reachable demo_st_moved.
Proof.
  exists demo_project. apply (rtc_r _ demo_st1).
  - apply rtc_once. apply (step_sync demo_data_AB).
  - unfold demo_st_moved.
    apply (step_mousemove demo_data_AB (demo_ev (3, 4)%Z) demo_st1).
Qed.

Lemma demo_st_hidden_reachable : reachable demo_st_hidden.
Proof.
  exists demo_project. apply (rtc_r _ demo_st1).
  - apply rtc_once. apply (step_sync demo_data_AB).
  - unfold demo_st_hidden.
    apply (step_toggle demo_data_AB 2 demo_st1). compute_done.
Qed.

Lemma demo_st_tie_reachable : reachable demo_st_tie.
Proof. exists demo_project. apply rtc_once. apply (step_sync demo_data_tie). Qed.

Lemma pending_frame_ready_witness :
  reachable demo_st_moved ∧ _mmPending demo_st_moved = true ∧
  is_Some (_mmLast demo_st_moved) ∧ is_Some (hoverIndex demo_st_moved).
Proof.
  assert (_mmPending demo_st_moved = true) as Hp by (vm_compute; reflexivity).
  split; [exact demo_st_moved_reachable |]. split; [exact Hp |].
  exact (pending_frame_ready demo_st_moved demo_st_moved_reachable Hp).
Defined.

Lemma queryNearest_first_of_ties_witness :
  queryNearest demo_st_tie demo_idx_tie (demo_project (3, 3)%Z) =
    Some (demo_cand 2 "t1") ∧
  visited demo_st_tie demo_idx_tie (demo_project (3, 3)%Z) =
    [demo_cand 0 "t0"; demo_cand 2 "t1"; demo_cand 4 "t2"] ∧
  distance (demo_project (3, 3)%Z) (demo_cand 4 "t2") =
    distance (demo_project (3, 3)%Z) (demo_cand 2 "t1") ∧
  ∃ before after,
    visited demo_st_tie demo_idx_tie (demo_project (3, 3)%Z) =
      before ++ demo_cand 2 "t1" :: after ∧
    ∀ c, c ∈ before →
         Num.root_le (distance (demo_project (3, 3)%Z) c)
                     (distance (demo_project (3, 3)%Z) (demo_cand 2 "t1")) =
         false.
Proof.
  assert (queryNearest demo_st_tie demo_idx_tie (demo_project (3, 3)%Z) =
          Some (demo_cand 2 "t1")) as Hq by (vm_compute; reflexivity).
  split; [exact Hq |]. split; [vm_compute; reflexivity |].
  split; [vm_compute; reflexivity |].
  exact (queryNearest_first_of_ties demo_st_tie demo_idx_tie
           (demo_project (3, 3)%Z) (demo_cand 2 "t1") Hq).
Defined.

Lemma mouseout_keeps_pending_frame_witness :
  show_hover demo_data_AB = true ∧ hoverIndex demo_st1 = Some demo_idx ∧
  queryNearest demo_st1 demo_idx (demo_project (3, 4)%Z) =
    Some (demo_cand 1 "p1") ∧
  hasLayer (lmap (onMouseOut demo_st_moved))
           (hover_id (hover (onMouseOut demo_st_moved))) = false ∧
  _mmPending (onMouseOut demo_st_moved) = true ∧
  hasLayer (lmap (onMouseMove_frame (onMouseOut demo_st_moved)))
           (hover_id (hover (onMouseMove_frame (onMouseOut demo_st_moved)))) =
    true ∧
  trace (onMouseMove_frame (onMouseOut demo_st_moved)) =
    trace demo_st1 ++ [DispatchedHoverLayer (cand_feature (demo_cand 1 "p1"))].
Proof.
  assert (show_hover demo_data_AB = true) as H1 by reflexivity.
  assert (queryNearest demo_st1 demo_idx
            (latLngToContainerPoint (lmap demo_st1)
               (ev_latlng (demo_ev (3, 4)%Z))) = Some (demo_cand 1 "p1"))
    as H3 by (vm_compute; reflexivity).
  pose proof (mouseout_keeps_pending_frame demo_data_AB demo_st1
                (demo_ev (3, 4)%Z) demo_idx (demo_cand 1 "p1") H1
                demo_idx_eq H3) as (Ha & _ & Hb & Hc & _ & Hd).
  split; [exact H1 |]. split; [exact demo_idx_eq |]. split; [exact H3 |].
  split; [exact Ha |]. split; [exact Hb |]. split; [exact Hc | exact Hd].
Defined.

Lemma hover_off_keeps_pending_frame_witness :
  show_hover demo_data_AB = true ∧ show_hover demo_data_off = false ∧
  hoverIndex demo_st1 = Some demo_idx ∧
  queryNearest demo_st1 demo_idx (demo_project (3, 4)%Z) =
    Some (demo_cand 1 "p1") ∧
  _mmPending (showHover demo_data_off demo_st_moved) = true ∧
  hasLayer
    (lmap (onMouseMove_frame (showHover demo_data_off demo_st_moved)))
    (hover_id
       (hover (onMouseMove_frame (showHover demo_data_off demo_st_moved)))) =
    true ∧
  trace (onMouseMove_frame (showHover demo_data_off demo_st_moved)) =
    trace demo_st1 ++ [DispatchedHoverLayer (cand_feature (demo_cand 1 "p1"))].
Proof.
  assert (show_hover demo_data_AB = true) as H1 by reflexivity.
  assert (show_hover demo_data_off = false) as H2 by reflexivity.
  assert (queryNearest demo_st1 demo_idx
            (latLngToContainerPoint (lmap demo_st1)
               (ev_latlng (demo_ev (3, 4)%Z))) = Some (demo_cand 1 "p1"))
    as H3 by (vm_compute; reflexivity).
  pose proof (hover_off_keeps_pending_frame demo_data_AB demo_data_off
                demo_st1 (demo_ev (3, 4)%Z) demo_idx (demo_cand 1 "p1") H1 H2
                demo_idx_eq H3) as (_ & Hb & Hc & _ & Hd).
  split; [exact H1 |]. split; [exact H2 |]. split; [exact demo_idx_eq |].
  split; [exact H3 |]. split; [exact Hb |]. split; [exact Hc | exact Hd].
Defined.

Lemma sync_detaches_dropped_witness :
  reachable demo_st1 ∧
  Obj.get "B" (layers demo_st1) = Some demo_layer_B ∧
  ("B" ∉ snapshot_names demo_data_A) ∧
  hasLayer (lmap demo_st1) 1 = true ∧
  hasLayer (lmap (syncGeojson demo_data_A demo_st1)) 1 = false ∧
  1%nat ∉ (geojsonControl (syncGeojson demo_data_A demo_st1)).*1.
Proof.
  assert (Obj.get "B" (layers demo_st1) = Some demo_layer_B) as Hg
    by (vm_compute; reflexivity).
  assert ("B" ∉ snapshot_names demo_data_A) as Hn by compute_done.
  pose proof (sync_detaches_dropped demo_data_A demo_st1 "B" demo_layer_B
                demo_st1_reachable Hg Hn) as (_ & Hm & Hc).
  split; [exact demo_st1_reachable |]. split; [exact Hg |].
  split; [exact Hn |]. split; [vm_compute; reflexivity |].
  split; [exact Hm | exact Hc].
Defined.

Lemma sync_shows_recreated_witness :
  reachable demo_st_hidden ∧
  Obj.get "A" (desired_of demo_data_A_new) =
    Some {| geojson := [(Some (5, 5), "q")]%Z; hoverable := true |} ∧
  needsCreate demo_st_hidden "A"
    {| geojson := [(Some (5, 5), "q")]%Z; hoverable := true |} = true ∧
  Obj.get "A" (layers demo_st_hidden) = Some demo_layer_A ∧
  hasLayer (lmap demo_st_hidden) 2 = false ∧
  ∃ lyr',
    Obj.get "A" (layers (syncGeojson demo_data_A_new demo_st_hidden)) =
      Some lyr' ∧
    hasLayer (lmap (syncGeojson demo_data_A_new demo_st_hidden))
             (layer_id lyr') = true ∧
    (layer_id lyr', "A") ∈
      geojsonControl (syncGeojson demo_data_A_new demo_st_hidden) ∧
    layer_id lyr' ≠ 2%nat.
Proof.
  assert (Obj.get "A" (desired_of demo_data_A_new) =
          Some {| geojson := [(Some (5, 5), "q")]%Z; hoverable := true |})
    as Hg by (vm_compute; reflexivity).
  assert (needsCreate demo_st_hidden "A"
            {| geojson := [(Some (5, 5), "q")]%Z; hoverable := true |} = true)
    as Hnc by (vm_compute; reflexivity).
  assert (Obj.get "A" (layers demo_st_hidden) = Some demo_layer_A) as Hold
    by (vm_compute; reflexivity).
  pose proof (sync_shows_recreated demo_data_A_new demo_st_hidden "A" _
                demo_st_hidden_reachable Hg Hnc)
    as (lyr' & Hl & _ & Hm & Hc & Hrest).
  split; [exact demo_st_hidden_reachable |]. split; [exact Hg |].
  split; [exact Hnc |]. split; [exact Hold |].
  split; [vm_compute; reflexivity |].
  exists lyr'. split; [exact Hl |]. split; [exact Hm |]. split; [exact Hc |].
  intros Heq. exact (proj1 (Hrest demo_layer_A Hold) (eq_sym Heq)).
Defined.

Lemma sync_keeps_unchanged_witness :
  reachable demo_st_hidden ∧
  Obj.get "A" (desired_of demo_data_AB) =
    Some {| geojson := demo_A; hoverable := true |} ∧
  needsCreate demo_st_hidden "A" {| geojson := demo_A; hoverable := true |} =
    false ∧
  Obj.get "A" (layers demo_st_hidden) = Some demo_layer_A ∧
  hasLayer (lmap demo_st_hidden) 2 = false ∧
  Obj.get "A" (layers (syncGeojson demo_data_AB demo_st_hidden)) =
    Some demo_layer_A ∧
  hasLayer (lmap (syncGeojson demo_data_AB demo_st_hidden)) 2 = false ∧
  (2%nat, "A") ∈ geojsonControl (syncGeojson demo_data_AB demo_st_hidden).
Proof.
  assert (Obj.get "A" (desired_of demo_data_AB) =
          Some {| geojson := demo_A; hoverable := true |}) as Hg
    by (vm_compute; reflexivity).
  assert (needsCreate demo_st_hidden "A"
            {| geojson := demo_A; hoverable := true |} = false) as Hnc
    by (vm_compute; reflexivity).
  assert (Obj.get "A" (layers demo_st_hidden) = Some demo_layer_A) as Hl
    by (vm_compute; reflexivity).
  assert (hasLayer (lmap demo_st_hidden) 2 = false) as Hoff
    by (vm_compute; reflexivity).
  pose proof (sync_keeps_unchanged demo_data_AB demo_st_hidden "A" _
                demo_layer_A demo_st_hidden_reachable Hg Hnc Hl)
    as (Ha & Hb & Hc).
  split; [exact demo_st_hidden_reachable |]. split; [exact Hg |].
  split; [exact Hnc |]. split; [exact Hl |]. split; [exact Hoff |].
  split; [exact Ha |]. split; [| exact Hc].
  exact (eq_trans Hb Hoff).
Defined.

Lemma reachable_control_lists_overlays_witness :
  reachable demo_st1 ∧ Obj.get "A" (layers demo_st1) = Some demo_layer_A ∧
  (2%nat, "A") ∈ geojsonControl demo_st1.
Proof.
  assert (Obj.get "A" (layers demo_st1) = Some demo_layer_A) as Hl
    by (vm_compute; reflexivity).
  split; [exact demo_st1_reachable |]. split; [exact Hl |].
  exact (reachable_control_lists_overlays demo_st1 "A" demo_layer_A
           demo_st1_reachable Hl).
Defined.

Lemma sync_leaves_hover_marker_witness :
  reachable demo_st1 ∧
  hover (syncGeojson demo_data_A demo_st1) = hover demo_st1 ∧
  hasLayer (lmap (syncGeojson demo_data_A demo_st1))
           (hover_id (hover (syncGeojson demo_data_A demo_st1))) =
    hasLayer (lmap demo_st1) (hover_id (hover demo_st1)).
Proof.
  pose proof (sync_leaves_hover_marker demo_data_A demo_st1
                demo_st1_reachable) as (Ha & Hb & _).
  split; [exact demo_st1_reachable |]. split; [exact Ha | exact Hb].
Defined.

Lemma toggle_off_respected_witness :
  reachable demo_st1 ∧
  Obj.get "A" (desired_of demo_data_AB) =
    Some {| geojson := demo_A; hoverable := true |} ∧
  needsCreate demo_st1 "A" {| geojson := demo_A; hoverable := true |} =
    false ∧
  Obj.get "A" (layers demo_st1) = Some demo_layer_A ∧
  hasLayer (lmap demo_st1) 2 = true ∧
  Obj.get "A" (layers demo_st_hidden) = Some demo_layer_A ∧
  hasLayer (lmap demo_st_hidden) 2 = false ∧
  (2%nat, "A") ∈ geojsonControl demo_st_hidden.
Proof.
  assert (Obj.get "A" (desired_of demo_data_AB) =
          Some {| geojson := demo_A; hoverable := true |}) as Hg
    by (vm_compute; reflexivity).
  assert (needsCreate demo_st1 "A"
            {| geojson := demo_A; hoverable := true |} = false) as Hnc
    by (vm_compute; reflexivity).
  assert (Obj.get "A" (layers demo_st1) = Some demo_layer_A) as Hl
    by (vm_compute; reflexivity).
  assert (hasLayer (lmap demo_st1) (layer_id demo_layer_A) = true) as Hon
    by (vm_compute; reflexivity).
  split; [exact demo_st1_reachable |]. split; [exact Hg |].
  split; [exact Hnc |]. split; [exact Hl |]. split; [exact Hon |].
  exact (toggle_off_respected demo_data_AB demo_st1 "A" _ demo_layer_A
           demo_st1_reachable Hg Hnc Hl Hon).
Defined.

Lemma buckets_are_cells_witness :
  reachable demo_st1 ∧ hoverIndex demo_st1 = Some demo_idx ∧
  demo_idx !! "0:0" = Some [demo_c0; demo_cand 1 "p1"] ∧
  ∃ x1 y1 x2 y2,
    cand_x demo_c0 = Fin x1 ∧ cand_y demo_c0 = Fin y1 ∧
    cand_x (demo_cand 1 "p1") = Fin x2 ∧
    cand_y (demo_cand 1 "p1") = Fin y2 ∧
    (Z.abs (x1 - x2) < 25)%Z ∧ (Z.abs (y1 - y2) < 25)%Z.
Proof.
  assert (demo_idx !! "0:0" = Some [demo_c0; demo_cand 1 "p1"]) as Hk
    by (vm_compute; reflexivity).
  assert (demo_c0 ∈ [demo_c0; demo_cand 1 "p1"]) as H0
    by apply list_elem_of_here.
  assert (demo_cand 1 "p1" ∈ [demo_c0; demo_cand 1 "p1"]) as H1
    by apply list_elem_of_further, list_elem_of_here.
  split; [exact demo_st1_reachable |]. split; [exact demo_idx_eq |].
  split; [exact Hk |].
  exact (proj2 (buckets_are_cells demo_st1 demo_idx "0:0" "0:0" _ _ _ _
                  demo_st1_reachable demo_idx_eq Hk H0 Hk H1) eq_refl).
Defined.

Lemma demo_st_replaced_reachable : reachable demo_st_replaced.
Proof.
  exists demo_project. apply (rtc_r _ demo_st1).
  - apply rtc_once. apply (step_sync demo_data_AB).
  - unfold demo_st_replaced. apply (step_sync demo_data_A_new demo_st1).
Qed.

(** Replacing the overlay [A], whose layer is on the map, leaves on the map
    and in the control the layer [3] that the inner pass has created; the
    table holds the layer [4] of the outer pass. *)
Example replaced_shown_overlay_leaves_layer :
  map_layers (lmap demo_st_replaced) = [1; 3; 4]%nat ∧
  geojsonControl demo_st_replaced = [(1, "B"); (3, "A"); (4, "A")]%nat ∧
  (λ e : string * Layer, (e.1, layer_id e.2)) <$> layers demo_st_replaced =
    [("B", 1); ("A", 4)]%nat ∧
  drop (length (trace demo_st1)) (trace demo_st_replaced) =
    [DetachedLayer 2; CreatedLayer "A" [(Some (5, 5), "q")]%Z 3;
     RebuiltHoverIndex;
     DetachedLayer 2; CreatedLayer "A" [(Some (5, 5), "q")]%Z 4;
     RebuiltHoverIndex].
Proof. vm_compute. repeat split; reflexivity. Qed.

Lemma reachable_map_objects_listed_witness :
  reachable demo_st_replaced ∧
  hasLayer (lmap demo_st_replaced) 3 = true ∧
  hover_id (hover demo_st_replaced) = 0%nat ∧
  (λ e : string * Layer, layer_id e.2) <$> layers demo_st_replaced =
    [1; 4]%nat ∧
  (3%nat = hover_id (hover demo_st_replaced) ∨
   3%nat ∈ (geojsonControl demo_st_replaced).*1).
Proof.
  assert (hasLayer (lmap demo_st_replaced) 3 = true) as Hon
    by (vm_compute; reflexivity).
  split; [exact demo_st_replaced_reachable |]. split; [exact Hon |].
  split; [vm_compute; reflexivity |]. split; [vm_compute; reflexivity |].
  exact (reachable_map_objects_listed demo_st_replaced 3
           demo_st_replaced_reachable Hon).
Defined.

Lemma style_feature_over_collection_witness :
  "color" ∈ allowed ∧ "weight" ∈ allowed ∧ "opacity" ∈ allowed ∧
  style_source demo_cp demo_feature "color" = Some "" ∧
  Obj.get "color" (style demo_cp demo_feature) = Some (FromData "") ∧
  Obj.get "weight" (style demo_cp demo_feature) = Some (FromData "5") ∧
  Obj.get "opacity" (style demo_cp demo_feature) = None.
Proof.
  assert ("color" ∈ allowed) as Hc by compute_done.
  assert ("weight" ∈ allowed) as Hw by compute_done.
  assert ("opacity" ∈ allowed) as Ho by compute_done.
  assert (style_source demo_cp demo_feature "color" = Some "") as Hsc
    by (vm_compute; reflexivity).
  assert (style_source demo_cp demo_feature "weight" = Some "5") as Hsw
    by (vm_compute; reflexivity).
  assert (style_source demo_cp demo_feature "opacity" = None) as Hso
    by (vm_compute; reflexivity).
  split; [exact Hc |]. split; [exact Hw |]. split; [exact Ho |].
  split; [exact Hsc |].
  split; [exact (proj1 (style_feature_over_collection demo_cp demo_feature
                          "color" Hc) _ Hsc) |].
  split; [exact (proj1 (style_feature_over_collection demo_cp demo_feature
                          "weight" Hw) _ Hsw) |].
  apply (proj2 (style_feature_over_collection demo_cp demo_feature
                  "opacity" Ho) Hso).
  exists "color". split; [exact Hc |]. rewrite Hsc. eexists. reflexivity.
Defined.

Lemma marker_options_merge_witness :
  NoDup (Obj.keys demo_cp) ∧
  NoDup (Obj.keys (default [] (properties demo_feature))) ∧
  Obj.get "renderer" (pointToLayer demo_cp demo_feature) =
    Some (FromData "svg") ∧
  Obj.get "weight" (pointToLayer demo_cp demo_feature) =
    Some (FromData "5") ∧
  Obj.get "radius" (pointToLayer demo_cp demo_feature) = Some (ONum 3 0).
Proof.
  assert (NoDup (Obj.keys demo_cp)) as H1 by compute_done.
  assert (NoDup (Obj.keys (default [] (properties demo_feature)))) as H2
    by compute_done.
  split; [exact H1 |]. split; [exact H2 |].
  split; [| split].
  - exact (marker_options_merge demo_cp demo_feature "renderer" H1 H2
             ltac:(discriminate) ltac:(discriminate)).
  - exact (marker_options_merge demo_cp demo_feature "weight" H1 H2
             ltac:(discriminate) ltac:(discriminate)).
  - exact (marker_options_merge demo_cp demo_feature "radius" H1 H2
             ltac:(discriminate) ltac:(discriminate)).
Defined.

Lemma marker_colours_witness :
  NoDup (Obj.keys demo_cp) ∧
  NoDup (Obj.keys (default [] (properties demo_feature))) ∧
  Obj.get "color" demo_cp = Some "red" ∧
  Obj.get "color" (pointToLayer demo_cp demo_feature) =
    Some (OStr "#1f77b4") ∧
  Obj.get "fillColor" (pointToLayer demo_cp demo_feature) =
    Some (OStr "#1f77b4").
Proof.
  assert (NoDup (Obj.keys demo_cp)) as H1 by compute_done.
  assert (NoDup (Obj.keys (default [] (properties demo_feature)))) as H2
    by compute_done.
  split; [exact H1 |]. split; [exact H2 |].
  split; [vm_compute; reflexivity |].
  exact (marker_colours demo_cp demo_feature H1 H2).
Defined.
